(** * Order execution engine of the trading bot: a shallow embedding

    The development follows [src/trading_bot.py] (class [BasicBot]:
    [_adjust_precision], [place_order], [execute_twap], [execute_grid]) and
    the single-order bot of [src/bot.py] (module [Basic] below).  The
    construction of a bot ([__init__]), the command-line scripts of both
    files (modules [Main] and [BasicMain]) and the page of [src/app.py]
    (module [App]) come after them; the scripts start from the namespace
    that [parse_args] returns, the page from the values of its widgets.

    Conventions of the embedding.

    - Numbers.  A Python [float] and a [decimal.Decimal] are both modelled by
      the rational number they denote, in canonical form ([Qc], so that equal
      numbers are equal terms).  Every operation that rounds in Python rounds
      here: float arithmetic to binary64 (53 significant bits, round half to
      even, gradual underflow), [Decimal] arithmetic to the default context
      (28 significant digits, round half to even).  Only finite numbers are
      modelled: NaN, the infinities and the sign of zero are outside the
      model.  Where Python raises [OverflowError] on leaving the range of
      binary64 (the conversion of an int, the division of ints,
      [time.sleep]) the model raises it too; where the code computes on
      silently with an infinity or a NaN (the arithmetic of numpy), the
      model agrees with the code as long as the results are [finite], and
      the theorems ask for that.  The rounding to binary64 is compared with
      the kernel's own binary64 numbers on the values that the examples
      use.
    - Strings.  The symbols, sides and order types are ASCII strings;
      [upper] is [str.upper] on them (of the letters of other alphabets,
      which [str.upper] would change too, the model knows nothing).
    - Effects.  The exchange client, the logger and [time.sleep] act on a
      trace of events; a computation is a function from the trace so far to
      an outcome (a value or a raised exception) and the extended trace.
      The exchange is an oracle: its answer to a request may depend on how
      many requests were sent before.
    - Scripts.  A run of a script or of the page is its way out together
      with the list of what it did: the connection, the methods of the bot,
      and what it printed or showed.  The file system is assumed to let the
      logger open its file.
    - Resources.  Memory and time suffice: a list as long as a count asks
      for can be built. *)

From Stdlib Require Import ZArith QArith Qpower Qcanon Qround Qabs Lia Ascii String.
From Corelib Require PrimFloat FloatOps SpecFloat.
From Stdlib Require Uint63.
From stdpp Require Import base numbers strings pretty gmap list sorting.

Local Open Scope Z_scope.

(** ** Strings *)

(** [str.upper] on one ASCII character: the letters a-z (97..122) move to
    A-Z, every other byte is kept. *)
Definition upper_char (c : ascii) : ascii :=
  let n := nat_of_ascii c in
  if (97 <=? n)%nat && (n <=? 122)%nat then ascii_of_nat (n - 32) else c.

Fixpoint upper (s : string) : string :=
  match s with
  | EmptyString => EmptyString
  | String c s' => String (upper_char c) (upper s')
  end.

(** ** Numbers *)

Definition of_Z (n : Z) : Qc := Qc_of_Z n.

(** The number [n / d], canonical. *)
Definition qc (n : Z) (d : positive) : Qc := Q2Qc (n # d).

Definition Qc_floor (x : Qc) : Z := Qfloor x.
Definition Qc_ceiling (x : Qc) : Z := Qceiling x.

(** Integer part, rounded toward zero. *)
Definition Qc_trunc (x : Qc) : Z :=
  if decide (0 ≤ x)%Qc then Qc_floor x else Qc_ceiling x.

Definition Qc_abs (x : Qc) : Qc := if decide (0 ≤ x)%Qc then x else (- x)%Qc.

Definition half : Qc := qc 1 2.

(** Nearest integer, ties to the even one. *)
Definition round_half_even (x : Qc) : Z :=
  let f := Qc_floor x in
  let r := (x - of_Z f)%Qc in
  if decide (r < half)%Qc then f
  else if decide (half < r)%Qc then f + 1
  else if Z.even f then f else f + 1.

(** [pow b e] is b^e for any integer exponent. *)
Definition pow (b e : Z) : Qc := Q2Qc (Qpower (inject_Z b) e).

Fixpoint Zlog_aux (fuel : nat) (b n : Z) : Z :=
  match fuel with
  | O => 0
  | S fuel' => if n <? b then 0 else 1 + Zlog_aux fuel' b (n / b)
  end.

(** Floor of the logarithm of a positive integer in base [b >= 2]. *)
Definition Zlog (b n : Z) : Z := Zlog_aux (Z.to_nat (Z.log2 n)) b n.

(** For [x > 0]: the exponent [e] with [b^e <= x < b^(e+1)]. *)
Definition floor_log (b : Z) (x : Qc) : Z :=
  let g := Zlog b (Qnum x) - Zlog b (Zpos (Qden x)) in
  if decide (pow b g ≤ x)%Qc then g else g - 1.

(** Rounding to [prec] significant digits in base [b], half to even; the unit
    in the last place never goes below [b^emin] (gradual underflow). *)
Definition round_sig (b prec emin : Z) (x : Qc) : Qc :=
  if decide (x = 0%Qc) then 0%Qc
  else
    let a := Qc_abs x in
    let u := pow b (Z.max (floor_log b a - prec + 1) emin) in
    let m := of_Z (round_half_even (a / u)) in
    if decide (0 ≤ x)%Qc then (m * u)%Qc else (- (m * u))%Qc.

(** binary64: 53 bits, smallest unit 2^-1074. *)
Definition round_float : Qc → Qc := round_sig 2 53 (-1074).

(** The default [decimal] context: [prec = 28], [Emin = -999999], so the
    smallest unit is 10^(Emin - prec + 1). *)
Definition decimal_prec : Z := 28.
Definition round_decimal : Qc → Qc := round_sig 10 decimal_prec (-1000026).

(** A Python float: a number that binary64 represents. *)
Definition float : Type := Qc.
Definition is_float (x : float) : Prop := round_float x = x.

(** The largest finite binary64 number, (2^53 - 1) * 2^971. *)
Definition float_max : Qc := of_Z ((2 ^ 53 - 1) * 2 ^ 971).

(** A rounded result that binary64 holds: the rounding did not leave the
    finite range (the result is not an infinity). *)
Definition finite (x : Qc) : Prop := (Qc_abs x ≤ float_max)%Qc.
#[global] Instance finite_dec (x : Qc) : Decision (finite x).
Proof. unfold finite. apply _. Defined.

(** A [decimal.Decimal] value. *)
Definition Decimal : Type := Qc.

(** ** Exceptions and outcomes *)

Inductive exn : Type :=
  | ValueError (msg : string)
  | ZeroDivisionError
  | OverflowError
  | KeyError (key : string)
  | DivisionByZero                      (* decimal.DivisionByZero *)
  | InvalidOperation                    (* decimal.InvalidOperation *)
  | BinanceAPIException (status_code : Z) (message : string)
  | OtherException (msg : string).      (* any other failure of the client *)

Inductive outcome (A : Type) : Type :=
  | Return (a : A)
  | Raise (e : exn).
Arguments Return {A} a.
Arguments Raise {A} e.

Definition obind {A B} (o : outcome A) (k : A → outcome B) : outcome B :=
  match o with
  | Return a => k a
  | Raise e => Raise e
  end.

(** ** Float and Decimal operations *)

Definition fadd (x y : float) : float := round_float (x + y).
Definition fsub (x y : float) : float := round_float (x - y).
Definition fmul (x y : float) : float := round_float (x * y).

(** [int] to [float], as an operand of a float operation. *)
Definition float_of_int (n : Z) : float := round_float (of_Z n).

(** [x / y] on floats. *)
Definition fdiv (x y : float) : outcome float :=
  if decide (y = 0%Qc) then Raise ZeroDivisionError
  else Return (round_float (x / y)).

(** [x / n] with [x] a float and [n] an int: the int is converted to a
    float first, which raises [OverflowError] when it is beyond the range
    of the floats; the quotient by a converted int other than zero is not
    larger than [x]. *)
Definition truediv_float_int (x : float) (n : Z) : outcome float :=
  if decide (finite (float_of_int n)) then fdiv x (float_of_int n)
  else Raise OverflowError.

(** [a / b] on ints: the correctly rounded quotient, or [OverflowError]
    when it is beyond the range of the floats. *)
Definition truediv_int_int (a b : Z) : outcome float :=
  if decide (b = 0) then Raise ZeroDivisionError
  else
    let q := round_float (of_Z a / of_Z b) in
    if decide (finite q) then Return q else Raise OverflowError.

(** [Decimal(value)] of a float is exact. *)
Definition Decimal_of_float (x : float) : Decimal := x.

(** [float(d)] of a Decimal: the nearest float. *)
Definition float_of_Decimal (d : Decimal) : float := round_float d.

(** [a // b] on Decimals: the integer part of the exact quotient, refused
    when it needs more digits than the context precision. *)
Definition Decimal_floordiv (a b : Decimal) : outcome Decimal :=
  if decide (b = 0%Qc) then
    if decide (a = 0%Qc) then Raise InvalidOperation else Raise DivisionByZero
  else
    let q := Qc_trunc (a / b) in
    if decide (Z.abs q < 10 ^ decimal_prec) then Return (of_Z q)
    else Raise InvalidOperation.

(** [a * b] on Decimals: the exact product rounded to the context. *)
Definition Decimal_mul (a b : Decimal) : Decimal := round_decimal (a * b).

(** ** Exchange data *)

(** One entry of a symbol's ['filters'] list in the exchange info.  The
    numeric strings of the exchange (['stepSize'], ['tickSize']) are kept as
    the Decimal they denote; [None] is an absent key. *)
Record exchange_filter : Type := {
  filterType : string;
  stepSize : option Decimal;
  tickSize : option Decimal;
}.

(** The keyword arguments of [client.futures_create_order]; [None] is a key
    that the request does not carry. *)
Record params : Type := {
  req_symbol : string;
  req_side : string;
  req_type : string;
  req_quantity : float;
  req_price : option float;
  req_stopPrice : option float;
  req_timeInForce : option string;
}.

(** The exchange's answer to an accepted order. *)
Record response : Type := { orderId : Z }.

(** What the bot writes to its logger. *)
Inductive log_record : Type :=
  | PlacingOrder (order_type : string) (p : params)
  | OrderResponse (r : response)
  | ApiError (status_code : Z) (message : string)
  | UnexpectedError (e : exn)
  | StartingTWAP (intervals : Z) (slice_qty delay : float)
  | StartingGrid (grids : Z) (lower_price upper_price qty_per_order : float).

Inductive event : Type :=
  | EvInfo (r : log_record)             (* logger.info *)
  | EvError (r : log_record)            (* logger.error *)
  | EvOrder (p : params)                (* client.futures_create_order *)
  | EvSleep (seconds : float).          (* time.sleep *)

#[global] Instance exn_eq_dec : EqDecision exn.
Proof. solve_decision. Defined.
#[global] Instance outcome_eq_dec {A} `{EqDecision A} : EqDecision (outcome A).
Proof. solve_decision. Defined.
#[global] Instance exchange_filter_eq_dec : EqDecision exchange_filter.
Proof. solve_decision. Defined.
#[global] Instance params_eq_dec : EqDecision params.
Proof. solve_decision. Defined.
#[global] Instance response_eq_dec : EqDecision response.
Proof. solve_decision. Defined.
#[global] Instance log_record_eq_dec : EqDecision log_record.
Proof. solve_decision. Defined.
#[global] Instance event_eq_dec : EqDecision event.
Proof. solve_decision. Defined.

(** The requests sent to the exchange, in order. *)
Fixpoint orders_of (t : list event) : list params :=
  match t with
  | [] => []
  | EvOrder p :: t' => p :: orders_of t'
  | _ :: t' => orders_of t'
  end.

(** The pauses taken, in order. *)
Fixpoint sleeps_of (t : list event) : list float :=
  match t with
  | [] => []
  | EvSleep d :: t' => d :: sleeps_of t'
  | _ :: t' => sleeps_of t'
  end.

(** The trace without its log records: requests and pauses, interleaved as
    they happened. *)
Fixpoint actions_of (t : list event) : list event :=
  match t with
  | [] => []
  | EvInfo _ :: t' | EvError _ :: t' => actions_of t'
  | e :: t' => e :: actions_of t'
  end.

(** ** Computations with effects *)

Definition world : Type := list event.

Definition M (A : Type) : Type := world → outcome A * world.

Definition ret {A} (a : A) : M A := λ w, (Return a, w).
Definition raise {A} (e : exn) : M A := λ w, (Raise e, w).
Definition bind {A B} (m : M A) (k : A → M B) : M B :=
  λ w, match m w with
       | (Return a, w') => k a w'
       | (Raise e, w') => (Raise e, w')
       end.

(** A pure computation that may raise. *)
Definition lift {A} (o : outcome A) : M A := λ w, (o, w).

(** [try: m  except Exception as e: handler e]. *)
Definition try_except {A} (m : M A) (handler : exn → M A) : M A :=
  λ w, match m w with
       | (Return a, w') => (Return a, w')
       | (Raise e, w') => handler e w'
       end.

Definition emit (e : event) : M unit := λ w, (Return tt, w ++ [e]).

#[global] Instance outcome_ret : MRet outcome := @Return.
#[global] Instance outcome_bind : MBind outcome := λ A B k o, obind o k.
#[global] Instance M_ret : MRet M := @ret.
#[global] Instance M_bind : MBind M := λ A B k m, bind m k.

(** [for x in xs: s = body x s], the loop-carried variables in [s]. *)
Fixpoint for_each {A S} (xs : list A) (body : A → S → M S) (s : S) : M S :=
  match xs with
  | [] => ret s
  | x :: xs' => s' ← body x s; for_each xs' body s'
  end.

(** [range(n)]. *)
Definition range (n : Z) : list Z := Z.of_nat <$> seq 0 (Z.to_nat n).

Definition logger_info (r : log_record) : M unit := emit (EvInfo r).
Definition logger_error (r : log_record) : M unit := emit (EvError r).

(** The whole number of nanoseconds that [time.sleep] makes of its
    argument: the float product with 10^9, rounded away from zero. *)
Definition sleep_ns (seconds : float) : Z :=
  let d := fmul seconds (of_Z (10 ^ 9)) in
  if decide (0 ≤ d)%Qc then Qc_ceiling d else Qc_floor d.

(** [time.sleep(seconds)], as CPython 3.11 does it: a length whose
    nanoseconds do not fit a signed 64-bit integer raises [OverflowError];
    then a negative length is refused. *)
Definition sleep (seconds : float) : M unit :=
  if decide (- 2 ^ 63 ≤ sleep_ns seconds < 2 ^ 63) then
    if decide (seconds < 0)%Qc
    then raise (ValueError "sleep length must be non-negative")
    else emit (EvSleep seconds)
  else raise OverflowError.

(** The exchange as an oracle: the answer to a request, given the number of
    requests sent before it. *)
Definition Client : Type := nat → params → outcome response.

Definition futures_create_order (c : Client) (p : params) : M response :=
  λ w, (c (length (orders_of w)) p, w ++ [EvOrder p]).

(** [y[-1] = x] on a non-empty array. *)
Definition set_last {A} (l : list A) (x : A) : list A :=
  match l with
  | [] => []
  | _ => removelast l ++ [x]
  end.

(** [numpy.linspace(start, stop, num)] with its defaults ([endpoint=True]),
    operation by operation: the sample indices are scaled by the step
    [(stop - start) / (num - 1)] (or divided first when that step underflows
    to zero), shifted by [start], and the last sample is set to [stop].  A
    negative [num] is refused; [num = 1] gives [0 * (stop - start) + start].
    numpy does not raise when [stop - start] overflows: its samples are
    then infinities or NaN, which the model does not have, so the model is
    numpy's result when [fsub stop start] is [finite] and the count fits
    numpy's index type. *)
Definition linspace (start stop : float) (num : Z) : outcome (list float) :=
  if decide (num < 0)
  then Raise (ValueError ("Number of samples, " +:+ pretty num
                          +:+ ", must be non-negative."))
  else
    let div := num - 1 in
    let delta := fsub stop start in
    let y := float_of_int <$> range num in
    let y :=
      if decide (0 < div) then
        let step := round_float (delta / float_of_int div) in
        if decide (step = 0%Qc)
        then (λ v, fmul (round_float (v / float_of_int div)) delta) <$> y
        else (λ v, fmul v step) <$> y
      else (λ v, fmul v delta) <$> y in
    let y := (λ v, fadd v start) <$> y in
    Return (if decide (1 < num) then set_last y stop else y).

(** ** [trading_bot.py]: class [BasicBot] *)

(** The state of a bot after [__init__]: the exchange client and the
    precision rules fetched once from the exchange info, by symbol. *)
Record BasicBot : Type := {
  client : Client;
  filters : gmap string (list exchange_filter);
}.

(** [f[key]] on a filter entry. *)
Definition getitem (key : string) (v : option Decimal) : outcome Decimal :=
  match v with
  | Some d => Return d
  | None => Raise (KeyError key)
  end.

(** The loop of [_adjust_precision] over the symbol's filters: the first
    filter of the wanted type decides; without one the value is returned
    unchanged. *)
Fixpoint adjust_loop (sym_filters : list exchange_filter) (value : float)
    (filter_type : string) : outcome float :=
  match sym_filters with
  | [] => Return value
  | f :: sym_filters' =>
      if decide (filterType f = filter_type) then
        step ← (if decide (filter_type = "LOT_SIZE")
                then getitem "stepSize" (stepSize f)
                else getitem "tickSize" (tickSize f));
        let val := Decimal_of_float value in
        q ← Decimal_floordiv val step;
        let quantized := Decimal_mul q step in
        Return (float_of_Decimal quantized)
      else adjust_loop sym_filters' value filter_type
  end.

Definition _adjust_precision (self : BasicBot) (symbol : string)
    (value : float) (filter_type : string) : outcome float :=
  let sym_filters := default [] (filters self !! upper symbol) in
  adjust_loop sym_filters value filter_type.

Definition place_order (self : BasicBot) (symbol side order_type : string)
    (quantity : float) (price stop_price : option float) : M response :=
  let s := upper symbol in
  qty ← lift (_adjust_precision self s quantity "LOT_SIZE");
  params ←
    (if decide (order_type = "MARKET") then
       mret {| req_symbol := s; req_side := upper side; req_type := "MARKET";
               req_quantity := qty; req_price := None; req_stopPrice := None;
               req_timeInForce := None |}
     else if decide (order_type = "LIMIT") then
       match price with
       | None => raise (ValueError "Price required for LIMIT orders")
       | Some price =>
           pr ← lift (_adjust_precision self s price "PRICE_FILTER");
           mret {| req_symbol := s; req_side := upper side;
                   req_type := "LIMIT"; req_quantity := qty;
                   req_price := Some pr; req_stopPrice := None;
                   req_timeInForce := Some "GTC" |}
       end
     else if decide (order_type = "STOP_LIMIT") then
       match price, stop_price with
       | Some price, Some stop_price =>
           pr ← lift (_adjust_precision self s price "PRICE_FILTER");
           sp ← lift (_adjust_precision self s stop_price "PRICE_FILTER");
           mret {| req_symbol := s; req_side := upper side;
                   req_type := "STOP"; req_quantity := qty;
                   req_price := Some pr; req_stopPrice := Some sp;
                   req_timeInForce := Some "GTC" |}
       | _, _ =>
           raise (ValueError
                    "Both stop_price and price required for STOP_LIMIT")
       end
     else raise (ValueError ("Unsupported order type: " +:+ order_type)));
  try_except
    (logger_info (PlacingOrder order_type params);;
     result ← futures_create_order (client self) params;
     logger_info (OrderResponse result);;
     mret result)
    (λ e, match e with
          | BinanceAPIException status_code message =>
              logger_error (ApiError status_code message);; raise e
          | _ => logger_error (UnexpectedError e);; raise e
          end).

Definition execute_twap (self : BasicBot) (symbol side : string)
    (total_qty : float) (duration intervals : Z) : M (list response) :=
  slice_qty ← lift (truediv_float_int total_qty intervals);
  delay ← lift (truediv_int_int duration intervals);
  let results := [] in
  logger_info (StartingTWAP intervals slice_qty delay);;
  results ← for_each (range intervals) (λ i results,
    res ← place_order self symbol side "MARKET" slice_qty None None;
    let results := results ++ [res] in
    (if decide (i < intervals - 1) then sleep delay else mret tt);;
    mret results) results;
  mret results.

Definition execute_grid (self : BasicBot) (symbol side : string)
    (total_qty lower_price upper_price : float) (grids : Z)
    : M (list response) :=
  prices ← lift (linspace lower_price upper_price grids);
  qty_per_order ← lift (truediv_float_int total_qty grids);
  let results := [] in
  logger_info (StartingGrid grids lower_price upper_price qty_per_order);;
  results ← for_each prices (λ price results,
    res ← place_order self symbol side "LIMIT" qty_per_order
            (Some price) None;
    mret (results ++ [res])) results;
  mret results.

(** ** [bot.py]: the single-order bot *)

Module Basic.

Record BasicBot : Type := { client : Client }.

Definition place_order (self : BasicBot) (symbol side order_type : string)
    (quantity : float) (price : option float) : M response :=
  let params :=
    {| req_symbol := upper symbol; req_side := upper side;
       req_type := upper order_type; req_quantity := quantity;
       req_price := None; req_stopPrice := None;
       req_timeInForce := None |} in
  params ←
    (if decide (upper order_type = "LIMIT") then
       match price with
       | None => raise (ValueError "Price must be provided for LIMIT orders")
       | Some price =>
           mret {| req_symbol := req_symbol params;
                   req_side := req_side params;
                   req_type := req_type params;
                   req_quantity := req_quantity params;
                   req_price := Some price;
                   req_stopPrice := req_stopPrice params;
                   req_timeInForce := Some "GTC" |}
       end
     else mret params);
  try_except
    (logger_info (PlacingOrder order_type params);;
     result ← futures_create_order (client self) params;
     logger_info (OrderResponse result);;
     mret result)
    (λ e, match e with
          | BinanceAPIException status_code message =>
              logger_error (ApiError status_code message);; raise e
          | _ => logger_error (UnexpectedError e);; raise e
          end).

End Basic.

(** ** [trading_bot.py]: [BasicBot.__init__] *)

(** One entry of [info['symbols']] in the exchange info. *)
Record symbol_info : Type := {
  info_symbol : string;                       (* f['symbol'] *)
  info_filters : list exchange_filter;        (* f['filters'] *)
}.

(** [{f['symbol']: f['filters'] for f in symbols}]: the entries are stored in
    order, so a later entry replaces an earlier one of the same name. *)
Definition filters_of (symbols : list symbol_info)
    : gmap string (list exchange_filter) :=
  foldl (λ d f, <[info_symbol f := info_filters f]> d) ∅ symbols.

(** A connected client: the answer of [futures_exchange_info] and the
    answers to the orders. *)
Record Session : Type := {
  futures_exchange_info : outcome (list symbol_info);
  session_orders : Client;
}.

(** [Client(api_key, api_secret, testnet=...)]: a connected client, or the
    exception that connecting raises. *)
Definition Binance : Type := string → string → bool → outcome Session.

(** A text that a script shows: a fixed string, or an f-string that ends
    with an exception ([f"...: {e}"]), kept as the prefix and the
    exception. *)
Inductive text : Type :=
  | Text (s : string)
  | TextExn (prefix : string) (e : exn).

(** The value that a script binds to [result]: the answer of [place_order]
    or the answers of a strategy. *)
Inductive order_result : Type :=
  | OneOrder (r : response)
  | Orders (rs : list response).

(** What a script does, as seen from outside. *)
Inductive output : Type :=
  | OutClient (api_key api_secret : string) (testnet : bool)  (* Client(...) *)
  | OutExchangeInfo              (* client.futures_exchange_info() *)
  | OutInitialized               (* logger.info('Initialized BasicBot') *)
  | OutBot (e : event)           (* an event of a method of the bot *)
  | OutPrint (t : text)          (* print(...) *)
  | OutPrintResult (r : order_result)
  | OutStError (t : text)        (* st.error(...) *)
  | OutStSuccess (s : string)    (* st.success(...) *)
  | OutStJson (r : order_result).  (* st.json(result) *)

(** How a command-line script ends. *)
Inductive exit : Type :=
  | Finished                     (* the last statement was reached *)
  | SysExit (code : Z)           (* sys.exit(code) *)
  | Unhandled (e : exn).         (* an exception left the script *)

(** The exit status of the process. *)
Definition exit_code (x : exit) : Z :=
  match x with
  | Finished => 0
  | SysExit code => code
  | Unhandled _ => 1
  end.

#[global] Instance symbol_info_eq_dec : EqDecision symbol_info.
Proof. solve_decision. Defined.
#[global] Instance text_eq_dec : EqDecision text.
Proof. solve_decision. Defined.
#[global] Instance order_result_eq_dec : EqDecision order_result.
Proof. solve_decision. Defined.
#[global] Instance output_eq_dec : EqDecision output.
Proof. solve_decision. Defined.
#[global] Instance exit_eq_dec : EqDecision exit.
Proof. solve_decision. Defined.

(** The events of the bot's methods among the outputs of a script. *)
Fixpoint bot_events (out : list output) : list event :=
  match out with
  | [] => []
  | OutBot e :: out' => e :: bot_events out'
  | _ :: out' => bot_events out'
  end.

(** [BasicBot(api_key, api_secret, testnet)]: the client is connected, the
    exchange info is fetched and its filters are stored by symbol; then the
    logger is set up and the construction is logged.  An exception of the
    client or of the exchange info ends the construction. *)
Definition __init__ (binance : Binance) (api_key api_secret : string)
    (testnet : bool) : outcome BasicBot * list output :=
  match binance api_key api_secret testnet with
  | Raise e => (Raise e, [OutClient api_key api_secret testnet])
  | Return session =>
      match futures_exchange_info session with
      | Raise e =>
          (Raise e, [OutClient api_key api_secret testnet; OutExchangeInfo])
      | Return symbols =>
          (Return {| client := session_orders session;
                     filters := filters_of symbols |},
           [OutClient api_key api_secret testnet; OutExchangeInfo;
            OutInitialized])
      end
  end.

(** [not s] on a string that may be [None]: [None] and the empty string are
    the false values. *)
Definition not_ (s : option string) : bool :=
  match s with
  | None | Some EmptyString => true
  | Some _ => false
  end.

(** The [NameError] of reading [result] when no branch assigned it. *)
Definition result_unbound : exn :=
  OtherException "name 'result' is not defined".

(** ** [trading_bot.py]: the script *)

Module Main.

(** The namespace that [parse_args] returns; [None] is an option that was
    not given (and, for the credentials, not found in the environment). *)
Record Namespace : Type := {
  api_key : option string;
  api_secret : option string;
  symbol : string;
  side : string;
  order_type : string;
  quantity : float;
  price : option float;
  stop_price : option float;
  duration : option Z;
  intervals : option Z;
  lower_price : option float;
  upper_price : option float;
  grids : option Z;
  testnet : bool;
}.

(** What [parse_args] guarantees of its namespace: the [choices] of
    [--side] and [--type], and [--testnet], a [store_true] flag whose
    default is [True] already. *)
Definition parsed (args : Namespace) : Prop :=
  side args ∈ ["BUY"; "SELL"]
  ∧ order_type args ∈ ["MARKET"; "LIMIT"; "STOP_LIMIT"; "TWAP"; "GRID"]
  ∧ testnet args = true.

(** The [try] block up to the two [print]s: the value bound to [result],
    [None] when no branch binds it. *)
Definition order (bot : BasicBot) (args : Namespace)
    : M (option order_result) :=
  if decide (order_type args ∈ ["MARKET"; "LIMIT"; "STOP_LIMIT"]) then
    result ← place_order bot (symbol args) (side args) (order_type args)
               (quantity args) (price args) (stop_price args);
    mret (Some (OneOrder result))
  else if decide (order_type args = "TWAP") then
    match duration args, intervals args with
    | Some duration, Some intervals =>
        result ← execute_twap bot (symbol args) (side args) (quantity args)
                   duration intervals;
        mret (Some (Orders result))
    | _, _ => raise (ValueError "TWAP requires --duration and --intervals")
    end
  else if decide (order_type args = "GRID") then
    match lower_price args, upper_price args, grids args with
    | Some lower_price, Some upper_price, Some grids =>
        result ← execute_grid bot (symbol args) (side args) (quantity args)
                   lower_price upper_price grids;
        mret (Some (Orders result))
    | _, _, _ =>
        raise (ValueError
                 "GRID requires --lower-price, --upper-price, and --grids")
    end
  else mret None.

(** The script from the parsed arguments on (lines 168-208).  The bot is
    constructed outside the [try] block and starts with an empty trace. *)
Definition main (binance : Binance) (args : Namespace) : exit * list output :=
  if not_ (api_key args) || not_ (api_secret args) then
    (SysExit 1,
     [OutPrint (Text "Error: API key/secret required via flags or env vars")])
  else
    match __init__ binance (default "" (api_key args))
            (default "" (api_secret args)) (testnet args) with
    | (Raise e, out) => (Unhandled e, out)
    | (Return bot, out) =>
        match order bot args [] with
        | (Return (Some result), w) =>
            (Finished,
             out ++ (OutBot <$> w)
             ++ [OutPrint (Text "Order response:"); OutPrintResult result])
        | (Return None, w) =>
            (SysExit 1,
             out ++ (OutBot <$> w)
             ++ [OutPrint (Text "Order response:");
                 OutPrint (TextExn "Failed to place order: " result_unbound)])
        | (Raise e, w) =>
            (SysExit 1,
             out ++ (OutBot <$> w)
             ++ [OutPrint (TextExn "Failed to place order: " e)])
        end
    end.

End Main.

(** ** [bot.py]: construction and script *)

Module BasicMain.

(** [BasicBot(api_key, api_secret, testnet)] of [bot.py]: the client is
    connected to the testnet whatever [testnet] is, and no exchange info is
    fetched. *)
Definition __init__ (binance : Binance) (api_key api_secret : string)
    (testnet : bool) : outcome Basic.BasicBot * list output :=
  match binance api_key api_secret true with
  | Raise e => (Raise e, [OutClient api_key api_secret true])
  | Return session =>
      (Return {| Basic.client := session_orders session |},
       [OutClient api_key api_secret true; OutInitialized])
  end.

Record Namespace : Type := {
  api_key : option string;
  api_secret : option string;
  symbol : string;
  side : string;
  order_type : string;
  quantity : float;
  price : option float;
  testnet : bool;
}.

(** The script from the parsed arguments on (lines 84-101). *)
Definition main (binance : Binance) (args : Namespace) : exit * list output :=
  if not_ (api_key args) || not_ (api_secret args) then
    (SysExit 1,
     [OutPrint (Text "Error: API key and secret must be provided via flags or environment variables")])
  else
    match __init__ binance (default "" (api_key args))
            (default "" (api_secret args)) (testnet args) with
    | (Raise e, out) => (Unhandled e, out)
    | (Return bot, out) =>
        match Basic.place_order bot (symbol args) (side args)
                (order_type args) (quantity args) (price args) [] with
        | (Return order, w) =>
            (Finished,
             out ++ (OutBot <$> w)
             ++ [OutPrint (Text "Order placed successfully:");
                 OutPrintResult (OneOrder order)])
        | (Raise e, w) =>
            (SysExit 1,
             out ++ (OutBot <$> w)
             ++ [OutPrint (TextExn "Failed to place order: " e)])
        end
    end.

End BasicMain.

(** ** [app.py]: the page *)

Module App.

(** The values of the widgets in one run of the page.  A number input that
    the page shows only for some order types has a value in every run here;
    the page reads it only when it shows the widget. *)
Record Form : Type := {
  api_key : string;
  api_secret : string;
  testnet : bool;
  symbol : string;
  side : string;
  order_type : string;
  quantity : float;
  price_input : float;
  stop_price_input : float;
  duration_input : Z;
  intervals_input : Z;
  lower_price_input : float;
  upper_price_input : float;
  grids_input : Z;
  execute : bool;                       (* st.button("Execute") *)
}.

(** What the widgets guarantee: the options of the select boxes and the
    [min_value] of the number inputs. *)
Definition in_range (form : Form) : Prop :=
  side form ∈ ["BUY"; "SELL"]
  ∧ order_type form ∈ ["MARKET"; "LIMIT"; "STOP_LIMIT"; "TWAP"; "GRID"]
  ∧ (0 ≤ quantity form)%Qc
  ∧ (0 ≤ price_input form)%Qc ∧ (0 ≤ stop_price_input form)%Qc
  ∧ 1 ≤ duration_input form ∧ 1 ≤ intervals_input form
  ∧ (0 ≤ lower_price_input form)%Qc ∧ (0 ≤ upper_price_input form)%Qc
  ∧ 1 ≤ grids_input form.

(** The conditional inputs (lines 21-39): [None] unless the order type
    shows the widget. *)
Definition price (form : Form) : option float :=
  if decide (order_type form ∈ ["LIMIT"; "STOP_LIMIT"])
  then Some (price_input form) else None.
Definition stop_price (form : Form) : option float :=
  if decide (order_type form = "STOP_LIMIT")
  then Some (stop_price_input form) else None.
Definition duration (form : Form) : option Z :=
  if decide (order_type form = "TWAP")
  then Some (duration_input form) else None.
Definition intervals (form : Form) : option Z :=
  if decide (order_type form = "TWAP")
  then Some (intervals_input form) else None.
Definition lower_price (form : Form) : option float :=
  if decide (order_type form = "GRID")
  then Some (lower_price_input form) else None.
Definition upper_price (form : Form) : option float :=
  if decide (order_type form = "GRID")
  then Some (upper_price_input form) else None.
Definition grids (form : Form) : option Z :=
  if decide (order_type form = "GRID")
  then Some (grids_input form) else None.

(** How a run of the page ends. *)
Inductive ending : Type :=
  | Completed                           (* the last statement was reached *)
  | Stopped.                            (* st.stop() *)

(** Where the [try] block stands when it leaves its [if] chain. *)
Inductive branch : Type :=
  | Bound (result : order_result)       (* [result] was assigned *)
  | Unbound                             (* no branch assigned [result] *)
  | StopAfter (message : string).       (* st.error(message); st.stop() *)

(** The [if] chain of the [try] block on a constructed bot (lines 50-81). *)
Definition order (bot : BasicBot) (form : Form) : M branch :=
  if decide (order_type form ∈ ["MARKET"; "LIMIT"; "STOP_LIMIT"]) then
    result ← place_order bot (symbol form) (side form) (order_type form)
               (quantity form) (price form) (stop_price form);
    mret (Bound (OneOrder result))
  else if decide (order_type form = "TWAP") then
    match duration form, intervals form with
    | Some duration, Some intervals =>
        result ← execute_twap bot (symbol form) (side form) (quantity form)
                   duration intervals;
        mret (Bound (Orders result))
    | _, _ => mret (StopAfter "TWAP requires duration and intervals.")
    end
  else if decide (order_type form = "GRID") then
    match lower_price form, upper_price form, grids form with
    | Some lower_price, Some upper_price, Some grids =>
        result ← execute_grid bot (symbol form) (side form) (quantity form)
                   lower_price upper_price grids;
        mret (Bound (Orders result))
    | _, _, _ =>
        mret (StopAfter "GRID requires lower price, upper price, and grids.")
    end
  else mret Unbound.

(** One run of the page (lines 42-85).  The bot is constructed inside the
    [try] block; [st.stop()] is not an [Exception] and ends the run. *)
Definition script (binance : Binance) (form : Form) : ending * list output :=
  if execute form then
    if bool_decide (api_key form = "") || bool_decide (api_secret form = "")
    then (Completed, [OutStError (Text "API Key and Secret are required.")])
    else if bool_decide (symbol form = "")
    then (Completed, [OutStError (Text "Symbol is required.")])
    else
      match __init__ binance (api_key form) (api_secret form) (testnet form)
      with
      | (Raise e, out) =>
          (Completed, out ++ [OutStError (TextExn "Error executing order: " e)])
      | (Return bot, out) =>
          match order bot form [] with
          | (Return (Bound result), w) =>
              (Completed,
               out ++ (OutBot <$> w)
               ++ [OutStSuccess "Order executed successfully!";
                   OutStJson result])
          | (Return Unbound, w) =>
              (Completed,
               out ++ (OutBot <$> w)
               ++ [OutStSuccess "Order executed successfully!";
                   OutStError (TextExn "Error executing order: "
                                 result_unbound)])
          | (Return (StopAfter message), w) =>
              (Stopped, out ++ (OutBot <$> w) ++ [OutStError (Text message)])
          | (Raise e, w) =>
              (Completed,
               out ++ (OutBot <$> w)
               ++ [OutStError (TextExn "Error executing order: " e)])
          end
      end
  else (Completed, []).

End App.

(** ** The logger of the bots *)

(** A handler of a logger, by where it writes. *)
Inductive handler : Type :=
  | FileHandler (filename : string)
  | StreamHandler.                      (* to sys.stdout *)

#[global] Instance handler_eq_dec : EqDecision handler.
Proof. solve_decision. Defined.


(** The logger set-up of [__init__] (lines 20-28 of [trading_bot.py], 14-22
    of [bot.py]) on the handlers of [logging.getLogger('BasicBot')], the
    one logger of that name in the process: each construction adds a file
    handler and a console handler of its own. *)
Definition add_handlers (logger : list handler) : list handler :=
  logger ++ [FileHandler "bot.log"; StreamHandler].

(** The records that the methods of a bot hand to the logger, in order. *)
Fixpoint log_records (t : list event) : list log_record :=
  match t with
  | [] => []
  | EvInfo r :: t' | EvError r :: t' => r :: log_records t'
  | _ :: t' => log_records t'
  end.

(** The records written to one destination: every handler of the logger
    handles every record (the logger's level is INFO, and the records are
    of level INFO or ERROR). *)
Definition written (logger : list handler) (destination : handler)
    (t : list event) : list log_record :=
  r ← log_records t;
  h ← filter (λ h, h = destination) logger;
  [r].

(** * Vocabulary of the statements *)

(** ** Runs and traces *)

(** A computation is fail-fast for an exchange [c] when each of its runs only
    extends the trace and, as soon as the exchange answers one of its
    requests with an exception, sends nothing more and ends by raising that
    exception. *)
Definition fail_fast (c : Client) {A} (m : M A) : Prop :=
  ∀ w, ∃ out t, m w = (out, w ++ t) ∧
    ∀ j p e, orders_of t !! j = Some p →
      c (length (orders_of w) + j)%nat p = Raise e →
      out = Raise e ∧ length (orders_of t) = S j.

(** ** The errors of the specification *)

(** The specification's construction errors are the [ValueError]s that
    [place_order] raises, told apart by their message. *)
Definition MissingPrice : exn := ValueError "Price required for LIMIT orders".
Definition MissingStopPrice : exn :=
  ValueError "Both stop_price and price required for STOP_LIMIT".
Definition UnsupportedKind (order_type : string) : exn :=
  ValueError ("Unsupported order type: " +:+ order_type).

(** ** The rule that [_adjust_precision] applies *)

(** The filter that the loop of [_adjust_precision] stops at: the first one
    of the wanted type. *)
Fixpoint applicable_filter (fs : list exchange_filter) (filter_type : string)
    : option exchange_filter :=
  match fs with
  | [] => None
  | f :: fs' =>
      if decide (filterType f = filter_type) then Some f
      else applicable_filter fs' filter_type
  end.

Definition applicable_rule (self : BasicBot) (symbol filter_type : string)
    : option exchange_filter :=
  applicable_filter (default [] (filters self !! upper symbol)) filter_type.

(** The field of a filter that holds the step for a filter type. *)
Definition step_field (f : exchange_filter) (filter_type : string)
    : option Decimal :=
  if decide (filter_type = "LOT_SIZE") then stepSize f else tickSize f.

(** ** The two halves of [place_order] *)

(** The request that [place_order] builds before it talks to the exchange
    (lines 49-91 of [trading_bot.py]), or the exception raised on the way. *)
Definition order_request (self : BasicBot) (symbol side order_type : string)
    (quantity : float) (price stop_price : option float) : outcome params :=
  let s := upper symbol in
  qty ← _adjust_precision self s quantity "LOT_SIZE";
  if decide (order_type = "MARKET") then
    Return {| req_symbol := s; req_side := upper side; req_type := "MARKET";
              req_quantity := qty; req_price := None; req_stopPrice := None;
              req_timeInForce := None |}
  else if decide (order_type = "LIMIT") then
    match price with
    | None => Raise (ValueError "Price required for LIMIT orders")
    | Some price =>
        pr ← _adjust_precision self s price "PRICE_FILTER";
        Return {| req_symbol := s; req_side := upper side;
                  req_type := "LIMIT"; req_quantity := qty;
                  req_price := Some pr; req_stopPrice := None;
                  req_timeInForce := Some "GTC" |}
    end
  else if decide (order_type = "STOP_LIMIT") then
    match price, stop_price with
    | Some price, Some stop_price =>
        pr ← _adjust_precision self s price "PRICE_FILTER";
        sp ← _adjust_precision self s stop_price "PRICE_FILTER";
        Return {| req_symbol := s; req_side := upper side;
                  req_type := "STOP"; req_quantity := qty;
                  req_price := Some pr; req_stopPrice := Some sp;
                  req_timeInForce := Some "GTC" |}
    | _, _ =>
        Raise (ValueError "Both stop_price and price required for STOP_LIMIT")
    end
  else Raise (ValueError ("Unsupported order type: " +:+ order_type)).

(** The request that [bot.py]'s [place_order] builds (lines 27-39). *)
Definition basic_order_request (symbol side order_type : string)
    (quantity : float) (price : option float) : outcome params :=
  if decide (upper order_type = "LIMIT") then
    match price with
    | None => Raise (ValueError "Price must be provided for LIMIT orders")
    | Some price =>
        Return {| req_symbol := upper symbol; req_side := upper side;
                  req_type := upper order_type; req_quantity := quantity;
                  req_price := Some price; req_stopPrice := None;
                  req_timeInForce := Some "GTC" |}
    end
  else
    Return {| req_symbol := upper symbol; req_side := upper side;
              req_type := upper order_type; req_quantity := quantity;
              req_price := None; req_stopPrice := None;
              req_timeInForce := None |}.

(** What the [except] clauses log for an exception. *)
Definition error_record (e : exn) : log_record :=
  match e with
  | BinanceAPIException status_code message => ApiError status_code message
  | _ => UnexpectedError e
  end.

(** The [try] block of [place_order] on a built request: the request is
    logged and sent, and the answer or the exception is logged. *)
Definition submit (c : Client) (order_type : string) (p : params) (w : world)
    : outcome response * world :=
  match c (length (orders_of w)) p with
  | Return r =>
      (Return r,
       w ++ [EvInfo (PlacingOrder order_type p); EvOrder p;
             EvInfo (OrderResponse r)])
  | Raise e =>
      (Raise e,
       w ++ [EvInfo (PlacingOrder order_type p); EvOrder p;
             EvError (error_record e)])
  end.

(** ** Example bots *)

(** An exchange that accepts every request and numbers its answers. *)
Definition accepting : Client := λ n p, Return {| orderId := Z.of_nat n |}.

(** An exchange that refuses its third request and accepts the others. *)
Definition insufficient_margin : exn :=
  BinanceAPIException (-2019) "Margin is insufficient.".
Definition failing_third : Client :=
  λ n p, if decide (n = 2%nat) then Raise insufficient_margin
         else Return {| orderId := Z.of_nat n |}.

(** Rules of one symbol: lot step 0.001, price tick 0.1. *)
Definition btc_filters : gmap string (list exchange_filter) :=
  {[ "BTCUSDT" :=
       [ {| filterType := "PRICE_FILTER"; stepSize := None;
            tickSize := Some (qc 1 10) |};
         {| filterType := "LOT_SIZE"; stepSize := Some (qc 1 1000);
            tickSize := None |} ] ]}.

Definition bot_ok : BasicBot :=
  {| client := accepting; filters := btc_filters |}.
Definition bot_failing_third : BasicBot :=
  {| client := failing_third; filters := btc_filters |}.
Definition basic_bot_ok : Basic.BasicBot := {| Basic.client := accepting |}.

(** One symbol with lot step 0.1. *)
Definition lot_tenth : exchange_filter :=
  {| filterType := "LOT_SIZE"; stepSize := Some (qc 1 10);
     tickSize := None |}.
Definition bot_tenth : BasicBot :=
  {| client := accepting; filters := {[ "BTCUSDT" := [lot_tenth] ]} |}.

(** One symbol with lot step 3. *)
Definition lot_three : exchange_filter :=
  {| filterType := "LOT_SIZE"; stepSize := Some (of_Z 3); tickSize := None |}.
Definition bot_lot_three : BasicBot :=
  {| client := accepting; filters := {[ "BTCUSDT" := [lot_three] ]} |}.

(** One symbol with price tick 50. *)
Definition tick_fifty : exchange_filter :=
  {| filterType := "PRICE_FILTER"; stepSize := None;
     tickSize := Some (of_Z 50) |}.
Definition bot_tick_fifty : BasicBot :=
  {| client := accepting; filters := {[ "BTCUSDT" := [tick_fifty] ]} |}.

(** One symbol whose lot step is zero. *)
Definition lot_zero : exchange_filter :=
  {| filterType := "LOT_SIZE"; stepSize := Some 0%Qc; tickSize := None |}.
Definition bot_zero_step : BasicBot :=
  {| client := accepting; filters := {[ "BTCUSDT" := [lot_zero] ]} |}.

(** ** The kernel's binary64 numbers, for comparison *)

(** The rational that a finite binary64 number denotes. *)
Definition Qc_of_spec (s : SpecFloat.spec_float) : option Qc :=
  match s with
  | SpecFloat.S754_zero _ => Some 0%Qc
  | SpecFloat.S754_finite sign m e =>
      Some ((if sign then - of_Z (Zpos m) else of_Z (Zpos m)) * pow 2 e)%Qc
  | _ => None
  end.

Definition kernel_value (x : PrimFloat.float) : option Qc :=
  Qc_of_spec (FloatOps.Prim2SF x).

(** A small integer as a binary64 number. *)
Definition kernel_int (n : Z) : PrimFloat.float :=
  PrimFloat.of_uint63 (Uint63.of_Z n).

(** Closed equalities between computed values are decided by evaluation. *)
Ltac by_compute := apply (bool_decide_unpack _); vm_compute; exact I.

(** ** Example exchanges *)

(** A symbol with a price filter and then two lot filters, of steps 0.1 and
    0.001. *)
Definition tick_tenth : exchange_filter :=
  {| filterType := "PRICE_FILTER"; stepSize := None;
     tickSize := Some (qc 1 10) |}.
Definition lot_thousandth : exchange_filter :=
  {| filterType := "LOT_SIZE"; stepSize := Some (qc 1 1000);
     tickSize := None |}.
Definition bot_two_lots : BasicBot :=
  {| client := accepting;
     filters := {[ "BTCUSDT" := [tick_tenth; lot_tenth; lot_thousandth] ]} |}.

(** An exchange info that lists "BTCUSDT" twice and one symbol in lower
    case. *)
Definition example_symbols : list symbol_info :=
  [ {| info_symbol := "BTCUSDT"; info_filters := [lot_tenth] |};
    {| info_symbol := "ethusdt"; info_filters := [lot_tenth] |};
    {| info_symbol := "BTCUSDT";
       info_filters := [tick_tenth; lot_thousandth] |} ].

(** A client that connects with any credentials, to the orders [c]. *)
Definition connecting (c : Client) : Binance :=
  λ api_key api_secret testnet,
    Return {| futures_exchange_info := Return example_symbols;
              session_orders := c |}.

(** A client whose connection is refused. *)
Definition invalid_key : exn := BinanceAPIException (-2015) "Invalid API-key".
Definition refusing : Binance :=
  λ api_key api_secret testnet, Raise invalid_key.

(** Arguments of the script of [trading_bot.py]: a TWAP of 1 in 5 slices
    over 0 seconds. *)
Definition twap_args : Main.Namespace :=
  {| Main.api_key := Some "key"; Main.api_secret := Some "secret";
     Main.symbol := "BTCUSDT"; Main.side := "BUY";
     Main.order_type := "TWAP"; Main.quantity := of_Z 1;
     Main.price := None; Main.stop_price := None;
     Main.duration := Some 0; Main.intervals := Some 5;
     Main.lower_price := None; Main.upper_price := None;
     Main.grids := None; Main.testnet := true |}.

(** The same without [--intervals]. *)
Definition twap_args_incomplete : Main.Namespace :=
  {| Main.api_key := Some "key"; Main.api_secret := Some "secret";
     Main.symbol := "BTCUSDT"; Main.side := "BUY";
     Main.order_type := "TWAP"; Main.quantity := of_Z 1;
     Main.price := None; Main.stop_price := None;
     Main.duration := Some 0; Main.intervals := None;
     Main.lower_price := None; Main.upper_price := None;
     Main.grids := None; Main.testnet := true |}.

(** A filled form of the page of [app.py]: a TWAP of 1 in 4 slices over 10
    seconds. *)
Definition twap_form : App.Form :=
  {| App.api_key := "key"; App.api_secret := "secret"; App.testnet := true;
     App.symbol := "btcusdt"; App.side := "SELL"; App.order_type := "TWAP";
     App.quantity := of_Z 1;
     App.price_input := 0%Qc; App.stop_price_input := 0%Qc;
     App.duration_input := 10; App.intervals_input := 4;
     App.lower_price_input := 0%Qc; App.upper_price_input := 0%Qc;
     App.grids_input := 1; App.execute := true |}.

(** A LIMIT order at the price that the number input starts with. *)
Definition limit_form : App.Form :=
  {| App.api_key := "key"; App.api_secret := "secret"; App.testnet := true;
     App.symbol := "btcusdt"; App.side := "BUY"; App.order_type := "LIMIT";
     App.quantity := of_Z 1;
     App.price_input := 0%Qc; App.stop_price_input := 0%Qc;
     App.duration_input := 1; App.intervals_input := 1;
     App.lower_price_input := 0%Qc; App.upper_price_input := 0%Qc;
     App.grids_input := 1; App.execute := true |}.

(** Membership in an explicit list of other values is absurd. *)
Ltac not_listed H :=
  repeat (apply elem_of_cons in H as [H|H]; [discriminate H|]);
  apply elem_of_nil in H; contradiction.

(** ** The log as a record of the orders *)

(** The requests that the log announces ("Placing ... order"), in order. *)
Fixpoint announced (t : list event) : list params :=
  match t with
  | [] => []
  | EvInfo (PlacingOrder _ p) :: t' => p :: announced t'
  | _ :: t' => announced t'
  end.

(** The number of log records that report the end of a request: an answer
    of the exchange or an error. *)
Fixpoint reported (t : list event) : nat :=
  match t with
  | [] => O
  | EvInfo (OrderResponse _) :: t' | EvError _ :: t' => S (reported t')
  | _ :: t' => reported t'
  end.

(** A computation keeps the log complete when each of its runs only extends
    the trace, announces in the log exactly the requests that it sends, in
    the same order, and reports the end of each of them. *)
Definition keeps_log {A} (m : M A) : Prop :=
  ∀ w, ∃ out t, m w = (out, w ++ t)
    ∧ announced t = orders_of t
    ∧ reported t = length (orders_of t).

(** * Properties *)

(** ** The trace projections *)

Lemma orders_of_app (t1 t2 : list event) :
  orders_of (t1 ++ t2) = orders_of t1 ++ orders_of t2.
Proof.
  induction t1 as [|e t1 IH]; [reflexivity|].
  destruct e; simpl; rewrite IH; reflexivity.
Qed.

Lemma actions_of_app (t1 t2 : list event) :
  actions_of (t1 ++ t2) = actions_of t1 ++ actions_of t2.
Proof.
  induction t1 as [|e t1 IH]; [reflexivity|].
  destruct e; simpl; rewrite IH; reflexivity.
Qed.

Lemma sleeps_of_actions (t : list event) : sleeps_of (actions_of t) = sleeps_of t.
Proof.
  induction t as [|e t IH]; [reflexivity|].
  destruct e; simpl; rewrite ?IH; reflexivity.
Qed.


Lemma sleeps_of_orders (ps : list params) : sleeps_of (EvOrder <$> ps) = [].
Proof. induction ps as [|p ps IH]; [reflexivity | exact IH]. Qed.

Lemma orders_of_info (w : world) (r : log_record) :
  orders_of (w ++ [EvInfo r]) = orders_of w.
Proof. rewrite orders_of_app. apply app_nil_r. Qed.

(** ** Equations of the effects *)

Lemma bind_eq {A B} (m : M A) (k : A → M B) (w : world) :
  (m ≫= k) w = match m w with
               | (Return a, w') => k a w'
               | (Raise e, w') => (Raise e, w')
               end.
Proof. reflexivity. Qed.

Lemma mret_eq {A} (a : A) (w : world) : (mret a : M A) w = (Return a, w).
Proof. reflexivity. Qed.

Lemma lift_eq {A} (o : outcome A) (w : world) : lift o w = (o, w).
Proof. reflexivity. Qed.

Lemma logger_info_eq (r : log_record) (w : world) :
  logger_info r w = (Return tt, w ++ [EvInfo r]).
Proof. reflexivity. Qed.

Lemma sleep_eq (d : float) (w : world) :
  - 2 ^ 63 ≤ sleep_ns d < 2 ^ 63 → ¬ (d < 0)%Qc →
  sleep d w = (Return tt, w ++ [EvSleep d]).
Proof.
  intros Hns H. unfold sleep. rewrite decide_True by exact Hns.
  rewrite decide_False by exact H. reflexivity.
Qed.

(** ** What [place_order] does, in one equation *)

Lemma try_block_eq (c : Client) (order_type : string) (p : params) (w : world) :
  try_except
    (logger_info (PlacingOrder order_type p);;
     result ← futures_create_order c p;
     logger_info (OrderResponse result);;
     mret result)
    (λ e, match e with
          | BinanceAPIException status_code message =>
              logger_error (ApiError status_code message);; raise e
          | _ => logger_error (UnexpectedError e);; raise e
          end) w
  = submit c order_type p w.
Proof.
  unfold try_except, submit, mbind, M_bind, bind, logger_info, logger_error,
    emit, futures_create_order, mret, M_ret, ret, raise.
  rewrite orders_of_app; simpl. rewrite app_nil_r.
  destruct (c (length (orders_of w)) p) as [r|e].
  - rewrite <- !app_assoc. reflexivity.
  - destruct e; rewrite <- !app_assoc; reflexivity.
Qed.

Lemma place_order_eq self symbol side order_type quantity price stop_price w :
  place_order self symbol side order_type quantity price stop_price w =
  match order_request self symbol side order_type quantity price stop_price
  with
  | Return p => submit (client self) order_type p w
  | Raise e => (Raise e, w)
  end.
Proof.
  unfold place_order, order_request.
  rewrite bind_eq, lift_eq.
  destruct (_adjust_precision self (upper symbol) quantity "LOT_SIZE")
    as [qty|e]; [|reflexivity].
  rewrite bind_eq. cbn [mbind outcome_bind obind].
  repeat case_decide.
  - rewrite mret_eq. apply try_block_eq.
  - destruct price as [price|]; [|reflexivity].
    rewrite bind_eq, lift_eq.
    destruct (_adjust_precision self (upper symbol) price "PRICE_FILTER")
      as [pr|e]; [|reflexivity].
    rewrite mret_eq. apply try_block_eq.
  - destruct price as [price|]; [|reflexivity].
    destruct stop_price as [stop_price|]; [|reflexivity].
    rewrite bind_eq, lift_eq.
    destruct (_adjust_precision self (upper symbol) price "PRICE_FILTER")
      as [pr|e]; [|reflexivity].
    rewrite bind_eq, lift_eq.
    destruct (_adjust_precision self (upper symbol) stop_price "PRICE_FILTER")
      as [sp|e]; [|reflexivity].
    rewrite mret_eq. apply try_block_eq.
  - reflexivity.
Qed.

Lemma basic_place_order_eq self symbol side order_type quantity price w :
  Basic.place_order self symbol side order_type quantity price w =
  match basic_order_request symbol side order_type quantity price with
  | Return p => submit (Basic.client self) order_type p w
  | Raise e => (Raise e, w)
  end.
Proof.
  unfold Basic.place_order, basic_order_request.
  rewrite bind_eq. case_decide.
  - destruct price as [price|]; [|reflexivity].
    rewrite mret_eq. apply try_block_eq.
  - rewrite mret_eq. apply try_block_eq.
Qed.

(** An accepted request: its three events and the exchange's answer. *)
Lemma place_order_accepted self symbol side order_type quantity price
    stop_price p r w :
  order_request self symbol side order_type quantity price stop_price
    = Return p →
  client self (length (orders_of w)) p = Return r →
  place_order self symbol side order_type quantity price stop_price w
  = (Return r, w ++ [EvInfo (PlacingOrder order_type p); EvOrder p;
                     EvInfo (OrderResponse r)]).
Proof.
  intros Hp Hr. rewrite place_order_eq, Hp. unfold submit. rewrite Hr.
  reflexivity.
Qed.

(** What a run of [place_order] sends: the built request, if there is one. *)
Lemma place_order_trace self symbol side order_type quantity price stop_price
    w :
  ∃ out t,
    place_order self symbol side order_type quantity price stop_price w
      = (out, w ++ t)
    ∧ orders_of t
      = match order_request self symbol side order_type quantity price
                stop_price with
        | Return p => [p]
        | Raise _ => []
        end.
Proof.
  rewrite place_order_eq.
  destruct (order_request self symbol side order_type quantity price
              stop_price) as [p|e].
  - unfold submit.
    destruct (client self (length (orders_of w)) p) as [r|e];
      eexists _, _; split; reflexivity.
  - exists (Raise e), []. rewrite app_nil_r. split; reflexivity.
Qed.

Lemma order_request_market self symbol side quantity price stop_price qty :
  _adjust_precision self (upper symbol) quantity "LOT_SIZE" = Return qty →
  order_request self symbol side "MARKET" quantity price stop_price
  = Return {| req_symbol := upper symbol; req_side := upper side;
              req_type := "MARKET"; req_quantity := qty; req_price := None;
              req_stopPrice := None; req_timeInForce := None |}.
Proof. intros H. unfold order_request. rewrite H. reflexivity. Qed.

Lemma order_request_limit self symbol side quantity price stop_price qty pr :
  _adjust_precision self (upper symbol) quantity "LOT_SIZE" = Return qty →
  _adjust_precision self (upper symbol) price "PRICE_FILTER" = Return pr →
  order_request self symbol side "LIMIT" quantity (Some price) stop_price
  = Return {| req_symbol := upper symbol; req_side := upper side;
              req_type := "LIMIT"; req_quantity := qty; req_price := Some pr;
              req_stopPrice := None; req_timeInForce := Some "GTC" |}.
Proof.
  intros H1 H2. unfold order_request. rewrite H1. simpl. rewrite H2.
  reflexivity.
Qed.


(** ** Fail-fast computations *)

Section FailFast.

Variable c : Client.

(** Computations that send no request are fail-fast. *)
Lemma fail_fast_quiet {A} (m : M A) :
  (∀ w, ∃ out t, m w = (out, w ++ t) ∧ orders_of t = []) → fail_fast c m.
Proof.
  intros H w. destruct (H w) as (out & t & Hrun & Hq).
  exists out, t. split; [exact Hrun|].
  intros j p e Hj. rewrite Hq in Hj. discriminate.
Qed.

Lemma fail_fast_ret {A} (a : A) : fail_fast c (mret a).
Proof.
  apply fail_fast_quiet. intros w. exists (Return a), [].
  rewrite app_nil_r. split; reflexivity.
Qed.

Lemma fail_fast_lift {A} (o : outcome A) : fail_fast c (lift o).
Proof.
  apply fail_fast_quiet. intros w. exists o, [].
  rewrite app_nil_r. split; reflexivity.
Qed.

Lemma fail_fast_info (r : log_record) : fail_fast c (logger_info r).
Proof.
  apply fail_fast_quiet. intros w. exists (Return tt), [EvInfo r].
  split; reflexivity.
Qed.

Lemma fail_fast_sleep (d : float) : fail_fast c (sleep d).
Proof.
  apply fail_fast_quiet. intros w. unfold sleep. repeat case_decide.
  - eexists _, []. rewrite app_nil_r. split; reflexivity.
  - exists (Return tt), [EvSleep d]. split; reflexivity.
  - eexists _, []. rewrite app_nil_r. split; reflexivity.
Qed.

Lemma fail_fast_bind {A B} (m : M A) (k : A → M B) :
  fail_fast c m → (∀ a, fail_fast c (k a)) → fail_fast c (m ≫= k).
Proof.
  intros Hm Hk w. rewrite bind_eq.
  destruct (Hm w) as (out1 & t1 & Hrun1 & H1). rewrite Hrun1.
  destruct out1 as [a|e1].
  - destruct (Hk a (w ++ t1)) as (out2 & t2 & Hrun2 & H2).
    exists out2, (t1 ++ t2). rewrite Hrun2, app_assoc. split; [reflexivity|].
    intros j p e Hj Hc. rewrite orders_of_app in Hj.
    destruct (decide (j < length (orders_of t1))%nat) as [Hlt|Hge].
    + rewrite lookup_app_l in Hj by exact Hlt.
      destruct (H1 j p e Hj Hc) as [Habs _]. discriminate.
    + rewrite lookup_app_r in Hj by lia.
      rewrite orders_of_app, length_app in H2.
      destruct (H2 (j - length (orders_of t1))%nat p e Hj) as [-> Hlen].
      * replace (length (orders_of w) + length (orders_of t1)
                 + (j - length (orders_of t1)))%nat
          with (length (orders_of w) + j)%nat by lia.
        exact Hc.
      * split; [reflexivity|]. rewrite orders_of_app, length_app. lia.
  - exists (Raise e1), t1. split; [reflexivity|].
    intros j p e Hj Hc. destruct (H1 j p e Hj Hc) as [Heq Hlen].
    split; [congruence | exact Hlen].
Qed.

Lemma fail_fast_for_each {A S} (xs : list A) (body : A → S → M S) (s : S) :
  (∀ x s', fail_fast c (body x s')) → fail_fast c (for_each xs body s).
Proof.
  intros Hbody. revert s.
  induction xs as [|x xs IH]; intros s; simpl.
  - apply fail_fast_ret.
  - apply fail_fast_bind; [apply Hbody | exact IH].
Qed.

(** One request: whatever the exchange answers, nothing follows it. *)
Lemma fail_fast_submit (order_type : string) (p : params) :
  fail_fast c (submit c order_type p).
Proof.
  intros w. unfold submit.
  destruct (c (length (orders_of w)) p) as [r|e0] eqn:Hans.
  - eexists _, _. split; [reflexivity|]. simpl.
    intros [|j] q e Hj Hc; [|destruct j; discriminate].
    injection Hj as <-. rewrite Nat.add_0_r in Hc. congruence.
  - eexists _, _. split; [reflexivity|]. simpl.
    intros [|j] q e Hj Hc; [|destruct j; discriminate].
    injection Hj as <-. rewrite Nat.add_0_r in Hc.
    split; [congruence | reflexivity].
Qed.

End FailFast.

Lemma fail_fast_place_order self symbol side order_type quantity price
    stop_price :
  fail_fast (client self)
    (place_order self symbol side order_type quantity price stop_price).
Proof.
  intros w. rewrite place_order_eq.
  destruct (order_request self symbol side order_type quantity price
              stop_price) as [p|e].
  - apply fail_fast_submit.
  - exists (Raise e), []. rewrite app_nil_r. split; [reflexivity|].
    intros j p e' Hj. discriminate.
Qed.

Lemma fail_fast_execute_twap self symbol side total_qty duration intervals :
  fail_fast (client self)
    (execute_twap self symbol side total_qty duration intervals).
Proof.
  unfold execute_twap.
  apply fail_fast_bind; [apply fail_fast_lift | intros slice_qty].
  apply fail_fast_bind; [apply fail_fast_lift | intros delay].
  apply fail_fast_bind; [apply fail_fast_info | intros _].
  apply fail_fast_bind; [|intros results; apply fail_fast_ret].
  apply fail_fast_for_each. intros i results.
  apply fail_fast_bind; [apply fail_fast_place_order | intros res].
  apply fail_fast_bind; [|intros _; apply fail_fast_ret].
  case_decide; [apply fail_fast_sleep | apply fail_fast_ret].
Qed.

Lemma fail_fast_execute_grid self symbol side total_qty lower_price
    upper_price grids :
  fail_fast (client self)
    (execute_grid self symbol side total_qty lower_price upper_price grids).
Proof.
  unfold execute_grid.
  apply fail_fast_bind; [apply fail_fast_lift | intros prices].
  apply fail_fast_bind; [apply fail_fast_lift | intros qty_per_order].
  apply fail_fast_bind; [apply fail_fast_info | intros _].
  apply fail_fast_bind; [|intros results; apply fail_fast_ret].
  apply fail_fast_for_each. intros price results.
  apply fail_fast_bind; [apply fail_fast_place_order | intros res].
  apply fail_fast_ret.
Qed.

(** ** Successful loops *)

Section TwapLoop.

Variables (self : BasicBot) (symbol side : string) (slice_qty delay : float).
Variables (intervals : Z) (p : params).
Hypothesis Hreq :
  order_request self symbol side "MARKET" slice_qty None None = Return p.
Hypothesis Hsleep : ∀ w, sleep delay w = (Return tt, w ++ [EvSleep delay]).

(** The loop of [execute_twap] when the exchange accepts every slice: one
    request per index, a pause after each index but the last. *)
Lemma twap_loop_accepted (indices : list Z) (results : list response)
    (w : world) :
  (∀ i, (i < length indices)%nat →
        ∃ r, client self (length (orders_of w) + i)%nat p = Return r) →
  ∃ rs t,
    for_each indices (λ i results,
      res ← place_order self symbol side "MARKET" slice_qty None None;
      let results := results ++ [res] in
      (if decide (i < intervals - 1) then sleep delay else mret tt);;
      mret results) results w
    = (Return (results ++ rs), w ++ t)
    ∧ length rs = length indices
    ∧ (∀ i r, rs !! i = Some r →
              client self (length (orders_of w) + i)%nat p = Return r)
    ∧ actions_of t
      = flat_map (λ i, EvOrder p ::
                       if decide (i < intervals - 1) then [EvSleep delay]
                       else []) indices.
Proof.
  revert results w. induction indices as [|i indices IH]; intros results w Hc.
  - exists [], []. simpl. rewrite !app_nil_r.
    split; [reflexivity|]. split; [reflexivity|]. split; [|reflexivity].
    intros i r Hi. discriminate.
  - destruct (Hc 0%nat) as [r Hr]; [simpl; lia|].
    rewrite Nat.add_0_r in Hr.
    pose (t1 := [EvInfo (PlacingOrder "MARKET" p); EvOrder p;
                 EvInfo (OrderResponse r)]).
    pose (t2 := if decide (i < intervals - 1) then [EvSleep delay] else []).
    assert (Hlen1 : length (orders_of (w ++ t1 ++ t2))
                    = S (length (orders_of w))).
    { rewrite !orders_of_app, !length_app. unfold t2.
      destruct (decide (i < intervals - 1)); simpl; lia. }
    destruct (IH (results ++ [r]) (w ++ t1 ++ t2))
      as (rs & t & Hrun & Hlen & Hans & Hact).
    { intros j Hj. rewrite Hlen1.
      destruct (Hc (S j)) as [r' Hr']; [simpl; lia|].
      exists r'. rewrite <- Hr'. f_equal. lia. }
    exists (r :: rs), (t1 ++ t2 ++ t).
    split; [|split; [simpl; lia | split]].
    + simpl for_each. rewrite bind_eq, bind_eq.
      rewrite (place_order_accepted _ _ _ _ _ _ _ p r w Hreq Hr).
      fold t1. rewrite bind_eq. unfold t2 in Hrun.
      destruct (decide (i < intervals - 1)) as [Hi|Hi].
      * rewrite Hsleep. rewrite mret_eq.
        rewrite <- app_assoc, Hrun.
        rewrite <- !app_assoc. reflexivity.
      * rewrite !mret_eq. rewrite app_nil_r in Hrun. rewrite Hrun.
        rewrite <- !app_assoc. reflexivity.
    + intros [|j] r' Hj; simpl in Hj.
      * injection Hj as <-. rewrite Nat.add_0_r. exact Hr.
      * specialize (Hans j r' Hj). rewrite Hlen1 in Hans.
        rewrite <- Hans. f_equal. lia.
    + rewrite !actions_of_app, Hact. unfold t1, t2. simpl.
      destruct (decide (i < intervals - 1)); reflexivity.
Qed.

End TwapLoop.

Section GridLoop.

Variables (self : BasicBot) (symbol side : string) (qty_per_order : float).

(** The loop of [execute_grid] when the exchange accepts every level: one
    request per price, nothing between them. *)
Lemma grid_loop_accepted (prices : list float) (ps : list params)
    (results : list response) (w : world) :
  Forall2 (λ price p,
             order_request self symbol side "LIMIT" qty_per_order
               (Some price) None = Return p) prices ps →
  (∀ i p, ps !! i = Some p →
          ∃ r, client self (length (orders_of w) + i)%nat p = Return r) →
  ∃ rs t,
    for_each prices (λ price results,
      res ← place_order self symbol side "LIMIT" qty_per_order
              (Some price) None;
      mret (results ++ [res])) results w
    = (Return (results ++ rs), w ++ t)
    ∧ length rs = length ps
    ∧ (∀ i p r, ps !! i = Some p → rs !! i = Some r →
                client self (length (orders_of w) + i)%nat p = Return r)
    ∧ actions_of t = EvOrder <$> ps.
Proof.
  intros Hreq. revert results w.
  induction Hreq as [|price p prices ps Hp Hreq IH]; intros results w Hc.
  - exists [], []. simpl. rewrite !app_nil_r.
    split; [reflexivity|]. split; [reflexivity|]. split; [|reflexivity].
    intros i p r Hi. discriminate.
  - destruct (Hc 0%nat p eq_refl) as [r Hr]. rewrite Nat.add_0_r in Hr.
    pose (t1 := [EvInfo (PlacingOrder "LIMIT" p); EvOrder p;
                 EvInfo (OrderResponse r)]).
    assert (Hlen1 : length (orders_of (w ++ t1)) = S (length (orders_of w))).
    { rewrite orders_of_app, length_app. simpl. lia. }
    destruct (IH (results ++ [r]) (w ++ t1))
      as (rs & t & Hrun & Hlen & Hans & Hact).
    { intros j q Hj. rewrite Hlen1.
      destruct (Hc (S j) q Hj) as [r' Hr'].
      exists r'. rewrite <- Hr'. f_equal. lia. }
    exists (r :: rs), (t1 ++ t).
    split; [|split; [simpl; lia | split]].
    + simpl for_each. rewrite bind_eq, bind_eq.
      rewrite (place_order_accepted _ _ _ _ _ _ _ p r w Hp Hr).
      fold t1. rewrite mret_eq, Hrun, <- !app_assoc. reflexivity.
    + intros [|j] q r' Hq Hj; simpl in Hq, Hj.
      * injection Hq as <-. injection Hj as <-.
        rewrite Nat.add_0_r. exact Hr.
      * specialize (Hans j q r' Hq Hj). rewrite Hlen1 in Hans.
        rewrite <- Hans. f_equal. lia.
    + rewrite actions_of_app, Hact. reflexivity.
Qed.

End GridLoop.

(** ** Numbers *)

Lemma round_float_0 : round_float 0 = 0%Qc.
Proof. by_compute. Qed.

Lemma float_of_int_0 : float_of_int 0 = 0%Qc.
Proof. by_compute. Qed.

Lemma float_of_int_1 : float_of_int 1 = 1%Qc.
Proof. by_compute. Qed.

Lemma finite_0 : finite 0.
Proof. unfold finite. by_compute. Qed.

Lemma finite_1 : finite 1.
Proof. unfold finite. by_compute. Qed.

Lemma truediv_float_int_0 (x : float) :
  truediv_float_int x 0 = Raise ZeroDivisionError.
Proof.
  unfold truediv_float_int, fdiv. rewrite float_of_int_0.
  rewrite (decide_True (P := finite 0)) by exact finite_0.
  case_decide; [reflexivity | congruence].
Qed.

Lemma truediv_float_int_1 (x : float) :
  is_float x → truediv_float_int x 1 = Return x.
Proof.
  intros Hx. unfold truediv_float_int, fdiv. rewrite float_of_int_1.
  rewrite (decide_True (P := finite 1)) by exact finite_1.
  destruct (decide _) as [H|_]; [discriminate H|].
  rewrite (right_id 1%Qc Qcdiv). rewrite Hx. reflexivity.
Qed.

Lemma linspace_0 (start stop : float) : linspace start stop 0 = Return [].
Proof. reflexivity. Qed.

Lemma linspace_1 (start stop : float) :
  is_float start → linspace start stop 1 = Return [start].
Proof.
  intros Hs. unfold linspace.
  rewrite (decide_False (P := 1 < 0)) by lia.
  rewrite (decide_False (P := 0 < 1 - 1)) by lia.
  rewrite (decide_False (P := 1 < 1)) by lia.
  change (range 1) with [0]. cbn [fmap list_fmap].
  unfold fmul, fadd. rewrite float_of_int_0, Qcmult_0_l, round_float_0.
  rewrite Qcplus_0_l, Hs. reflexivity.
Qed.

Lemma Qc_floor_spec (x : Qc) :
  (of_Z (Qc_floor x) ≤ x)%Qc ∧ (x < of_Z (Qc_floor x) + 1)%Qc.
Proof.
  split.
  - unfold Qcle, of_Z, Qc_floor. simpl. apply Qfloor_le.
  - rewrite <- Z2Qc_inj_1. unfold of_Z. rewrite <- Z2Qc_inj_add.
    unfold Qclt, Qc_floor. simpl. apply Qlt_floor.
Qed.

Lemma Qc_floor_greatest (m : Z) (x : Qc) :
  (of_Z m ≤ x)%Qc → m ≤ Qc_floor x.
Proof.
  intros H. unfold Qcle, of_Z in H. simpl in H.
  rewrite <- (Qfloor_Z m). apply Qfloor_resp_le. exact H.
Qed.

Lemma Qc_floor_nonneg (x : Qc) : (0 ≤ x)%Qc → 0 ≤ Qc_floor x.
Proof. intros H. apply Qc_floor_greatest. exact H. Qed.

Lemma Qcdiv_nonneg (x y : Qc) : (0 ≤ x)%Qc → (0 < y)%Qc → (0 ≤ x / y)%Qc.
Proof.
  intros Hx Hy. unfold Qcdiv. apply Qcmult_nonneg_nonneg; [exact Hx|].
  apply Qclt_le_weak, Qcinv_pos, Hy.
Qed.

Lemma Qcdiv_mult_cancel (x y : Qc) : (0 < y)%Qc → (x / y * y)%Qc = x.
Proof.
  intros Hy. rewrite Qcmult_comm. apply Qcmult_div_r.
  intros ->. exact (Qclt_not_eq _ _ Hy eq_refl).
Qed.

(** [floor (value / step) * step] is the largest multiple of [step] that
    does not exceed [value]. *)
Lemma floor_multiple_bounds (value step : Qc) :
  (0 < step)%Qc →
  let k := Qc_floor (value / step) in
  (of_Z k * step ≤ value)%Qc ∧ (value - of_Z k * step < step)%Qc
  ∧ ∀ m : Z, (of_Z m * step ≤ value)%Qc → (of_Z m * step ≤ of_Z k * step)%Qc.
Proof.
  intros Hs k.
  destruct (Qc_floor_spec (value / step)) as [Hlo Hhi]. fold k in Hlo, Hhi.
  split; [|split].
  - pose proof (proj1 (Qcmult_le_mono_pos_r (of_Z k) (value / step) step Hs)
                  Hlo) as H.
    rewrite Qcdiv_mult_cancel in H by exact Hs. exact H.
  - apply (Qcmult_lt_compat_r _ _ step Hs) in Hhi.
    rewrite Qcdiv_mult_cancel in Hhi by exact Hs.
    rewrite Qcmult_plus_distr_l, Qcmult_1_l in Hhi.
    apply (Qcplus_lt_mono_r _ _ (of_Z k * step)).
    replace (value - of_Z k * step + of_Z k * step)%Qc with value by ring.
    rewrite Qcplus_comm. exact Hhi.
  - intros m Hm. apply Qcmult_le_mono_pos_r; [exact Hs|].
    unfold of_Z. apply (proj1 (Z2Qc_inj_le m k)). apply Qc_floor_greatest.
    apply (Qcmult_lt_0_le_reg_r _ _ step Hs).
    rewrite Qcdiv_mult_cancel by exact Hs. exact Hm.
Qed.

Lemma Qc_this_mult_Z (k : Z) (x : Qc) :
  (this (of_Z k * x)%Qc == inject_Z k * this x)%Q.
Proof. simpl. apply Qred_correct. Qed.

(** ** The float model and the kernel's binary64 numbers

    Division, multiplication and addition of the kernel's floats give the
    numbers that the model computes by rounding the exact result. *)

Example round_float_div_3_10 :
  kernel_value (PrimFloat.div (kernel_int 3) (kernel_int 10))
  = Some (round_float (qc 3 10)).
Proof. unfold kernel_value, kernel_int. by_compute. Qed.

Example round_float_div_24_10 :
  kernel_value (PrimFloat.div (kernel_int 24) (kernel_int 10))
  = Some (round_float (qc 24 10)).
Proof. unfold kernel_value, kernel_int. by_compute. Qed.

Example round_float_div_23_10 :
  kernel_value (PrimFloat.div (kernel_int 23) (kernel_int 10))
  = Some (round_float (qc 23 10)).
Proof. unfold kernel_value, kernel_int. by_compute. Qed.

Example round_float_div_1_3 :
  kernel_value (PrimFloat.div (kernel_int 1) (kernel_int 3))
  = Some (round_float (qc 1 3)).
Proof. unfold kernel_value, kernel_int. by_compute. Qed.

Example round_float_mul_1e20_1e20 :
  let ten_10 := kernel_int 10000000000 in
  let ten_20 := PrimFloat.mul ten_10 ten_10 in
  kernel_value ten_20 = Some (pow 10 20)
  ∧ kernel_value (PrimFloat.mul ten_20 ten_20) = Some (round_float (pow 10 40)).
Proof. unfold kernel_value, kernel_int. cbv zeta. split; by_compute. Qed.

Example round_float_linspace_step :
  kernel_value
    (PrimFloat.add
       (PrimFloat.mul (kernel_int 3)
          (PrimFloat.div (PrimFloat.sub (kernel_int 200) (kernel_int 100))
             (kernel_int 4)))
       (kernel_int 100))
  = Some (fadd (fmul (float_of_int 3)
                  (round_float (fsub (of_Z 200) (of_Z 100) / float_of_int 4)))
            (of_Z 100)).
Proof. unfold kernel_value, kernel_int. by_compute. Qed.

(** ** Powers *)

Lemma Qc_lt_Q2Qc (p q : Q) : (Q2Qc p < Q2Qc q)%Qc ↔ (p < q)%Q.
Proof. unfold Qclt. simpl. rewrite !Qred_correct. reflexivity. Qed.

Lemma Qc_le_Q2Qc (p q : Q) : (Q2Qc p ≤ Q2Qc q)%Qc ↔ (p <= q)%Q.
Proof. unfold Qcle. simpl. rewrite !Qred_correct. reflexivity. Qed.

Lemma of_Z_Q2Qc (n : Z) : of_Z n = Q2Qc (inject_Z n).
Proof. apply Qc_is_canon. simpl. rewrite Qred_correct. reflexivity. Qed.

Lemma pow_pos (b e : Z) : 0 < b → (0 < pow b e)%Qc.
Proof.
  intros Hb. unfold pow. apply Qc_lt_Q2Qc. apply Qpower_0_lt.
  unfold Qlt. simpl. lia.
Qed.

Lemma pow_add (b n m : Z) : 0 < b → pow b (n + m) = (pow b n * pow b m)%Qc.
Proof.
  intros Hb. unfold pow. apply Qc_is_canon. simpl.
  rewrite !Qred_correct. apply Qpower_plus.
  unfold Qeq. simpl. lia.
Qed.

Lemma pow_of_Z (b n : Z) : 0 ≤ n → pow b n = of_Z (b ^ n).
Proof.
  intros Hn. unfold pow. rewrite of_Z_Q2Qc. apply Q2Qc_eq_iff.
  symmetry. apply Zpower_Qpower. exact Hn.
Qed.

Lemma pow_lt_inv (b n m : Z) : 1 < b → (pow b n < pow b m)%Qc → n < m.
Proof.
  intros Hb H. unfold pow in H. apply (proj1 (Qc_lt_Q2Qc _ _)) in H.
  apply (Qpower_lt_compat_l_inv _ _ _ H). unfold Qlt. simpl. lia.
Qed.

Lemma of_Z_le (n m : Z) : n ≤ m ↔ (of_Z n ≤ of_Z m)%Qc.
Proof. apply Z2Qc_inj_le. Qed.

Lemma of_Z_lt (n m : Z) : n < m ↔ (of_Z n < of_Z m)%Qc.
Proof. apply Z2Qc_inj_lt. Qed.

(** ** Logarithms *)

Lemma Zlog_aux_spec (fuel : nat) (b n : Z) :
  2 ≤ b → 0 < n → n < 2 ^ (Z.of_nat fuel + 1) →
  0 ≤ Zlog_aux fuel b n
  ∧ b ^ Zlog_aux fuel b n ≤ n < b ^ (Zlog_aux fuel b n + 1).
Proof.
  intros Hb. revert n. induction fuel as [|fuel IH]; intros n Hn Hlt.
  - simpl in *. assert (n = 1) as -> by lia.
    split; [lia|]. rewrite Z.pow_0_r, Z.pow_1_r. lia.
  - cbn [Zlog_aux]. destruct (Z.ltb_spec n b) as [Hnb|Hnb].
    + split; [lia|]. rewrite Z.pow_0_r, Z.pow_1_r. lia.
    + assert (Hq : 0 < n / b) by (apply Z.div_str_pos; lia).
      assert (Hq2 : n / b < 2 ^ (Z.of_nat fuel + 1)).
      { apply Z.div_lt_upper_bound; [lia|].
        replace (Z.of_nat (S fuel) + 1) with (Z.of_nat fuel + 1 + 1) in Hlt
          by lia.
        rewrite (Z.pow_add_r _ _ 1) in Hlt by lia.
        assert (0 < 2 ^ (Z.of_nat fuel + 1)) by (apply Z.pow_pos_nonneg; lia).
        nia. }
      destruct (IH (n / b) Hq Hq2) as (H0 & Hlo & Hhi).
      set (L := Zlog_aux fuel b (n / b)) in *.
      split; [lia|].
      replace (1 + L + 1) with (L + 1 + 1) by lia.
      replace (1 + L) with (L + 1) by lia.
      rewrite (Z.pow_add_r b (L + 1) 1) by lia.
      rewrite (Z.pow_add_r b L 1) in * by lia.
      rewrite Z.pow_1_r in *.
      pose proof (Z.mul_div_le n b ltac:(lia)).
      pose proof (Z.mul_succ_div_gt n b ltac:(lia)).
      nia.
Qed.

Lemma Zlog_spec (b n : Z) :
  2 ≤ b → 0 < n →
  0 ≤ Zlog b n ∧ b ^ Zlog b n ≤ n < b ^ (Zlog b n + 1).
Proof.
  intros Hb Hn. unfold Zlog. apply Zlog_aux_spec; [exact Hb | exact Hn |].
  rewrite Z2Nat.id by apply Z.log2_nonneg.
  apply Z.log2_spec. exact Hn.
Qed.

Lemma Qc_num_den (x : Qc) :
  (x * of_Z (Zpos (Qden x)))%Qc = of_Z (Qnum x).
Proof.
  apply Qc_is_canon. simpl. rewrite Qred_correct.
  destruct x as [[n d] Hc]. simpl. unfold Qeq. simpl. lia.
Qed.

Lemma Qc_num_pos (x : Qc) : (0 < x)%Qc → 0 < Qnum x.
Proof.
  destruct x as [[n d] Hc]. unfold Qclt, Qlt. simpl. lia.
Qed.

Lemma floor_log_spec (b : Z) (x : Qc) :
  2 ≤ b → (0 < x)%Qc →
  (pow b (floor_log b x) ≤ x)%Qc ∧ (x < pow b (floor_log b x + 1))%Qc.
Proof.
  intros Hb Hx.
  pose proof (Qc_num_pos x Hx) as Hn.
  destruct (Zlog_spec b (Qnum x) Hb Hn) as (Hn0 & Hnlo & Hnhi).
  destruct (Zlog_spec b (Zpos (Qden x)) Hb ltac:(lia)) as (Hd0 & Hdlo & Hdhi).
  set (Ln := Zlog b (Qnum x)) in *.
  set (Ld := Zlog b (Zpos (Qden x))) in *.
  pose proof (Qc_num_den x) as Hnd.
  assert (Hdpos : (0 < of_Z (Zpos (Qden x)))%Qc).
  { apply (proj1 (of_Z_lt 0 _)). lia. }
  assert (Hlow : (pow b (Ln - Ld - 1) < x)%Qc).
  { apply (Qcmult_lt_mono_pos_r _ _ _ Hdpos). rewrite Hnd.
    apply Qclt_le_trans with (of_Z (b ^ Ln)); [|apply (proj1 (of_Z_le _ _)); lia].
    rewrite <- (pow_of_Z b Ln) by lia.
    replace Ln with ((Ln - Ld - 1) + (Ld + 1)) at 2 by lia.
    rewrite pow_add by lia.
    apply Qcmult_lt_mono_pos_l; [apply pow_pos; lia|].
    rewrite pow_of_Z by lia. apply (proj1 (of_Z_lt _ _)). lia. }
  assert (Hupp : (x < pow b (Ln - Ld + 1))%Qc).
  { apply (Qcmult_lt_mono_pos_r _ _ _ Hdpos). rewrite Hnd.
    apply Qclt_le_trans with (of_Z (b ^ (Ln + 1))); [apply (proj1 (of_Z_lt _ _)); lia|].
    rewrite <- (pow_of_Z b (Ln + 1)) by lia.
    replace (Ln + 1) with ((Ln - Ld + 1) + Ld) by lia.
    rewrite pow_add by lia.
    apply Qcmult_le_mono_pos_l; [apply pow_pos; lia|].
    rewrite pow_of_Z by lia. apply (proj1 (of_Z_le _ _)). lia. }
  unfold floor_log. fold Ln Ld.
  destruct (decide (pow b (Ln - Ld) ≤ x)%Qc) as [Hle|Hgt].
  - split; [exact Hle | exact Hupp].
  - split; [apply Qclt_le_weak; exact Hlow|].
    replace (Ln - Ld - 1 + 1) with (Ln - Ld) by lia.
    apply Qcnot_le_lt. exact Hgt.
Qed.

Lemma floor_log_mono (b : Z) (x y : Qc) :
  2 ≤ b → (0 < x)%Qc → (x ≤ y)%Qc → floor_log b x ≤ floor_log b y.
Proof.
  intros Hb Hx Hxy.
  destruct (floor_log_spec b x Hb Hx) as [Hlo _].
  destruct (floor_log_spec b y Hb (Qclt_le_trans _ _ _ Hx Hxy)) as [_ Hhi].
  assert (H : (pow b (floor_log b x) < pow b (floor_log b y + 1))%Qc).
  { eapply Qcle_lt_trans; [exact Hlo|].
    eapply Qcle_lt_trans; [exact Hxy | exact Hhi]. }
  apply pow_lt_inv in H; lia.
Qed.

(** ** Rounding *)

Lemma half_pos : (0 < half)%Qc.
Proof. by_compute. Qed.

(** Rounding to the nearest integer never passes an integer. *)
Lemma round_half_even_le (x : Qc) (N : Z) :
  (x ≤ of_Z N)%Qc → round_half_even x ≤ N.
Proof.
  intros Hx. unfold round_half_even.
  destruct (Qc_floor_spec x) as [Hlo Hhi].
  set (f := Qc_floor x) in *.
  assert (Hf : f ≤ N).
  { apply (proj2 (of_Z_le f N)). eapply Qcle_trans; eassumption. }
  destruct (decide (x - of_Z f < half)%Qc) as [_|Hr]; [exact Hf|].
  assert (Hlt : f < N).
  { apply (proj2 (of_Z_lt f N)). eapply Qclt_le_trans; [|exact Hx].
    apply Qcnot_lt_le in Hr.
    apply (Qcplus_lt_mono_r _ _ (- of_Z f)).
    rewrite Qcplus_opp_r.
    eapply Qclt_le_trans; [exact half_pos | exact Hr]. }
  destruct (decide (half < x - of_Z f)%Qc); [lia|].
  destruct (Z.even f); lia.
Qed.

Lemma Qc_abs_nonneg (x : Qc) : (0 ≤ x)%Qc → Qc_abs x = x.
Proof. intros H. unfold Qc_abs. rewrite decide_True by exact H. reflexivity. Qed.

(** On a positive number, [round_sig] is the nearest multiple of the unit. *)
Lemma round_sig_pos (b prec emin : Z) (x : Qc) :
  (0 < x)%Qc →
  round_sig b prec emin x
  = (of_Z (round_half_even
             (x / pow b (Z.max (floor_log b x - prec + 1) emin)))
     * pow b (Z.max (floor_log b x - prec + 1) emin))%Qc.
Proof.
  intros Hx. unfold round_sig.
  rewrite decide_False by (intros ->; exact (Qclt_not_eq _ _ Hx eq_refl)).
  rewrite Qc_abs_nonneg by (apply Qclt_le_weak; exact Hx).
  rewrite decide_True by (apply Qclt_le_weak; exact Hx). reflexivity.
Qed.

(** Rounding a number never passes a representable number above it. *)
Lemma round_sig_le_fixed (b prec emin : Z) (q v : Qc) :
  2 ≤ b → (0 ≤ q)%Qc → (q ≤ v)%Qc →
  round_sig b prec emin v = v →
  (round_sig b prec emin q ≤ v)%Qc.
Proof.
  intros Hb Hq Hqv Hfix.
  destruct (Qcle_lt_or_eq _ _ Hq) as [Hq0| <-].
  2:{ unfold round_sig. rewrite decide_True by reflexivity.
      eapply Qcle_trans; eassumption. }
  assert (Hv0 : (0 < v)%Qc) by (eapply Qclt_le_trans; eassumption).
  rewrite round_sig_pos in Hfix by exact Hv0.
  rewrite round_sig_pos by exact Hq0.
  pose proof (floor_log_mono b q v Hb Hq0 Hqv) as Hlog.
  set (eq := Z.max (floor_log b q - prec + 1) emin) in *.
  set (ev := Z.max (floor_log b v - prec + 1) emin) in *.
  set (Mv := round_half_even (v / pow b ev)) in *.
  assert (He : eq ≤ ev) by (unfold eq, ev; lia).
  assert (Huq : (0 < pow b eq)%Qc) by (apply pow_pos; lia).
  assert (Hv : v = (of_Z (Mv * b ^ (ev - eq)) * pow b eq)%Qc).
  { rewrite <- Hfix at 1. replace ev with ((ev - eq) + eq) at 1 by lia.
    rewrite pow_add by lia. rewrite (pow_of_Z b (ev - eq)) by lia.
    unfold of_Z. rewrite Z2Qc_inj_mul. ring. }
  apply Qcle_trans with (of_Z (Mv * b ^ (ev - eq)) * pow b eq)%Qc;
    [|rewrite <- Hv; apply Qcle_refl].
  apply Qcmult_le_mono_pos_r; [exact Huq|].
  apply (proj1 (of_Z_le _ _)). apply round_half_even_le.
  apply (Qcmult_lt_0_le_reg_r _ _ (pow b eq) Huq).
  rewrite Qcdiv_mult_cancel by exact Huq.
  rewrite <- Hv. exact Hqv.
Qed.

Lemma float_of_Decimal_le (d : Decimal) (x : float) :
  (0 ≤ d)%Qc → (d ≤ x)%Qc → is_float x → (float_of_Decimal d ≤ x)%Qc.
Proof.
  intros Hd Hdx Hx. unfold float_of_Decimal, round_float.
  apply round_sig_le_fixed; [lia | exact Hd | exact Hdx | exact Hx].
Qed.

(** ** [_adjust_precision] *)

Lemma adjust_precision_eq self symbol value filter_type :
  _adjust_precision self symbol value filter_type =
  match applicable_rule self symbol filter_type with
  | None => Return value
  | Some f =>
      match step_field f filter_type with
      | None =>
          Raise (KeyError (if decide (filter_type = "LOT_SIZE")
                           then "stepSize" else "tickSize"))
      | Some step =>
          q ← Decimal_floordiv (Decimal_of_float value) step;
          Return (float_of_Decimal (Decimal_mul q step))
      end
  end.
Proof.
  unfold _adjust_precision, applicable_rule.
  induction (default [] (filters self !! upper symbol)) as [|f fs IH];
    simpl; [reflexivity|].
  destruct (decide (filterType f = filter_type)) as [_|_]; [|exact IH].
  unfold step_field.
  destruct (decide (filter_type = "LOT_SIZE")) as [_|_].
  - destruct (stepSize f); reflexivity.
  - destruct (tickSize f); reflexivity.
Qed.

(** A symbol without a rule of the wanted type passes through. *)
Lemma adjust_precision_no_rule self symbol value filter_type :
  applicable_rule self symbol filter_type = None →
  _adjust_precision self symbol value filter_type = Return value.
Proof. intros H. rewrite adjust_precision_eq, H. reflexivity. Qed.

(** ** More on rounding *)

Lemma pow_le_mono (b n m : Z) : 0 < b → n ≤ m → (pow b n ≤ pow b m)%Qc.
Proof.
  intros Hb Hnm. replace m with (n + (m - n)) by lia.
  rewrite pow_add by exact Hb. rewrite (pow_of_Z b (m - n)) by lia.
  rewrite <- (Qcmult_1_r (pow b n)) at 1.
  apply Qcmult_le_mono_pos_l; [apply pow_pos; exact Hb|].
  apply (proj1 (of_Z_le 1 _)). lia.
Qed.

Lemma round_half_even_floor (x : Qc) : Qc_floor x ≤ round_half_even x.
Proof.
  unfold round_half_even. repeat case_decide; try lia.
  destruct (Z.even _); lia.
Qed.

Lemma Qc_opp_pos (x : Qc) : (x < 0)%Qc → (0 < - x)%Qc.
Proof.
  intros H. apply Qclt_minus_iff in H. rewrite Qcplus_0_l in H. exact H.
Qed.

Lemma Qc_abs_opp (x : Qc) : Qc_abs (- x) = Qc_abs x.
Proof.
  unfold Qc_abs.
  destruct (decide (0 ≤ - x)%Qc) as [H1|H1], (decide (0 ≤ x)%Qc) as [H2|H2].
  - assert (x = 0%Qc) as ->; [|reflexivity].
    apply Qcle_antisym; [|exact H2].
    apply Qcopp_le_compat in H1. rewrite Qcopp_involutive in H1. exact H1.
  - reflexivity.
  - apply Qcopp_involutive.
  - exfalso. apply H1. apply Qcnot_le_lt in H2.
    apply Qclt_le_weak, Qc_opp_pos. exact H2.
Qed.

(** Rounding commutes with the change of sign. *)
Lemma round_sig_opp (b prec emin : Z) (x : Qc) :
  round_sig b prec emin (- x) = (- round_sig b prec emin x)%Qc.
Proof.
  unfold round_sig.
  destruct (decide (x = 0%Qc)) as [->|Hx].
  { rewrite decide_True by reflexivity. reflexivity. }
  rewrite decide_False.
  2:{ intros H. apply Hx. rewrite <- (Qcopp_involutive x), H. reflexivity. }
  rewrite Qc_abs_opp.
  destruct (decide (0 ≤ - x)%Qc) as [H1|H1], (decide (0 ≤ x)%Qc) as [H2|H2].
  - exfalso. apply Hx. apply Qcle_antisym; [|exact H2].
    apply Qcopp_le_compat in H1. rewrite Qcopp_involutive in H1. exact H1.
  - rewrite Qcopp_involutive. reflexivity.
  - reflexivity.
  - exfalso. apply H1. apply Qcnot_le_lt in H2.
    apply Qclt_le_weak, Qc_opp_pos. exact H2.
Qed.

(** A number of normal size does not round to zero. *)
Lemma round_sig_normal_pos (b prec emin : Z) (x : Qc) :
  2 ≤ b → 1 ≤ prec → (pow b (emin + prec - 1) ≤ x)%Qc →
  (0 < round_sig b prec emin x)%Qc.
Proof.
  intros Hb Hprec Hx.
  assert (Hx0 : (0 < x)%Qc).
  { apply Qclt_le_trans with (pow b (emin + prec - 1)); [|exact Hx].
    apply pow_pos. lia. }
  rewrite round_sig_pos by exact Hx0.
  destruct (floor_log_spec b x Hb Hx0) as [Hlo Hhi].
  set (e := floor_log b x) in *.
  assert (He : emin + prec - 1 < e + 1).
  { apply (pow_lt_inv b); [lia|]. eapply Qcle_lt_trans; eassumption. }
  rewrite Z.max_l by lia.
  assert (Hu : (0 < pow b (e - prec + 1))%Qc) by (apply pow_pos; lia).
  apply Qcmult_pos_pos; [|exact Hu].
  apply (proj1 (of_Z_lt 0 _)).
  pose proof (round_half_even_floor (x / pow b (e - prec + 1))) as Hfl.
  assert (1 ≤ Qc_floor (x / pow b (e - prec + 1))); [|lia].
  apply Qc_floor_greatest.
  apply (Qcmult_lt_0_le_reg_r _ _ (pow b (e - prec + 1)) Hu).
  rewrite Qcdiv_mult_cancel by exact Hu.
  unfold of_Z. rewrite Z2Qc_inj_1, Qcmult_1_l.
  eapply Qcle_trans; [|exact Hlo]. apply pow_le_mono; lia.
Qed.

Lemma round_sig_nonneg (b prec emin : Z) (x : Qc) :
  0 < b → (0 ≤ x)%Qc → (0 ≤ round_sig b prec emin x)%Qc.
Proof.
  intros Hb Hx. destruct (Qcle_lt_or_eq _ _ Hx) as [Hx0| <-].
  2:{ unfold round_sig. rewrite decide_True by reflexivity. apply Qcle_refl. }
  rewrite round_sig_pos by exact Hx0.
  set (u := pow b _).
  assert (Hu : (0 < u)%Qc) by (apply pow_pos; exact Hb).
  apply Qcmult_nonneg_nonneg; [|apply Qclt_le_weak; exact Hu].
  apply (proj1 (of_Z_le 0 _)).
  pose proof (round_half_even_floor (x / u)) as Hfl.
  pose proof (Qc_floor_nonneg (x / u) (Qcdiv_nonneg x u Hx Hu)). lia.
Qed.

Lemma float_of_int_nonzero (n : Z) : n ≠ 0 → float_of_int n ≠ 0%Qc.
Proof.
  intros Hn.
  assert (Hpos : ∀ m, 0 < m → (0 < float_of_int m)%Qc).
  { intros m Hm. unfold float_of_int, round_float.
    apply round_sig_normal_pos; [lia | lia |].
    apply Qcle_trans with (pow 2 0); [apply pow_le_mono; lia|].
    rewrite pow_of_Z by lia. apply (proj1 (of_Z_le _ _)). simpl. lia. }
  destruct (decide (0 < n)) as [Hp|Hp].
  - intros H. specialize (Hpos n Hp). rewrite H in Hpos.
    exact (Qclt_not_eq _ _ Hpos eq_refl).
  - intros H. specialize (Hpos (- n) ltac:(lia)).
    unfold float_of_int, round_float, of_Z in Hpos.
    rewrite Z2Qc_inj_opp, round_sig_opp in Hpos.
    unfold float_of_int, round_float, of_Z in H. rewrite H in Hpos.
    exact (Qclt_not_eq _ _ Hpos eq_refl).
Qed.

Lemma Qc_abs_le (x b : Qc) : (Qc_abs x ≤ b)%Qc ↔ (- b ≤ x)%Qc ∧ (x ≤ b)%Qc.
Proof.
  unfold Qc_abs. destruct (decide (0 ≤ x)%Qc) as [H|H].
  - split; [|tauto]. intros Hx. split; [|exact Hx].
    apply Qcle_trans with 0%Qc; [|exact H].
    apply Qcopp_le_compat in Hx.
    eapply Qcle_trans; [exact Hx|].
    apply Qcopp_le_compat in H. exact H.
  - apply Qcnot_le_lt in H. split.
    + intros Hx. split.
      * apply Qcopp_le_compat in Hx. rewrite Qcopp_involutive in Hx. exact Hx.
      * apply Qcle_trans with 0%Qc; [apply Qclt_le_weak; exact H|].
        eapply Qcle_trans; [|exact Hx].
        apply Qclt_le_weak, Qc_opp_pos, H.
    + intros [Hlo _]. apply Qcopp_le_compat in Hlo.
      rewrite Qcopp_involutive in Hlo. exact Hlo.
Qed.

(** Rounding does not pass a representable bound on the magnitude. *)
Lemma round_sig_abs_le (b prec emin : Z) (q v : Qc) :
  2 ≤ b → (Qc_abs q ≤ v)%Qc → round_sig b prec emin v = v →
  (Qc_abs (round_sig b prec emin q) ≤ v)%Qc.
Proof.
  intros Hb Hq Hv. apply Qc_abs_le in Hq as [Hlo Hhi]. apply Qc_abs_le.
  destruct (decide (0 ≤ q)%Qc) as [H|H].
  - split; [|apply round_sig_le_fixed; assumption].
    apply Qcle_trans with 0%Qc; [|apply round_sig_nonneg; [lia | exact H]].
    apply Qcle_trans with (- q)%Qc.
    + apply Qcopp_le_compat. exact Hhi.
    + apply Qcopp_le_compat in H. exact H.
  - apply Qcnot_le_lt in H.
    assert (H0 : (0 ≤ - q)%Qc) by (apply Qclt_le_weak, Qc_opp_pos, H).
    assert (Hq' : (- q ≤ v)%Qc).
    { apply Qcopp_le_compat in Hlo. rewrite Qcopp_involutive in Hlo.
      exact Hlo. }
    pose proof (round_sig_le_fixed b prec emin (- q) v Hb H0 Hq' Hv) as Hle.
    pose proof (round_sig_nonneg b prec emin (- q) ltac:(lia) H0) as Hge.
    rewrite round_sig_opp in Hle, Hge.
    split.
    + apply Qcopp_le_compat in Hle. rewrite Qcopp_involutive in Hle.
      exact Hle.
    + apply Qcle_trans with 0%Qc.
      * apply Qcopp_le_compat in Hge. rewrite Qcopp_involutive in Hge.
        exact Hge.
      * eapply Qcle_trans; [exact H0 | exact Hq'].
Qed.

Lemma Qc_abs_of_Z (n : Z) : Qc_abs (of_Z n) = of_Z (Z.abs n).
Proof.
  unfold Qc_abs. destruct (decide (0 ≤ of_Z n)%Qc) as [H|H].
  - apply (proj2 (of_Z_le 0 n)) in H. rewrite Z.abs_eq by exact H.
    reflexivity.
  - assert (n < 0).
    { destruct (decide (n < 0)) as [Hn|Hn]; [exact Hn|].
      destruct H. apply (proj1 (of_Z_le 0 n)). lia. }
    rewrite Z.abs_neq by lia. unfold of_Z. rewrite Z2Qc_inj_opp.
    reflexivity.
Qed.

(** 2^1023 is a float within the finite range. *)
Lemma is_float_2_1023 : round_float (of_Z (2 ^ 1023)) = of_Z (2 ^ 1023).
Proof. by_compute. Qed.

Lemma finite_bound (x : Qc) : (Qc_abs x ≤ of_Z (2 ^ 1023))%Qc → finite x.
Proof.
  intros H. unfold finite. eapply Qcle_trans; [exact H|]. by_compute.
Qed.

(** An int of ordinary size converts to a float. *)
Lemma finite_float_of_int (n : Z) :
  Z.abs n ≤ 2 ^ 1023 → finite (float_of_int n).
Proof.
  intros Hn. apply finite_bound. unfold float_of_int, round_float.
  apply round_sig_abs_le; [lia | | exact is_float_2_1023].
  rewrite Qc_abs_of_Z. apply (proj1 (of_Z_le _ _)). exact Hn.
Qed.

(** A quotient by a positive int is no larger in magnitude than the
    numerator. *)
Lemma quotient_abs_le (a b M : Z) :
  0 < b → Z.abs a ≤ M → (Qc_abs (of_Z a / of_Z b) ≤ of_Z M)%Qc.
Proof.
  intros Hb Ha.
  assert (Hb0 : (0 < of_Z b)%Qc) by (apply (proj1 (of_Z_lt 0 b)); lia).
  apply Qc_abs_le. split.
  - apply (Qcmult_lt_0_le_reg_r _ _ (of_Z b) Hb0).
    rewrite Qcdiv_mult_cancel by exact Hb0.
    unfold of_Z. rewrite <- Z2Qc_inj_opp, <- Z2Qc_inj_mul.
    apply (proj1 (Z2Qc_inj_le _ _)). nia.
  - apply (Qcmult_lt_0_le_reg_r _ _ (of_Z b) Hb0).
    rewrite Qcdiv_mult_cancel by exact Hb0.
    unfold of_Z. rewrite <- Z2Qc_inj_mul.
    apply (proj1 (Z2Qc_inj_le _ _)). nia.
Qed.

(** The quotient of an int of ordinary size by an int is within the range
    of the floats. *)
Lemma finite_quotient (a b : Z) :
  b ≠ 0 → Z.abs a ≤ 2 ^ 1023 → finite (round_float (of_Z a / of_Z b)).
Proof.
  intros Hb Ha. apply finite_bound. unfold round_float.
  apply round_sig_abs_le; [lia | | exact is_float_2_1023].
  destruct (decide (0 < b)) as [Hp|Hp]; [apply quotient_abs_le; assumption|].
  replace (of_Z a / of_Z b)%Qc with (of_Z (- a) / of_Z (- b))%Qc.
  - apply quotient_abs_le; lia.
  - assert (Hb0 : Qc_of_Z b ≠ 0%Qc).
    { intros H. apply Hb. apply Z2Qc_inj. rewrite Z2Qc_inj_0. exact H. }
    unfold of_Z. rewrite !Z2Qc_inj_opp. field. split; [exact Hb0|].
    intros H. apply Hb0. rewrite <- (Qcopp_involutive (Qc_of_Z b)), H.
    reflexivity.
Qed.

Lemma truediv_float_int_nonzero (x : float) (n : Z) :
  n ≠ 0 → Z.abs n ≤ 2 ^ 1023 →
  truediv_float_int x n = Return (round_float (x / float_of_int n)).
Proof.
  intros Hn Hb. unfold truediv_float_int, fdiv.
  rewrite decide_True by (apply finite_float_of_int; exact Hb).
  rewrite decide_False by (apply float_of_int_nonzero; exact Hn). reflexivity.
Qed.

Lemma truediv_int_int_nonzero (a b : Z) :
  b ≠ 0 → Z.abs a ≤ 2 ^ 1023 →
  truediv_int_int a b = Return (round_float (of_Z a / of_Z b)).
Proof.
  intros Hb Ha. unfold truediv_int_int. rewrite decide_False by exact Hb.
  cbv zeta. rewrite decide_True by (apply finite_quotient; assumption).
  reflexivity.
Qed.

(** ** The range of [time.sleep] *)

Lemma Qc_ceiling_floor (x : Qc) : Qc_ceiling x = - Qc_floor (- x).
Proof.
  unfold Qc_ceiling, Qceiling, Qc_floor. f_equal.
  apply Qfloor_comp. simpl. symmetry. apply Qred_correct.
Qed.

Lemma is_float_9e18 : round_float (of_Z (9 * 10 ^ 18)) = of_Z (9 * 10 ^ 18).
Proof. by_compute. Qed.

(** A length of at most 9 * 10^9 seconds, of either sign, has nanoseconds
    that fit 64 bits. *)
Lemma sleep_ns_range (d : float) :
  (Qc_abs d ≤ of_Z (9 * 10 ^ 9))%Qc → - 2 ^ 63 ≤ sleep_ns d < 2 ^ 63.
Proof.
  intros Hd. unfold sleep_ns, fmul.
  set (D := round_float (d * of_Z (10 ^ 9))).
  assert (HD : (Qc_abs D ≤ of_Z (9 * 10 ^ 18))%Qc).
  { unfold D, round_float.
    apply round_sig_abs_le; [lia | | exact is_float_9e18].
    apply Qc_abs_le in Hd as [Hlo Hhi]. apply Qc_abs_le.
    assert (Hk : (0 < of_Z (10 ^ 9))%Qc) by by_compute.
    replace (of_Z (9 * 10 ^ 18)) with (of_Z (9 * 10 ^ 9) * of_Z (10 ^ 9))%Qc
      by by_compute.
    split.
    - replace (- (of_Z (9 * 10 ^ 9) * of_Z (10 ^ 9)))%Qc
        with (- of_Z (9 * 10 ^ 9) * of_Z (10 ^ 9))%Qc by ring.
      apply Qcmult_le_mono_pos_r; [exact Hk | exact Hlo].
    - apply Qcmult_le_mono_pos_r; [exact Hk | exact Hhi]. }
  apply Qc_abs_le in HD as [Hlo Hhi].
  assert (Hfl : - (9 * 10 ^ 18) ≤ Qc_floor D).
  { apply Qc_floor_greatest. unfold of_Z in *. rewrite Z2Qc_inj_opp.
    exact Hlo. }
  assert (Hfl' : Qc_floor D ≤ 9 * 10 ^ 18).
  { apply (proj2 (of_Z_le _ _)).
    eapply Qcle_trans; [apply Qc_floor_spec | exact Hhi]. }
  assert (Hce : Qc_ceiling D ≤ 9 * 10 ^ 18).
  { rewrite Qc_ceiling_floor.
    assert (- (9 * 10 ^ 18) ≤ Qc_floor (- D)); [|lia].
    apply Qc_floor_greatest. unfold of_Z in *. rewrite Z2Qc_inj_opp.
    apply Qcopp_le_compat. exact Hhi. }
  assert (Hce' : - (9 * 10 ^ 18) ≤ Qc_ceiling D).
  { rewrite Qc_ceiling_floor.
    assert (Qc_floor (- D) ≤ 9 * 10 ^ 18); [|lia].
    apply (proj2 (of_Z_le _ _)).
    eapply Qcle_trans; [apply Qc_floor_spec|].
    apply Qcopp_le_compat in Hlo. rewrite Qcopp_involutive in Hlo.
    exact Hlo. }
  case_decide; lia.
Qed.


Lemma is_float_9e9 : round_float (of_Z (9 * 10 ^ 9)) = of_Z (9 * 10 ^ 9).
Proof. by_compute. Qed.

(** The pause between slices is no longer than the whole duration. *)
Lemma delay_abs_le (duration intervals : Z) :
  Z.abs duration ≤ 9 * 10 ^ 9 → 0 < intervals →
  (Qc_abs (round_float (of_Z duration / of_Z intervals)) ≤ of_Z (9 * 10 ^ 9))%Qc.
Proof.
  intros Hd Hn. unfold round_float.
  apply round_sig_abs_le; [lia | | exact is_float_9e9].
  apply quotient_abs_le; assumption.
Qed.


(** A negative quotient of integers of ordinary size stays negative when it
    is rounded. *)
Lemma truediv_int_int_negative (a b : Z) :
  a < 0 → 0 < b ≤ 2 ^ 1022 →
  (round_float (of_Z a / of_Z b) < 0)%Qc.
Proof.
  intros Ha Hb.
  assert (Hb0 : (0 < of_Z b)%Qc) by (apply (proj1 (of_Z_lt 0 b)); lia).
  assert (Hpos : (0 < round_float (of_Z (- a) / of_Z b))%Qc).
  { unfold round_float. apply round_sig_normal_pos; [lia | lia |].
    apply (Qcmult_lt_0_le_reg_r _ _ (of_Z b) Hb0).
    rewrite Qcdiv_mult_cancel by exact Hb0.
    apply Qcle_trans with (pow 2 (-1022) * pow 2 1022)%Qc.
    - apply Qcmult_le_mono_pos_l; [apply pow_pos; lia|].
      rewrite pow_of_Z by lia. apply (proj1 (of_Z_le _ _)). lia.
    - rewrite <- pow_add by lia. rewrite pow_of_Z by lia.
      apply (proj1 (of_Z_le _ _)). simpl. lia. }
  unfold of_Z in Hpos. rewrite Z2Qc_inj_opp in Hpos.
  fold (of_Z a) (of_Z b) in Hpos.
  replace (- of_Z a / of_Z b)%Qc with (- (of_Z a / of_Z b))%Qc in Hpos
    by (unfold Qcdiv; ring).
  unfold round_float in Hpos |- *. rewrite round_sig_opp in Hpos.
  apply Qclt_minus_iff. rewrite Qcplus_0_l. exact Hpos.
Qed.

Lemma Qc_floor_of_Z (k : Z) : Qc_floor (of_Z k) = k.
Proof.
  apply Z.le_antisymm.
  - destruct (Qc_floor_spec (of_Z k)) as [Hlo _].
    apply (proj2 (of_Z_le _ _)). exact Hlo.
  - apply Qc_floor_greatest. apply Qcle_refl.
Qed.

Lemma Qc_floor_mono (x y : Qc) : (x ≤ y)%Qc → Qc_floor x ≤ Qc_floor y.
Proof.
  intros H. apply Qc_floor_greatest.
  eapply Qcle_trans; [apply Qc_floor_spec | exact H].
Qed.

Lemma Qcdiv_le_mono (x y z : Qc) : (0 < z)%Qc → (x ≤ y)%Qc → (x / z ≤ y / z)%Qc.
Proof.
  intros Hz H. apply (Qcmult_lt_0_le_reg_r _ _ z Hz).
  rewrite !Qcdiv_mult_cancel by exact Hz. exact H.
Qed.

Lemma Qc_trunc_nonpos (x : Qc) :
  (x ≤ 0)%Qc →
  (x ≤ of_Z (Qc_trunc x))%Qc ∧ (of_Z (Qc_trunc x) < x + 1)%Qc
  ∧ Qc_trunc x ≤ 0.
Proof.
  intros Hx. unfold Qc_trunc.
  destruct (decide (0 ≤ x)%Qc) as [H0|H0].
  - assert (x = 0%Qc) as -> by (apply Qcle_antisym; assumption).
    assert (Hf0 : Qc_floor 0%Qc = 0) by by_compute. rewrite Hf0.
    split; [by_compute|]. split; [by_compute | lia].
  - rewrite Qc_ceiling_floor.
    destruct (Qc_floor_spec (- x)) as [Hlo Hhi].
    unfold of_Z in *. rewrite Z2Qc_inj_opp.
    split; [|split].
    + apply Qcopp_le_compat in Hlo. rewrite Qcopp_involutive in Hlo.
      exact Hlo.
    + apply Qclt_minus_iff. apply Qclt_minus_iff in Hhi.
      replace (x + 1 + - - Qc_of_Z (Qc_floor (- x)))%Qc
        with (Qc_of_Z (Qc_floor (- x)) + 1 + - - x)%Qc by ring.
      exact Hhi.
    + assert (0 ≤ Qc_floor (- x)); [|lia].
      apply Qc_floor_nonneg. apply Qclt_le_weak, Qc_opp_pos.
      apply Qcnot_le_lt. exact H0.
Qed.


(** * The specification, sentence by sentence *)

(** ** C1: a failing slice or level *)

(** C1, counterexample.  The third of five TWAP slices is refused by the
    exchange: [execute_twap] sends exactly three requests and then raises
    the exchange's error.  The two answers collected so far are not part of
    the outcome: the call does not return a result sequence at all. *)
Lemma twap_third_slice_error_discards_results :
  let run := execute_twap bot_failing_third "BTCUSDT" "BUY" (of_Z 10) 30 5 []
  in fst run = Raise insufficient_margin
     ∧ length (orders_of (snd run)) = 3%nat
     ∧ ¬ ∃ results : list response, fst run = Return results.
Proof.
  assert (Hrun : fst (execute_twap bot_failing_third "BTCUSDT" "BUY"
                        (of_Z 10) 30 5 []) = Raise insufficient_margin)
    by by_compute.
  cbv zeta. split; [exact Hrun|]. split; [by_compute|].
  intros [results Hres]. rewrite Hrun in Hres. discriminate.
Qed.

(** C1, amended.  In every run of [execute_twap] and of [execute_grid], as
    soon as the exchange answers a request of the run with an exception
    (a [BinanceAPIException] in particular), that request is the last one
    of the run (nothing is sent after it) and the run ends by raising that
    same exception to the caller. *)
Theorem strategy_error_aborts_and_propagates self symbol side total_qty :
  (∀ duration intervals w, ∃ out t,
     execute_twap self symbol side total_qty duration intervals w
       = (out, w ++ t)
     ∧ ∀ j p e, orders_of t !! j = Some p →
         client self (length (orders_of w) + j)%nat p = Raise e →
         out = Raise e ∧ length (orders_of t) = S j)
  ∧ (∀ lower_price upper_price grids w, ∃ out t,
       execute_grid self symbol side total_qty lower_price upper_price grids w
         = (out, w ++ t)
       ∧ ∀ j p e, orders_of t !! j = Some p →
           client self (length (orders_of w) + j)%nat p = Raise e →
           out = Raise e ∧ length (orders_of t) = S j).
Proof.
  split.
  - intros duration intervals. apply fail_fast_execute_twap.
  - intros lower_price upper_price grids. apply fail_fast_execute_grid.
Qed.

(** C1, witness: the run of the counterexample, through the theorem. *)
Lemma strategy_error_witness :
  ∃ out t,
    execute_twap bot_failing_third "BTCUSDT" "BUY" (of_Z 10) 30 5 []
      = (out, [] ++ t)
    ∧ out = Raise insufficient_margin ∧ length (orders_of t) = 3%nat.
Proof.
  destruct (strategy_error_aborts_and_propagates bot_failing_third
              "BTCUSDT" "BUY" (of_Z 10)) as [Htwap _].
  destruct (Htwap 30 5 []) as (out & t & Hrun & Hff).
  exists out, t. split; [exact Hrun|].
  assert (Ht : t = snd (execute_twap bot_failing_third "BTCUSDT" "BUY"
                          (of_Z 10) 30 5 [])) by (rewrite Hrun; reflexivity).
  assert (Hlt : (2 < length (orders_of t))%nat) by (rewrite Ht; by_compute).
  destruct (lookup_lt_is_Some_2 _ _ Hlt) as [p Hp].
  apply (Hff 2%nat p insufficient_margin Hp). reflexivity.
Defined.

(** ** C2: normalisation rounds down to the step lattice *)

(** C2, counterexample.  With lot step 0.1, the float 2.4 (which is a little
    less than 24/10) is normalised to the float nearest to 2.3: the result
    is not an integer multiple of 0.1, and it lies a full step (and a bit)
    below the value. *)
Lemma adjust_precision_result_not_on_lattice :
  let value := round_float (qc 24 10) in
  let step := qc 1 10 in
  (0 ≤ value)%Qc ∧ (0 < step)%Qc ∧ is_float value
  ∧ applicable_rule bot_tenth "BTCUSDT" "LOT_SIZE" = Some lot_tenth
  ∧ step_field lot_tenth "LOT_SIZE" = Some step
  ∧ ∃ r, _adjust_precision bot_tenth "BTCUSDT" value "LOT_SIZE" = Return r
         ∧ r = round_float (qc 23 10)
         ∧ (¬ ∃ k : Z, r = (of_Z k * step)%Qc)
         ∧ ¬ (value - r < step)%Qc.
Proof.
  cbv zeta. split; [by_compute|]. split; [by_compute|].
  split; [unfold is_float; by_compute|].
  split; [by_compute|]. split; [by_compute|].
  exists (qc 2589569785738035 1125899906842624).
  split; [by_compute|]. split; [by_compute|]. split; [|by_compute].
  intros [k Hk].
  assert (H : (this (qc 2589569785738035 1125899906842624)
               == inject_Z k * this (qc 1 10))%Q).
  { rewrite Hk. apply Qc_this_mult_Z. }
  change (this (qc 2589569785738035 1125899906842624))
    with (2589569785738035 # 1125899906842624)%Q in H.
  change (this (qc 1 10)) with (1 # 10)%Q in H.
  unfold Qeq in H. simpl in H. lia.
Qed.

(** C2, amended.  For a float [value >= 0] and a symbol whose applicable
    rule carries [step > 0]: the Decimal that [_adjust_precision] computes,
    [quantized = floor (value / step) * step], is the largest multiple of
    [step] that does not exceed [value] (it is at most [value], an exact
    multiple of [step], and less than one step below [value]); provided the
    quotient and the product fit the Decimal context (28 digits), the
    function returns the float nearest to [quantized], and that float does
    not exceed [value] either. *)
Theorem adjust_precision_quantizes self symbol value filter_type f step :
  applicable_rule self symbol filter_type = Some f →
  step_field f filter_type = Some step →
  (0 ≤ value)%Qc → (0 < step)%Qc →
  let k := Qc_floor (value / step) in
  let quantized := (of_Z k * step)%Qc in
  k < 10 ^ decimal_prec →
  round_decimal quantized = quantized →
  _adjust_precision self symbol value filter_type
    = Return (round_float quantized)
  ∧ (quantized ≤ value)%Qc
  ∧ (value - quantized < step)%Qc
  ∧ (∀ m : Z, (of_Z m * step ≤ value)%Qc → (of_Z m * step ≤ quantized)%Qc)
  ∧ (is_float value → (round_float quantized ≤ value)%Qc).
Proof.
  intros Hrule Hstep Hv Hs k quantized Hk Hexact.
  pose proof (Qcdiv_nonneg value step Hv Hs) as Hx.
  pose proof (Qc_floor_nonneg _ Hx) as Hk0. fold k in Hk0.
  destruct (floor_multiple_bounds value step Hs) as (Hle & Hlt & Hmax).
  fold k quantized in Hle, Hlt, Hmax.
  split; [|split; [exact Hle | split; [exact Hlt | split; [exact Hmax|]]]].
  - rewrite adjust_precision_eq, Hrule, Hstep.
    unfold Decimal_floordiv, Decimal_of_float.
    destruct (decide (step = 0%Qc)) as [->|_].
    { exfalso. exact (Qclt_not_eq _ _ Hs eq_refl). }
    unfold Qc_trunc. destruct (decide (0 ≤ value / step)%Qc) as [_|Hn];
      [|contradiction].
    fold k. rewrite Z.abs_eq by exact Hk0.
    destruct (decide (k < 10 ^ decimal_prec)) as [_|Hn]; [|contradiction].
    simpl. unfold Decimal_mul, float_of_Decimal. fold quantized.
    rewrite Hexact. reflexivity.
  - intros Hfloat. apply float_of_Decimal_le; [|exact Hle | exact Hfloat].
    apply Qcmult_nonneg_nonneg; [|apply Qclt_le_weak; exact Hs].
    apply (proj1 (of_Z_le 0 k)). exact Hk0.
Qed.

(** C2, witness: the float 1.2345 against the lot step 0.001 gives the float
    nearest to 1.234. *)
Lemma adjust_precision_quantizes_witness :
  let value := round_float (qc 12345 10000) in
  let step := qc 1 1000 in
  let quantized := (of_Z 1234 * step)%Qc in
  _adjust_precision bot_ok "BTCUSDT" value "LOT_SIZE"
    = Return (round_float quantized)
  ∧ (quantized ≤ value)%Qc ∧ (value - quantized < step)%Qc
  ∧ (round_float quantized ≤ value)%Qc.
Proof.
  cbv zeta.
  assert (Hk : Qc_floor (round_float (qc 12345 10000) / qc 1 1000) = 1234)
    by by_compute.
  destruct (adjust_precision_quantizes bot_ok "BTCUSDT"
              (round_float (qc 12345 10000)) "LOT_SIZE"
              {| filterType := "LOT_SIZE"; stepSize := Some (qc 1 1000);
                 tickSize := None |} (qc 1 1000))
    as (Hrun & Hle & Hlt & _ & Hfloat); [by_compute..|].
  rewrite Hk in Hrun, Hle, Hlt, Hfloat.
  split; [exact Hrun|]. split; [exact Hle|]. split; [exact Hlt|].
  apply Hfloat. unfold is_float. by_compute.
Defined.

(** ** C3: degenerate strategy parameters *)

(** C3, counterexample.  A grid whose lower price (200) is above its upper
    price (100) is not rejected: the five orders are sent, from 200 down to
    100, and the call returns their five answers. *)
Lemma grid_inverted_bounds_not_rejected :
  let run := execute_grid bot_ok "BTCUSDT" "BUY" (of_Z 10)
               (of_Z 200) (of_Z 100) 5 []
  in (of_Z 100 < of_Z 200)%Qc
     ∧ fst run = Return ((λ n, {| orderId := n |}) <$> [0; 1; 2; 3; 4])
     ∧ req_price <$> orders_of (snd run)
       = (λ v, Some (of_Z v)) <$> [200; 175; 150; 125; 100].
Proof.
  cbv zeta. split; [by_compute|]. split; by_compute.
Qed.

(** C3, amended.  [execute_twap] with [intervals = 0] and [execute_grid] with
    [grids = 0] raise [ZeroDivisionError] before anything else happens: the
    trace is unchanged, so no request was sent (and nothing was logged). *)
Theorem zero_count_rejected_before_submission self symbol side total_qty w :
  (∀ duration,
     execute_twap self symbol side total_qty duration 0 w
       = (Raise ZeroDivisionError, w))
  ∧ (∀ lower_price upper_price,
       execute_grid self symbol side total_qty lower_price upper_price 0 w
         = (Raise ZeroDivisionError, w)).
Proof.
  split.
  - intros duration. unfold execute_twap.
    rewrite bind_eq, lift_eq, truediv_float_int_0. reflexivity.
  - intros lower_price upper_price. unfold execute_grid.
    rewrite bind_eq, lift_eq, linspace_0.
    rewrite bind_eq, lift_eq, truediv_float_int_0. reflexivity.
Qed.

(** ** C4: pass-through *)

(** C4, the failing input.  With a lot step of zero the value 1.5 is not
    passed through: the Decimal division by the step raises
    [decimal.DivisionByZero].  (The other half of the claim holds: a symbol
    without an applicable rule is passed through, see
    [adjust_precision_no_rule] and X1 below.) *)
Theorem adjust_precision_zero_step_raises :
  applicable_rule bot_zero_step "BTCUSDT" "LOT_SIZE" = Some lot_zero
  ∧ step_field lot_zero "LOT_SIZE" = Some 0%Qc
  ∧ _adjust_precision bot_zero_step "BTCUSDT" (qc 3 2) "LOT_SIZE"
    = Raise DivisionByZero.
Proof.
  assert (Hrule : applicable_rule bot_zero_step "BTCUSDT" "LOT_SIZE"
                  = Some lot_zero) by by_compute.
  split; [exact Hrule|]. split; [reflexivity|].
  rewrite adjust_precision_eq, Hrule. by_compute.
Qed.

(** ** C5: TWAP of 10 over 30 seconds in 5 slices *)

(** C5, counterexample.  The five orders are not always of quantity 2:
    [place_order] normalises the slice quantity against the lot step of the
    symbol.  With a lot step of 3 the run sends five orders of quantity 0
    (the largest multiple of 3 that is not above 2), and returns their five
    answers. *)
Lemma twap_10_30_5_lot_step_three_sends_zero :
  let run := execute_twap bot_lot_three "BTCUSDT" "BUY" (of_Z 10) 30 5 [] in
  run.1 = Return ((λ n, {| orderId := n |}) <$> [0; 1; 2; 3; 4])
  ∧ req_quantity <$> orders_of run.2 = replicate 5 0%Qc
  ∧ 0%Qc ≠ of_Z 2.
Proof.
  cbv zeta. split; [by_compute|]. split; [by_compute | discriminate].
Qed.

(** C5, amended.  [execute_twap(symbol, side, 10, 30, 5)]: the slice
    quantity is [10 / 5 = 2] and the delay [30 / 5 = 6].  When the
    normalisation of the slice quantity returns and the five submissions
    succeed, the run returns five answers (the exchange's, in order) and its
    actions are exactly five MARKET requests, each for the quantity that
    [place_order] normalises 2 to against the lot step of the symbol (2
    itself when the symbol has no lot rule), with a pause of 6 seconds
    between consecutive requests and none after the last. *)
Theorem twap_10_30_5_issues_five_market_orders self symbol side qty w :
  _adjust_precision self (upper symbol) (of_Z 2) "LOT_SIZE" = Return qty →
  let p := {| req_symbol := upper symbol; req_side := upper side;
              req_type := "MARKET"; req_quantity := qty; req_price := None;
              req_stopPrice := None; req_timeInForce := None |} in
  (∀ i, (i < 5)%nat →
        ∃ r, client self (length (orders_of w) + i)%nat p = Return r) →
  truediv_float_int (of_Z 10) 5 = Return (of_Z 2)
  ∧ truediv_int_int 30 5 = Return (of_Z 6)
  ∧ (applicable_rule self (upper symbol) "LOT_SIZE" = None → qty = of_Z 2)
  ∧ ∃ rs t,
      execute_twap self symbol side (of_Z 10) 30 5 w = (Return rs, w ++ t)
      ∧ length rs = 5%nat
      ∧ (∀ i r, rs !! i = Some r →
                client self (length (orders_of w) + i)%nat p = Return r)
      ∧ actions_of t
        = [EvOrder p; EvSleep (of_Z 6); EvOrder p; EvSleep (of_Z 6);
           EvOrder p; EvSleep (of_Z 6); EvOrder p; EvSleep (of_Z 6);
           EvOrder p].
Proof.
  intros Hqty p Hc.
  assert (Hslice : truediv_float_int (of_Z 10) 5 = Return (of_Z 2))
    by by_compute.
  assert (Hdelay : truediv_int_int 30 5 = Return (of_Z 6)) by by_compute.
  assert (Hpos : ∀ w, sleep (of_Z 6) w = (Return tt, w ++ [EvSleep (of_Z 6)]))
    by (intros w'; apply sleep_eq; by_compute).
  split; [exact Hslice|]. split; [exact Hdelay|]. split.
  { intros Hnone. rewrite (adjust_precision_no_rule _ _ _ _ Hnone) in Hqty.
    injection Hqty as <-. reflexivity. }
  pose proof (order_request_market self symbol side (of_Z 2) None None qty
                Hqty) as Hreq.
  set (start := EvInfo (StartingTWAP 5 (of_Z 2) (of_Z 6))).
  destruct (twap_loop_accepted self symbol side (of_Z 2) (of_Z 6) 5 p Hreq
              Hpos (range 5) [] (w ++ [start]))
    as (rs & t & Hrun & Hlen & Hans & Hact).
  { intros i Hi. unfold start. rewrite orders_of_info. apply Hc. exact Hi. }
  exists rs, (start :: t).
  split; [|split; [exact Hlen | split]].
  - unfold execute_twap.
    rewrite bind_eq, lift_eq, Hslice.
    rewrite bind_eq, lift_eq, Hdelay.
    cbv zeta in Hrun |- *.
    rewrite bind_eq, logger_info_eq.
    rewrite bind_eq. fold start. rewrite Hrun.
    rewrite mret_eq, <- app_assoc. reflexivity.
  - intros i r Hi.
    rewrite <- (orders_of_info w (StartingTWAP 5 (of_Z 2) (of_Z 6))).
    apply Hans. exact Hi.
  - simpl. rewrite Hact. reflexivity.
Qed.

(** C5, witness: on the accepting exchange, with lot step 0.001. *)
Lemma twap_10_30_5_witness :
  let p := {| req_symbol := "BTCUSDT"; req_side := "BUY";
              req_type := "MARKET"; req_quantity := of_Z 2;
              req_price := None; req_stopPrice := None;
              req_timeInForce := None |} in
  ∃ rs t,
    execute_twap bot_ok "btcusdt" "buy" (of_Z 10) 30 5 [] = (Return rs, t)
    ∧ length rs = 5%nat
    ∧ actions_of t
      = [EvOrder p; EvSleep (of_Z 6); EvOrder p; EvSleep (of_Z 6);
         EvOrder p; EvSleep (of_Z 6); EvOrder p; EvSleep (of_Z 6);
         EvOrder p].
Proof.
  cbv zeta.
  destruct (twap_10_30_5_issues_five_market_orders bot_ok "btcusdt" "buy"
              (of_Z 2) [])
    as (_ & _ & _ & rs & t & Hrun & Hlen & _ & Hact).
  - by_compute.
  - intros i Hi. eexists. reflexivity.
  - exists rs, t. split; [exact Hrun|]. split; [exact Hlen | exact Hact].
Defined.

(** ** C6: grid of 10 between 100 and 200 in 5 levels *)

(** C6, counterexample.  The five orders are not always at the prices 100,
    125, 150, 175 and 200, nor in strictly ascending price order:
    [place_order] normalises each price against the price tick of the
    symbol.  With a tick of 50 the run sends its five orders at 100, 100,
    150, 150 and 200.  (The quantity is normalised too: with a lot step of 3
    the five orders are of quantity 0.) *)
Lemma grid_10_100_200_5_tick_fifty_repeats_prices :
  let run := execute_grid bot_tick_fifty "BTCUSDT" "BUY" (of_Z 10)
               (of_Z 100) (of_Z 200) 5 [] in
  let sent := req_price <$> orders_of run.2 in
  run.1 = Return ((λ n, {| orderId := n |}) <$> [0; 1; 2; 3; 4])
  ∧ sent = (λ v, Some (of_Z v)) <$> [100; 100; 150; 150; 200]
  ∧ sent ≠ (λ v, Some (of_Z v)) <$> [100; 125; 150; 175; 200]
  ∧ req_quantity
    <$> orders_of (execute_grid bot_lot_three "BTCUSDT" "BUY" (of_Z 10)
                     (of_Z 100) (of_Z 200) 5 []).2
    = replicate 5 0%Qc.
Proof.
  cbv zeta. split; [by_compute|]. split; [by_compute|].
  split; [|by_compute].
  intros H. apply (f_equal (λ l, l !! 1%nat)) in H. vm_compute in H.
  discriminate H.
Qed.

(** C6, amended.  [execute_grid(symbol, side, 10, 100, 200, 5)]: the
    levels are [100, 125, 150, 175, 200] and the quantity per order is
    [10 / 5 = 2].  When the normalisations return and the five submissions
    succeed, the run returns five answers (the exchange's, in order) and
    its actions are exactly five LIMIT requests, one per level in that
    order, each for the quantity that [place_order] normalises 2 to, at the
    price that it normalises the level to, with no pause anywhere: the run
    never sleeps.  For a symbol without rules the quantity is 2 and the
    prices sent are the levels themselves, strictly ascending. *)
Theorem grid_10_100_200_5_issues_five_limit_orders self symbol side qty prs
    w :
  _adjust_precision self (upper symbol) (of_Z 2) "LOT_SIZE" = Return qty →
  Forall2 (λ v pr, _adjust_precision self (upper symbol) (of_Z v)
                     "PRICE_FILTER" = Return pr)
          [100; 125; 150; 175; 200] prs →
  let ps := (λ pr, {| req_symbol := upper symbol; req_side := upper side;
                      req_type := "LIMIT"; req_quantity := qty;
                      req_price := Some pr; req_stopPrice := None;
                      req_timeInForce := Some "GTC" |}) <$> prs in
  (∀ i p, ps !! i = Some p →
          ∃ r, client self (length (orders_of w) + i)%nat p = Return r) →
  linspace (of_Z 100) (of_Z 200) 5
    = Return (of_Z <$> [100; 125; 150; 175; 200])
  ∧ truediv_float_int (of_Z 10) 5 = Return (of_Z 2)
  ∧ (applicable_rule self (upper symbol) "LOT_SIZE" = None → qty = of_Z 2)
  ∧ (applicable_rule self (upper symbol) "PRICE_FILTER" = None
     → prs = of_Z <$> [100; 125; 150; 175; 200]
       ∧ StronglySorted Qclt prs)
  ∧ ∃ rs t,
      execute_grid self symbol side (of_Z 10) (of_Z 100) (of_Z 200) 5 w
        = (Return rs, w ++ t)
      ∧ length rs = 5%nat
      ∧ (∀ i p r, ps !! i = Some p → rs !! i = Some r →
                  client self (length (orders_of w) + i)%nat p = Return r)
      ∧ actions_of t = EvOrder <$> ps
      ∧ length ps = 5%nat
      ∧ sleeps_of t = [].
Proof.
  intros Hqty Hprs ps Hc.
  assert (Hlin : linspace (of_Z 100) (of_Z 200) 5
                 = Return (of_Z <$> [100; 125; 150; 175; 200])) by by_compute.
  assert (Hper : truediv_float_int (of_Z 10) 5 = Return (of_Z 2))
    by by_compute.
  split; [exact Hlin|]. split; [exact Hper|].
  split; [|split].
  { intros Hnone. rewrite (adjust_precision_no_rule _ _ _ _ Hnone) in Hqty.
    injection Hqty as <-. reflexivity. }
  { intros Hnone.
    assert (Heq : prs = of_Z <$> [100; 125; 150; 175; 200]).
    { clear -Hprs Hnone.
      induction Hprs as [|v pr vs prs Hv _ IH]; [reflexivity|].
      rewrite (adjust_precision_no_rule _ _ _ _ Hnone) in Hv.
      injection Hv as <-. cbn [fmap list_fmap]. f_equal. exact IH. }
    split; [exact Heq|]. rewrite Heq. by_compute. }
  set (start := EvInfo (StartingGrid 5 (of_Z 100) (of_Z 200) (of_Z 2))).
  destruct (grid_loop_accepted self symbol side (of_Z 2)
              (of_Z <$> [100; 125; 150; 175; 200]) ps [] (w ++ [start]))
    as (rs & t & Hrun & Hlen & Hans & Hact).
  { unfold ps. apply Forall2_fmap.
    eapply Forall2_impl; [exact Hprs|]. intros v pr Hv. simpl.
    apply order_request_limit; assumption. }
  { intros i p Hi. unfold start. rewrite orders_of_info. apply Hc. exact Hi. }
  exists rs, (start :: t).
  assert (Hps : length ps = 5%nat).
  { unfold ps. rewrite length_fmap, <- (Forall2_length _ _ _ Hprs).
    reflexivity. }
  split; [|split; [lia | split; [|split; [exact Hact | split; [exact Hps|]]]]].
  3:{ rewrite <- sleeps_of_actions. simpl. rewrite Hact.
      apply sleeps_of_orders. }
  - unfold execute_grid.
    rewrite bind_eq, lift_eq, Hlin.
    rewrite bind_eq, lift_eq, Hper.
    cbv zeta in Hrun |- *.
    rewrite bind_eq, logger_info_eq.
    rewrite bind_eq. fold start. rewrite Hrun.
    rewrite mret_eq, <- app_assoc. reflexivity.
  - intros i p r Hi Hr.
    rewrite <- (orders_of_info w
                  (StartingGrid 5 (of_Z 100) (of_Z 200) (of_Z 2))).
    apply Hans; assumption.
Qed.

(** C6, witness: on the accepting exchange, with lot step 0.001 and price
    tick 0.1. *)
Lemma grid_10_100_200_5_witness :
  ∃ rs t,
    execute_grid bot_ok "btcusdt" "buy" (of_Z 10) (of_Z 100) (of_Z 200) 5 []
      = (Return rs, t)
    ∧ length rs = 5%nat
    ∧ actions_of t
      = (λ v, EvOrder {| req_symbol := "BTCUSDT"; req_side := "BUY";
                         req_type := "LIMIT"; req_quantity := of_Z 2;
                         req_price := Some (of_Z v); req_stopPrice := None;
                         req_timeInForce := Some "GTC" |})
        <$> [100; 125; 150; 175; 200].
Proof.
  destruct (grid_10_100_200_5_issues_five_limit_orders bot_ok "btcusdt"
              "buy" (of_Z 2) (of_Z <$> [100; 125; 150; 175; 200]) [])
    as (_ & _ & _ & _ & rs & t & Hrun & Hlen & _ & Hact & _ & _).
  - by_compute.
  - repeat constructor; by_compute.
  - intros i p Hi. eexists. reflexivity.
  - exists rs, t. split; [exact Hrun|]. split; [exact Hlen | exact Hact].
Defined.

(** ** C7: a grid of one level *)

(** C7, counterexample.  The single order is not always for the total
    quantity: [place_order] normalises it.  With a lot step of 0.1 the
    total 2.4 is sent as the float nearest to 2.3. *)
Lemma grid_single_level_quantity_is_normalised :
  let total_qty := round_float (qc 24 10) in
  let run := execute_grid bot_tenth "BTCUSDT" "BUY" total_qty
               (of_Z 100) (of_Z 200) 1 [] in
  run.1 = Return [{| orderId := 0 |}]
  ∧ req_quantity <$> orders_of run.2 = [round_float (qc 23 10)]
  ∧ round_float (qc 23 10) ≠ total_qty.
Proof.
  cbv zeta. split; [by_compute|]. split; [by_compute|].
  intros H. apply (f_equal (λ x, bool_decide (x = round_float (qc 24 10))))
    in H.
  vm_compute in H. discriminate H.
Qed.

(** C7, amended.  [execute_grid] with [grids = 1], for floats whose
    difference [upper_price - lower_price] does not overflow: the only
    level is [lower_price] and the quantity per order is
    [total_qty / 1 = total_qty].  When the two normalisations return and the
    single submission succeeds, the run returns its answer and its only
    action is one LIMIT request, at the price that [place_order] normalises
    [lower_price] to, for the quantity that it normalises [total_qty] to
    (the price and the quantity themselves for a symbol without rules). *)
Theorem grid_single_level_issues_one_limit_order self symbol side total_qty
    lower_price upper_price qty pr r w :
  is_float total_qty → is_float lower_price →
  finite (fsub upper_price lower_price) →
  _adjust_precision self (upper symbol) total_qty "LOT_SIZE" = Return qty →
  _adjust_precision self (upper symbol) lower_price "PRICE_FILTER"
    = Return pr →
  let p := {| req_symbol := upper symbol; req_side := upper side;
              req_type := "LIMIT"; req_quantity := qty;
              req_price := Some pr; req_stopPrice := None;
              req_timeInForce := Some "GTC" |} in
  client self (length (orders_of w)) p = Return r →
  linspace lower_price upper_price 1 = Return [lower_price]
  ∧ truediv_float_int total_qty 1 = Return total_qty
  ∧ (applicable_rule self (upper symbol) "LOT_SIZE" = None
     → qty = total_qty)
  ∧ (applicable_rule self (upper symbol) "PRICE_FILTER" = None
     → pr = lower_price)
  ∧ ∃ t,
      execute_grid self symbol side total_qty lower_price upper_price 1 w
        = (Return [r], w ++ t)
      ∧ actions_of t = [EvOrder p].
Proof.
  intros Htotal Hlower _ Hqty Hpr p Hr.
  pose proof (linspace_1 lower_price upper_price Hlower) as Hlin.
  pose proof (truediv_float_int_1 total_qty Htotal) as Hper.
  split; [exact Hlin|]. split; [exact Hper|]. split; [|split].
  { intros Hnone. rewrite (adjust_precision_no_rule _ _ _ _ Hnone) in Hqty.
    injection Hqty as <-. reflexivity. }
  { intros Hnone. rewrite (adjust_precision_no_rule _ _ _ _ Hnone) in Hpr.
    injection Hpr as <-. reflexivity. }
  pose proof (order_request_limit self symbol side total_qty lower_price None
                qty pr Hqty Hpr) as Hreq.
  eexists. split.
  - unfold execute_grid.
    rewrite bind_eq, lift_eq, Hlin.
    rewrite bind_eq, lift_eq, Hper.
    cbv zeta.
    rewrite bind_eq, logger_info_eq.
    rewrite bind_eq. simpl for_each. rewrite bind_eq, bind_eq.
    rewrite (place_order_accepted _ _ _ _ _ _ _ p r _ Hreq)
      by (rewrite orders_of_info; exact Hr).
    rewrite !mret_eq. rewrite <- !app_assoc. reflexivity.
  - reflexivity.
Qed.

(** C7, witness: 2.5 at the single price 100, bounds 100 and 200. *)
Lemma grid_single_level_witness :
  ∃ t,
    execute_grid bot_ok "btcusdt" "buy" (qc 5 2) (of_Z 100) (of_Z 200) 1 []
      = (Return [{| orderId := 0 |}], t)
    ∧ actions_of t
      = [EvOrder {| req_symbol := "BTCUSDT"; req_side := "BUY";
                    req_type := "LIMIT"; req_quantity := qc 5 2;
                    req_price := Some (of_Z 100); req_stopPrice := None;
                    req_timeInForce := Some "GTC" |}].
Proof.
  destruct (grid_single_level_issues_one_limit_order bot_ok "btcusdt" "buy"
              (qc 5 2) (of_Z 100) (of_Z 200) (qc 5 2) (of_Z 100)
              {| orderId := 0 |} [])
    as (_ & _ & _ & _ & t & Hrun & Hact).
  - unfold is_float. by_compute.
  - unfold is_float. by_compute.
  - unfold finite. by_compute.
  - by_compute.
  - by_compute.
  - reflexivity.
  - exists t. split; [exact Hrun | exact Hact].
Defined.

(** ** C8: validation before the exchange is called *)

(** C8, counterexample.  A LIMIT order without a price does not always fail
    with [MissingPrice]: [place_order] normalises the quantity first, and
    when that raises, its exception is the one the caller gets.  Here the
    quantity 1e40 against the lot step 0.001 needs a 44-digit quotient, more
    than the 28 digits of the Decimal context ([decimal.InvalidOperation]);
    a lot step of zero does the same with [decimal.DivisionByZero].  And
    [place_order] of [bot.py] does not fail at all on an order type other
    than LIMIT: a STOP_LIMIT order and an order of the unknown type OCO are
    each sent to the exchange. *)
Lemma limit_without_price_can_raise_another_error :
  let huge := round_float (pow 10 40) in
  let sent order_type :=
    req_type
    <$> orders_of (Basic.place_order basic_bot_ok "BTCUSDT" "BUY" order_type
                     (qc 3 2) None []).2 in
  is_float huge
  ∧ place_order bot_ok "BTCUSDT" "BUY" "LIMIT" huge None None []
    = (Raise InvalidOperation, [])
  ∧ InvalidOperation ≠ MissingPrice
  ∧ place_order bot_zero_step "BTCUSDT" "BUY" "LIMIT" (qc 3 2) None None []
    = (Raise DivisionByZero, [])
  ∧ DivisionByZero ≠ MissingPrice
  ∧ sent "STOP_LIMIT" = ["STOP_LIMIT"]
  ∧ sent "OCO" = ["OCO"].
Proof.
  cbv zeta. split; [unfold is_float; by_compute|].
  split; [by_compute|]. split; [discriminate|].
  split; [by_compute|]. split; [discriminate|].
  split; by_compute.
Qed.

(** C8, amended.  In [place_order] of [trading_bot.py], a LIMIT order
    without price, a STOP_LIMIT order without stop price or without price,
    and an order of a type other than MARKET, LIMIT and STOP_LIMIT each end
    in an exception with the trace unchanged: no request is sent and nothing
    is logged.  The exception is the one of the normalisation of the
    quantity, which comes first, when that raises; otherwise it is
    [MissingPrice] for the LIMIT order, [MissingStopPrice] for the
    STOP_LIMIT order (the code has this one error for a missing stop price
    and for a missing price) and [UnsupportedKind] for the other types.  In
    [place_order] of [bot.py], a LIMIT order (in any letter case) without
    price raises its [ValueError] with the trace unchanged, and that is its
    only check: an order of any other type, STOP_LIMIT and unknown types
    included, is sent to the exchange. *)
Theorem place_order_validation_errors self basic symbol side quantity w :
  let raised (e : exn) : exn :=
    match _adjust_precision self (upper symbol) quantity "LOT_SIZE" with
    | Raise e0 => e0
    | Return _ => e
    end in
  (∀ stop_price,
     place_order self symbol side "LIMIT" quantity None stop_price w
     = (Raise (raised MissingPrice), w))
  ∧ (∀ price,
       place_order self symbol side "STOP_LIMIT" quantity price None w
       = (Raise (raised MissingStopPrice), w))
  ∧ (∀ stop_price,
       place_order self symbol side "STOP_LIMIT" quantity None stop_price w
       = (Raise (raised MissingStopPrice), w))
  ∧ (∀ order_type price stop_price,
       order_type ≠ "MARKET" → order_type ≠ "LIMIT" →
       order_type ≠ "STOP_LIMIT" →
       place_order self symbol side order_type quantity price stop_price w
       = (Raise (raised (UnsupportedKind order_type)), w))
  ∧ (∀ order_type,
       upper order_type = "LIMIT" →
       Basic.place_order basic symbol side order_type quantity None w
       = (Raise (ValueError "Price must be provided for LIMIT orders"), w))
  ∧ (∀ order_type price,
       upper order_type ≠ "LIMIT" →
       ∃ out t,
         Basic.place_order basic symbol side order_type quantity price w
         = (out, w ++ t)
         ∧ length (orders_of t) = 1%nat).
Proof.
  cbv zeta.
  split; [|split; [|split; [|split; [|split]]]].
  - intros stop_price. rewrite place_order_eq. unfold order_request.
    destruct (_adjust_precision self (upper symbol) quantity "LOT_SIZE");
      reflexivity.
  - intros price. rewrite place_order_eq. unfold order_request.
    destruct (_adjust_precision self (upper symbol) quantity "LOT_SIZE");
      [|reflexivity].
    destruct price; reflexivity.
  - intros stop_price. rewrite place_order_eq. unfold order_request.
    destruct (_adjust_precision self (upper symbol) quantity "LOT_SIZE");
      reflexivity.
  - intros order_type price stop_price Hm Hl Hs.
    rewrite place_order_eq. unfold order_request.
    destruct (_adjust_precision self (upper symbol) quantity "LOT_SIZE");
      [|reflexivity].
    simpl. rewrite !decide_False by assumption. reflexivity.
  - intros order_type Hlimit. rewrite basic_place_order_eq.
    unfold basic_order_request. rewrite decide_True by exact Hlimit.
    reflexivity.
  - intros order_type price Hother. rewrite basic_place_order_eq.
    unfold basic_order_request. rewrite decide_False by exact Hother.
    unfold submit. destruct (Basic.client basic _ _) as [r|e];
      eexists _, _; split; reflexivity.
Qed.

(** C8, witness: the three errors for the quantity 2.5 on a symbol with lot
    step 0.001, and the error of the normalisation for the quantity 1e40. *)
Lemma place_order_validation_witness :
  place_order bot_ok "btcusdt" "buy" "LIMIT" (qc 5 2) None None []
    = (Raise MissingPrice, [])
  ∧ place_order bot_ok "btcusdt" "buy" "STOP_LIMIT" (qc 5 2)
      (Some (of_Z 100)) None []
    = (Raise MissingStopPrice, [])
  ∧ place_order bot_ok "btcusdt" "buy" "OCO" (qc 5 2) None None []
    = (Raise (UnsupportedKind "OCO"), [])
  ∧ place_order bot_ok "btcusdt" "buy" "OCO" (round_float (pow 10 40)) None
      None []
    = (Raise InvalidOperation, []).
Proof.
  assert (Hq : _adjust_precision bot_ok (upper "btcusdt") (qc 5 2) "LOT_SIZE"
               = Return (qc 5 2)) by by_compute.
  assert (Hhuge : _adjust_precision bot_ok (upper "btcusdt")
                    (round_float (pow 10 40)) "LOT_SIZE"
                  = Raise InvalidOperation) by by_compute.
  destruct (place_order_validation_errors bot_ok basic_bot_ok
              "btcusdt" "buy" (qc 5 2) []) as (Hlimit & Hstop & _ & Hkind & _).
  destruct (place_order_validation_errors bot_ok basic_bot_ok
              "btcusdt" "buy" (round_float (pow 10 40)) [])
    as (_ & _ & _ & Hkind' & _).
  rewrite Hq in Hlimit, Hstop, Hkind. rewrite Hhuge in Hkind'.
  split; [apply Hlimit|]. split; [apply Hstop|].
  split; [apply Hkind; discriminate | apply Hkind'; discriminate].
Defined.

(** ** C9: symbol and side are upper-cased *)



(** ** C10: the request of a STOP_LIMIT order *)

(** C10.  For a STOP_LIMIT order with price and stop price, every request
    that [place_order] sends has type "STOP", time in force "GTC", and
    carries the price and the stop price each normalised against the price
    tick; and when the three normalisations (quantity, price, stop price)
    return, exactly that one request is sent. *)
Theorem stop_limit_request_fields self symbol side quantity price stop_price
    w :
  ∃ out t,
    place_order self symbol side "STOP_LIMIT" quantity (Some price)
      (Some stop_price) w
    = (out, w ++ t)
    ∧ (∀ p, p ∈ orders_of t →
         req_type p = "STOP" ∧ req_timeInForce p = Some "GTC"
         ∧ ∃ pr sp,
             req_price p = Some pr ∧ req_stopPrice p = Some sp
             ∧ _adjust_precision self (upper symbol) price "PRICE_FILTER"
               = Return pr
             ∧ _adjust_precision self (upper symbol) stop_price
                 "PRICE_FILTER"
               = Return sp)
    ∧ (∀ qty pr sp,
         _adjust_precision self (upper symbol) quantity "LOT_SIZE"
           = Return qty →
         _adjust_precision self (upper symbol) price "PRICE_FILTER"
           = Return pr →
         _adjust_precision self (upper symbol) stop_price "PRICE_FILTER"
           = Return sp →
         orders_of t
         = [ {| req_symbol := upper symbol; req_side := upper side;
                req_type := "STOP"; req_quantity := qty;
                req_price := Some pr; req_stopPrice := Some sp;
                req_timeInForce := Some "GTC" |} ]).
Proof.
  destruct (place_order_trace self symbol side "STOP_LIMIT" quantity
              (Some price) (Some stop_price) w) as (out & t & Hrun & Ht).
  exists out, t. split; [exact Hrun|].
  unfold order_request in Ht. simpl in Ht.
  destruct (_adjust_precision self (upper symbol) quantity "LOT_SIZE")
    as [qty|e1]; simpl in Ht.
  2:{ rewrite Ht. split; [|intros; discriminate].
      intros p Hp. apply elem_of_nil in Hp. contradiction. }
  destruct (_adjust_precision self (upper symbol) price "PRICE_FILTER")
    as [pr|e2]; simpl in Ht.
  2:{ rewrite Ht. split; [|intros; discriminate].
      intros p Hp. apply elem_of_nil in Hp. contradiction. }
  destruct (_adjust_precision self (upper symbol) stop_price "PRICE_FILTER")
    as [sp|e3]; simpl in Ht.
  2:{ rewrite Ht. split; [|intros; discriminate].
      intros p Hp. apply elem_of_nil in Hp. contradiction. }
  rewrite Ht. split.
  - intros p Hp. apply list_elem_of_singleton in Hp as ->. simpl.
    split; [reflexivity|]. split; [reflexivity|].
    exists pr, sp. repeat split; reflexivity.
  - intros qty' pr' sp' [= <-] [= <-] [= <-]. reflexivity.
Qed.

(** C10, witness: 2.5 with price 100.26 and stop price 99.99 against the
    tick 0.1 is sent as a "STOP" order at the floats nearest to 100.2 and
    99.9. *)
Lemma stop_limit_request_witness :
  ∃ out t,
    place_order bot_ok "btcusdt" "sell" "STOP_LIMIT" (qc 5 2)
      (Some (round_float (qc 10026 100))) (Some (round_float (qc 9999 100)))
      []
    = (out, t)
    ∧ orders_of t
      = [ {| req_symbol := "BTCUSDT"; req_side := "SELL";
             req_type := "STOP"; req_quantity := qc 5 2;
             req_price := Some (round_float (qc 1002 10));
             req_stopPrice := Some (round_float (qc 999 10));
             req_timeInForce := Some "GTC" |} ].
Proof.
  destruct (stop_limit_request_fields bot_ok "btcusdt" "sell" (qc 5 2)
              (round_float (qc 10026 100)) (round_float (qc 9999 100)) [])
    as (out & t & Hrun & _ & Hone).
  exists out, t. split; [exact Hrun|].
  apply Hone; by_compute.
Defined.

(** * Further properties *)

(** X1.  A symbol that the loaded rules do not know has no applicable rule,
    and [_adjust_precision] returns its value unchanged, whatever the value
    and the filter type. *)
Theorem unknown_symbol_passes_through self symbol value filter_type :
  filters self !! upper symbol = None →
  applicable_rule self symbol filter_type = None
  ∧ _adjust_precision self symbol value filter_type = Return value.
Proof.
  intros H.
  assert (Hrule : applicable_rule self symbol filter_type = None)
    by (unfold applicable_rule; rewrite H; reflexivity).
  split; [exact Hrule | apply adjust_precision_no_rule; exact Hrule].
Qed.

(** X1, witness: "ETHUSDT" is not among the rules of the example bot. *)
Lemma unknown_symbol_witness :
  _adjust_precision bot_ok "ethusdt" (round_float (qc 12345 10000)) "LOT_SIZE"
  = Return (round_float (qc 12345 10000)).
Proof.
  apply (unknown_symbol_passes_through bot_ok "ethusdt"). by_compute.
Defined.

(** X2.  [place_order] never retries: a call sends at most one request to
    the exchange, and when the exchange answers it with an exception the
    call raises that exception after logging it. *)
Theorem place_order_sends_at_most_one_request self symbol side order_type
    quantity price stop_price w :
  ∃ out t,
    place_order self symbol side order_type quantity price stop_price w
      = (out, w ++ t)
    ∧ (length (orders_of t) ≤ 1)%nat
    ∧ ∀ p e, orders_of t = [p] →
             client self (length (orders_of w)) p = Raise e →
             out = Raise e
             ∧ t = [EvInfo (PlacingOrder order_type p); EvOrder p;
                    EvError (error_record e)].
Proof.
  rewrite place_order_eq.
  destruct (order_request self symbol side order_type quantity price
              stop_price) as [q|e0].
  - unfold submit.
    destruct (client self (length (orders_of w)) q) as [r|e1] eqn:Hans;
      eexists _, _; (split; [reflexivity|]); (split; [simpl; lia|]);
      simpl; intros p e [= <-] Hp; rewrite Hans in Hp.
    + discriminate.
    + injection Hp as <-. split; reflexivity.
  - exists (Raise e0), []. rewrite app_nil_r. split; [reflexivity|].
    split; [simpl; lia|]. intros p e Hp. discriminate.
Qed.

(** X2, witness: the refused third request of the example exchange. *)
Lemma place_order_refused_witness :
  let p := {| req_symbol := "BTCUSDT"; req_side := "BUY";
              req_type := "MARKET"; req_quantity := of_Z 2;
              req_price := None; req_stopPrice := None;
              req_timeInForce := None |} in
  let w := [EvOrder p; EvOrder p] in
  place_order bot_failing_third "BTCUSDT" "BUY" "MARKET" (of_Z 2) None None w
  = (Raise insufficient_margin,
     w ++ [EvInfo (PlacingOrder "MARKET" p); EvOrder p;
           EvError (ApiError (-2019) "Margin is insufficient.")]).
Proof.
  cbv zeta.
  set (p := {| req_symbol := "BTCUSDT"; req_side := "BUY";
               req_type := "MARKET"; req_quantity := of_Z 2;
               req_price := None; req_stopPrice := None;
               req_timeInForce := None |}).
  destruct (place_order_sends_at_most_one_request bot_failing_third
              "BTCUSDT" "BUY" "MARKET" (of_Z 2) None None [EvOrder p; EvOrder p])
    as (out & t & Hrun & _ & Hraise).
  assert (Ht : orders_of t = [p]).
  { assert (H : t = drop 2 (snd (place_order bot_failing_third "BTCUSDT"
                                   "BUY" "MARKET" (of_Z 2) None None
                                   [EvOrder p; EvOrder p])))
      by (rewrite Hrun; reflexivity).
    rewrite H. by_compute. }
  destruct (Hraise p insufficient_margin Ht eq_refl) as [-> ->].
  exact Hrun.
Defined.

(** ** The strategies in general *)

Section TwapCounts.

Variables (p : params) (delay : float) (intervals : Z).



End TwapCounts.









(** * The edges of the engine, the construction of the bot, the scripts *)

(** ** The strategies at the edges of their parameters *)

Lemma range_nonpos (n : Z) : n ≤ 0 → range n = [].
Proof.
  intros Hn. unfold range. replace (Z.to_nat n) with O by lia. reflexivity.
Qed.

Lemma range_pos (n : Z) :
  0 < n → range n = 0 :: (Z.of_nat <$> seq 1 (Z.to_nat n - 1)).
Proof.
  intros Hn. unfold range.
  replace (Z.to_nat n) with (S (Z.to_nat n - 1)) at 1 by lia. reflexivity.
Qed.

(** X5.  Negative counts.  [execute_twap] does not reject a negative number
    of intervals.  Its two quotients are computed first, and either of them
    raises [OverflowError] when an int is beyond the floats, before anything
    is logged; otherwise the run logs its start and returns the empty list,
    having sent nothing.  With counts of ordinary size nothing overflows.
    [execute_grid] with a negative number of levels is stopped by
    [linspace], with numpy's message, before anything is logged or sent. *)
Theorem negative_counts self symbol side total_qty (n : Z) w :
  n < 0 →
  (∀ duration,
     execute_twap self symbol side total_qty duration n w
     = match truediv_float_int total_qty n, truediv_int_int duration n with
       | Return slice_qty, Return delay =>
           (Return [], w ++ [EvInfo (StartingTWAP n slice_qty delay)])
       | _, _ => (Raise OverflowError, w)
       end)
  ∧ (∀ duration,
       Z.abs n ≤ 2 ^ 1023 → Z.abs duration ≤ 2 ^ 1023 →
       execute_twap self symbol side total_qty duration n w
       = (Return [],
          w ++ [EvInfo (StartingTWAP n
                          (round_float (total_qty / float_of_int n))
                          (round_float (of_Z duration / of_Z n)))]))
  ∧ (∀ lower_price upper_price,
       execute_grid self symbol side total_qty lower_price upper_price n w
       = (Raise (ValueError ("Number of samples, " +:+ pretty n
                             +:+ ", must be non-negative.")), w)).
Proof.
  intros Hn.
  assert (Hempty : ∀ duration slice_qty delay,
            truediv_float_int total_qty n = Return slice_qty →
            truediv_int_int duration n = Return delay →
            execute_twap self symbol side total_qty duration n w
            = (Return [], w ++ [EvInfo (StartingTWAP n slice_qty delay)])).
  { intros duration slice_qty delay Hs Hd. unfold execute_twap.
    rewrite bind_eq, lift_eq, Hs. rewrite bind_eq, lift_eq, Hd.
    cbv zeta. rewrite bind_eq, logger_info_eq.
    rewrite range_nonpos by lia. reflexivity. }
  split; [|split].
  - intros duration.
    destruct (truediv_float_int total_qty n) as [slice_qty|e] eqn:Hs.
    + destruct (truediv_int_int duration n) as [delay|e] eqn:Hd.
      * apply Hempty; [reflexivity | exact Hd].
      * unfold execute_twap. rewrite bind_eq, lift_eq, Hs.
        rewrite bind_eq, lift_eq, Hd.
        revert Hd. unfold truediv_int_int.
        rewrite decide_False by lia. cbv zeta.
        destruct (decide (finite _)) as [_|_]; [discriminate|].
        intros [= <-]. reflexivity.
    + unfold execute_twap. rewrite bind_eq, lift_eq, Hs.
      revert Hs. unfold truediv_float_int, fdiv.
      destruct (decide (finite (float_of_int n))) as [_|_].
      * rewrite decide_False by (apply float_of_int_nonzero; lia).
        discriminate.
      * intros [= <-]. reflexivity.
  - intros duration Hnb Hdb. apply Hempty.
    + apply truediv_float_int_nonzero; [lia | exact Hnb].
    + apply truediv_int_int_nonzero; [lia | exact Hdb].
  - intros lower_price upper_price. unfold execute_grid, linspace.
    rewrite decide_True by exact Hn. reflexivity.
Qed.

(** X5, witness: a count of -3, and 10^400 seconds in -1 intervals. *)
Lemma negative_counts_witness :
  (∃ t, execute_twap bot_ok "BTCUSDT" "BUY" (of_Z 1) 30 (-3) [] = (Return [], t)
        ∧ orders_of t = [])
  ∧ execute_twap bot_ok "BTCUSDT" "BUY" (of_Z 1) (10 ^ 400) (-1) []
    = (Raise OverflowError, [])
  ∧ execute_grid bot_ok "BTCUSDT" "BUY" (of_Z 1) (of_Z 100) (of_Z 200) (-3) []
    = (Raise (ValueError "Number of samples, -3, must be non-negative."), []).
Proof.
  destruct (negative_counts bot_ok "BTCUSDT" "BUY" (of_Z 1) (-3) [])
    as (_ & Htwap & Hgrid); [lia|].
  destruct (negative_counts bot_ok "BTCUSDT" "BUY" (of_Z 1) (-1) [])
    as (Hover & _ & _); [lia|].
  split; [|split].
  - eexists. split; [apply Htwap; lia | reflexivity].
  - rewrite Hover. by_compute.
  - apply Hgrid.
Defined.

(** X6.  A negative duration is noticed only after the first order.  With a
    duration from -9 * 10^9 seconds up to -1 and at least two intervals (at
    most 2^1022, so that the quotients are computed and the delay does not
    underflow to zero), the first slice is sent, and when the exchange
    accepts it the pause that follows raises [ValueError]; the run ends
    there, with one order placed and its answer lost. *)
Theorem twap_negative_duration_fails_after_first_order self symbol side
    total_qty duration intervals qty r w :
  - (9 * 10 ^ 9) ≤ duration < 0 → 2 ≤ intervals ≤ 2 ^ 1022 →
  let slice_qty := round_float (total_qty / float_of_int intervals) in
  let delay := round_float (of_Z duration / of_Z intervals) in
  _adjust_precision self (upper symbol) slice_qty "LOT_SIZE" = Return qty →
  let p := {| req_symbol := upper symbol; req_side := upper side;
              req_type := "MARKET"; req_quantity := qty; req_price := None;
              req_stopPrice := None; req_timeInForce := None |} in
  client self (length (orders_of w)) p = Return r →
  execute_twap self symbol side total_qty duration intervals w
  = (Raise (ValueError "sleep length must be non-negative"),
     w ++ [EvInfo (StartingTWAP intervals slice_qty delay);
           EvInfo (PlacingOrder "MARKET" p); EvOrder p;
           EvInfo (OrderResponse r)]).
Proof.
  intros Hd Hn slice_qty delay Hqty p Hr.
  assert (Hdelay : (delay < 0)%Qc)
    by (apply truediv_int_int_negative; lia).
  assert (Hns : - 2 ^ 63 ≤ sleep_ns delay < 2 ^ 63)
    by (apply sleep_ns_range, delay_abs_le; lia).
  unfold execute_twap.
  rewrite bind_eq, lift_eq, truediv_float_int_nonzero by lia.
  rewrite bind_eq, lift_eq, truediv_int_int_nonzero by lia.
  fold slice_qty delay. cbv zeta.
  rewrite bind_eq, logger_info_eq.
  rewrite range_pos by lia. cbn [for_each].
  rewrite !bind_eq.
  rewrite (place_order_accepted self symbol side "MARKET" slice_qty None None
             p r).
  - rewrite decide_True by lia. unfold sleep.
    rewrite (decide_True (P := - 2 ^ 63 ≤ sleep_ns delay < 2 ^ 63))
      by exact Hns.
    rewrite decide_True by exact Hdelay.
    unfold raise. rewrite <- app_assoc. reflexivity.
  - apply order_request_market. exact Hqty.
  - rewrite orders_of_info. exact Hr.
Qed.

(** X6, witness: two slices over -10 seconds; one order is placed. *)
Lemma twap_negative_duration_witness :
  ∃ t,
    execute_twap bot_ok "BTCUSDT" "BUY" (of_Z 1) (-10) 2 []
    = (Raise (ValueError "sleep length must be non-negative"), t)
    ∧ length (orders_of t) = 1%nat.
Proof.
  eexists. split.
  - apply (twap_negative_duration_fails_after_first_order bot_ok "BTCUSDT"
             "BUY" (of_Z 1) (-10) 2 (qc 1 2) {| orderId := 0 |} []).
    + lia.
    + lia.
    + by_compute.
    + reflexivity.
  - reflexivity.
Defined.

Lemma set_last_cons {A} (a b : A) (l : list A) (x : A) :
  set_last (a :: b :: l) x = a :: set_last (b :: l) x.
Proof. reflexivity. Qed.

Lemma set_last_snoc {A} (b : A) (l : list A) (x : A) :
  ∃ mid, set_last (b :: l) x = mid ++ [x] ∧ length mid = length l.
Proof.
  exists (removelast (b :: l)). split; [reflexivity|].
  rewrite removelast_firstn_len, length_take. simpl. lia.
Qed.

(** X7.  The price levels of a grid of two or more levels start at the
    lower price and end at the upper price exactly, whatever the rounding
    of the levels in between, provided the difference of the two prices
    does not overflow a float and the number of levels fits numpy's 64-bit
    index. *)
Theorem grid_levels_span_both_bounds (lower_price upper_price : float)
    (grids : Z) :
  2 ≤ grids < 2 ^ 63 → is_float lower_price →
  finite (fsub upper_price lower_price) →
  ∃ mid,
    linspace lower_price upper_price grids
    = Return (lower_price :: mid ++ [upper_price])
    ∧ length mid = Z.to_nat (grids - 2).
Proof.
  intros Hn Hlow _. unfold linspace.
  rewrite decide_False by lia.
  rewrite (decide_True (P := 0 < grids - 1)) by lia.
  rewrite (decide_True (P := 1 < grids)) by lia.
  rewrite range_pos by lia.
  replace (Z.to_nat grids - 1)%nat with (S (Z.to_nat (grids - 2))) by lia.
  cbn [seq fmap list_fmap]. rewrite float_of_int_0.
  set (rest := seq 2 _).
  assert (Hhead : ∀ d : float, fadd (fmul 0%Qc d) lower_price = lower_price).
  { intros d. unfold fadd, fmul.
    rewrite Qcmult_0_l, round_float_0, Qcplus_0_l. exact Hlow. }
  assert (Hhead' : ∀ d e : float,
            fadd (fmul (round_float (0%Qc / e)) d) lower_price = lower_price).
  { intros d e. unfold Qcdiv. rewrite Qcmult_0_l, round_float_0. apply Hhead. }
  cbv zeta.
  destruct (decide (round_float (fsub upper_price lower_price
                                 / float_of_int (grids - 1)) = 0%Qc)) as [_|_];
    cbn [fmap list_fmap]; rewrite ?Hhead, ?Hhead', set_last_cons;
    match goal with
    | |- context [set_last (?b :: ?l) ?x] =>
        destruct (set_last_snoc b l x) as (mid & -> & Hlen)
    end;
    exists mid; (split; [reflexivity|]);
    rewrite Hlen, !length_fmap; unfold rest; apply length_seq.
Qed.

(** X7, witness: five levels from 100 to 200. *)
Lemma grid_levels_witness :
  ∃ mid,
    linspace (of_Z 100) (of_Z 200) 5
    = Return (of_Z 100 :: mid ++ [of_Z 200])
    ∧ length mid = 3%nat.
Proof.
  apply (grid_levels_span_both_bounds (of_Z 100) (of_Z 200) 5).
  - lia.
  - unfold is_float. by_compute.
  - unfold finite. by_compute.
Defined.

(** ** More on [_adjust_precision] *)

Lemma upper_char_idemp (c : ascii) : upper_char (upper_char c) = upper_char c.
Proof. destruct c as [[] [] [] [] [] [] [] []]; reflexivity. Qed.

Lemma upper_idemp (s : string) : upper (upper s) = upper s.
Proof.
  induction s as [|c s IH]; [reflexivity|].
  simpl. rewrite upper_char_idemp, IH. reflexivity.
Qed.

(** X8.  The symbol is looked up in upper case: [_adjust_precision] gives
    the same result for a symbol and for its upper-cased form, so the rules
    stored under an upper-case name apply to every spelling of it. *)
Theorem adjust_precision_symbol_case self symbol value filter_type :
  _adjust_precision self (upper symbol) value filter_type
  = _adjust_precision self symbol value filter_type.
Proof. unfold _adjust_precision. rewrite upper_idemp. reflexivity. Qed.

Lemma applicable_filter_app (pre post : list exchange_filter)
    (f : exchange_filter) (filter_type : string) :
  Forall (λ g, filterType g ≠ filter_type) pre →
  filterType f = filter_type →
  applicable_filter (pre ++ f :: post) filter_type = Some f.
Proof.
  intros Hpre Hf. induction Hpre as [|g pre Hg _ IH]; simpl.
  - rewrite decide_True by exact Hf. reflexivity.
  - rewrite decide_False by exact Hg. exact IH.
Qed.

Lemma adjust_loop_app (pre post : list exchange_filter) (f : exchange_filter)
    (value : float) (filter_type : string) :
  Forall (λ g, filterType g ≠ filter_type) pre →
  filterType f = filter_type →
  adjust_loop (pre ++ f :: post) value filter_type
  = adjust_loop [f] value filter_type.
Proof.
  intros Hpre Hf. induction Hpre as [|g pre Hg _ IH].
  - simpl. destruct (decide (filterType f = filter_type)); [|contradiction].
    reflexivity.
  - rewrite <- IH. simpl.
    destruct (decide (filterType g = filter_type)); [contradiction|].
    reflexivity.
Qed.

(** X9.  The first filter of the wanted type decides: filters of other types
    before it are skipped, and whatever follows it (a second filter of the
    same type included) is never read. *)
Theorem adjust_precision_first_match self symbol value filter_type pre f post :
  filters self !! upper symbol = Some (pre ++ f :: post) →
  Forall (λ g, filterType g ≠ filter_type) pre →
  filterType f = filter_type →
  applicable_rule self symbol filter_type = Some f
  ∧ _adjust_precision self symbol value filter_type
    = adjust_loop [f] value filter_type.
Proof.
  intros Hsym Hpre Hf. split.
  - unfold applicable_rule. rewrite Hsym. simpl.
    apply applicable_filter_app; assumption.
  - unfold _adjust_precision. rewrite Hsym. simpl.
    apply adjust_loop_app; assumption.
Qed.

(** X9, witness: a price filter, then two lot filters of steps 0.1 and
    0.001; the first lot filter decides, and 1.25 becomes 1.2. *)
Lemma adjust_precision_first_match_witness :
  _adjust_precision bot_two_lots "btcusdt" (qc 5 4) "LOT_SIZE"
  = Return (round_float (qc 12 10)).
Proof.
  destruct (adjust_precision_first_match bot_two_lots "btcusdt" (qc 5 4)
              "LOT_SIZE" [tick_tenth] lot_tenth [lot_thousandth])
    as [_ H].
  - reflexivity.
  - repeat constructor. discriminate.
  - reflexivity.
  - rewrite H. by_compute.
Defined.

Lemma adjust_precision_floor self symbol value filter_type f step :
  applicable_rule self symbol filter_type = Some f →
  step_field f filter_type = Some step →
  (0 ≤ value)%Qc → (0 < step)%Qc →
  Qc_floor (value / step) < 10 ^ decimal_prec →
  _adjust_precision self symbol value filter_type
  = Return (round_float
              (round_decimal (of_Z (Qc_floor (value / step)) * step))).
Proof.
  intros Hrule Hstep Hv Hs Hk.
  pose proof (Qcdiv_nonneg value step Hv Hs) as Hx.
  pose proof (Qc_floor_nonneg _ Hx) as Hk0.
  rewrite adjust_precision_eq, Hrule, Hstep.
  unfold Decimal_floordiv, Decimal_of_float.
  destruct (decide (step = 0%Qc)) as [->|_].
  { exfalso. exact (Qclt_not_eq _ _ Hs eq_refl). }
  unfold Qc_trunc. destruct (decide (0 ≤ value / step)%Qc) as [_|Hn];
    [|contradiction].
  rewrite Z.abs_eq by exact Hk0.
  destruct (decide (_ < 10 ^ decimal_prec)) as [_|Hn]; [|contradiction].
  reflexivity.
Qed.

(** X10.  Normalising twice.  Let [r] be the float that normalising a float
    [value] returns, the float nearest to the lattice point [quantized].
    Normalising [r] again starts from the lattice point below [r]: it returns
    [r] again when the rounding to a float did not fall below [quantized],
    and otherwise it starts from a lattice point lower than [quantized].
    This is for a quotient below 10^28 and for lattice points that the
    28-digit Decimal context holds exactly, in both passes. *)
Theorem adjust_precision_twice self symbol value filter_type f step :
  applicable_rule self symbol filter_type = Some f →
  step_field f filter_type = Some step →
  (0 ≤ value)%Qc → is_float value → (0 < step)%Qc →
  let k := Qc_floor (value / step) in
  let quantized := (of_Z k * step)%Qc in
  let r := round_float quantized in
  let k' := Qc_floor (r / step) in
  let quantized' := (of_Z k' * step)%Qc in
  k < 10 ^ decimal_prec →
  round_decimal quantized = quantized →
  round_decimal quantized' = quantized' →
  _adjust_precision self symbol value filter_type = Return r
  ∧ _adjust_precision self symbol r filter_type
    = Return (round_float quantized')
  ∧ ((quantized ≤ r)%Qc → round_float quantized' = r)
  ∧ ((r < quantized)%Qc → k' < k).
Proof.
  intros Hrule Hstep Hv Hfloat Hs k quantized r k' quantized' Hk Hexact
    Hexact'.
  pose proof (Qcdiv_nonneg value step Hv Hs) as Hx.
  pose proof (Qc_floor_nonneg _ Hx) as Hk0. fold k in Hk0.
  destruct (floor_multiple_bounds value step Hs) as (Hle & Hlt & _).
  fold k quantized in Hle, Hlt.
  assert (Hq0 : (0 ≤ quantized)%Qc).
  { apply Qcmult_nonneg_nonneg; [|apply Qclt_le_weak; exact Hs].
    apply (proj1 (of_Z_le 0 k)). exact Hk0. }
  assert (Hr0 : (0 ≤ r)%Qc) by (apply round_sig_nonneg; [lia | exact Hq0]).
  assert (Hrv : (r ≤ value)%Qc)
    by (apply float_of_Decimal_le; assumption).
  assert (Hk'k : k' ≤ k).
  { apply Qc_floor_mono, Qcdiv_le_mono; assumption. }
  split; [|split; [|split]].
  - rewrite (adjust_precision_floor self symbol value filter_type f step)
      by assumption.
    fold k quantized. rewrite Hexact. reflexivity.
  - rewrite (adjust_precision_floor self symbol r filter_type f step);
      try assumption.
    + fold k' quantized'. rewrite Hexact'. reflexivity.
    + fold k'. lia.
  - intros Hqr.
    assert (Hkk' : k ≤ k').
    { apply Qc_floor_greatest.
      apply (Qcmult_lt_0_le_reg_r _ _ step Hs).
      rewrite Qcdiv_mult_cancel by exact Hs. exact Hqr. }
    unfold quantized'. replace k' with k by lia. reflexivity.
  - intros Hrq.
    destruct (floor_multiple_bounds r step Hs) as (Hle' & _).
    fold k' in Hle'.
    apply (proj2 (of_Z_lt k' k)).
    apply (Qcmult_lt_mono_pos_r _ _ step Hs).
    eapply Qcle_lt_trans; [exact Hle' | exact Hrq].
Qed.

(** X10, witness: with the lot step 0.1 the float 2.4 is normalised to the
    float nearest to 2.3, which is below 2.3; normalising that float again
    gives the float nearest to 2.2. *)
Lemma adjust_precision_twice_witness :
  let value := round_float (qc 24 10) in
  let r := round_float (qc 23 10) in
  _adjust_precision bot_tenth "BTCUSDT" value "LOT_SIZE" = Return r
  ∧ _adjust_precision bot_tenth "BTCUSDT" r "LOT_SIZE"
    = Return (round_float (qc 22 10))
  ∧ Qc_floor (r / qc 1 10) < Qc_floor (value / qc 1 10).
Proof.
  cbv zeta.
  assert (Hk : Qc_floor (round_float (qc 24 10) / qc 1 10) = 23) by by_compute.
  assert (Hq : (of_Z 23 * qc 1 10)%Qc = qc 23 10) by by_compute.
  assert (Hk' : Qc_floor (round_float (qc 23 10) / qc 1 10) = 22) by by_compute.
  assert (Hq' : (of_Z 22 * qc 1 10)%Qc = qc 22 10) by by_compute.
  destruct (adjust_precision_twice bot_tenth "BTCUSDT"
              (round_float (qc 24 10)) "LOT_SIZE" lot_tenth (qc 1 10))
    as (H1 & H2 & _ & H4).
  - by_compute.
  - reflexivity.
  - by_compute.
  - unfold is_float. by_compute.
  - by_compute.
  - rewrite Hk. by_compute.
  - rewrite Hk, Hq. by_compute.
  - rewrite Hk, Hq, Hk', Hq'. by_compute.
  - rewrite Hk, Hq in H1, H2, H4. rewrite Hk', Hq' in H2.
    split; [exact H1|]. split; [exact H2|].
    rewrite Hk, Hk'. apply H4. by_compute.
Defined.

(** X11.  Negative values are not rounded down: the Decimal floor division
    truncates toward zero, so for a value that is not positive the lattice
    point chosen is the one just above the value, between the value and
    zero, and the float returned for a float lies there too.  This is for a
    quotient above -10^28 and a lattice point that the 28-digit Decimal
    context holds exactly. *)
Theorem adjust_precision_negative_toward_zero self symbol value filter_type f
    step :
  applicable_rule self symbol filter_type = Some f →
  step_field f filter_type = Some step →
  (value ≤ 0)%Qc → (0 < step)%Qc →
  let k := Qc_trunc (value / step) in
  let quantized := (of_Z k * step)%Qc in
  - 10 ^ decimal_prec < k →
  round_decimal quantized = quantized →
  _adjust_precision self symbol value filter_type
    = Return (round_float quantized)
  ∧ (value ≤ quantized)%Qc ∧ (quantized ≤ 0)%Qc
  ∧ (quantized - value < step)%Qc
  ∧ (is_float value → (value ≤ round_float quantized)%Qc).
Proof.
  intros Hrule Hstep Hv Hs k quantized Hk Hexact.
  assert (Hx : (value / step ≤ 0)%Qc).
  { apply (Qcmult_lt_0_le_reg_r _ _ step Hs).
    rewrite Qcdiv_mult_cancel, Qcmult_0_l by exact Hs. exact Hv. }
  destruct (Qc_trunc_nonpos _ Hx) as (Hlo & Hhi & Hk0). fold k in Hlo, Hhi, Hk0.
  assert (Hle : (value ≤ quantized)%Qc).
  { pose proof (proj1 (Qcmult_le_mono_pos_r _ _ step Hs) Hlo) as H.
    rewrite Qcdiv_mult_cancel in H by exact Hs. exact H. }
  assert (Hq0 : (quantized ≤ 0)%Qc).
  { unfold quantized. rewrite <- (Qcmult_0_l step).
    apply Qcmult_le_mono_pos_r; [exact Hs|].
    apply (proj1 (of_Z_le k 0)). exact Hk0. }
  split; [|split; [exact Hle | split; [exact Hq0 | split]]].
  - rewrite adjust_precision_eq, Hrule, Hstep.
    unfold Decimal_floordiv, Decimal_of_float.
    destruct (decide (step = 0%Qc)) as [->|_].
    { exfalso. exact (Qclt_not_eq _ _ Hs eq_refl). }
    fold k. rewrite decide_True by lia.
    simpl. unfold Decimal_mul, float_of_Decimal. fold quantized.
    rewrite Hexact. reflexivity.
  - apply (Qcmult_lt_compat_r _ _ step Hs) in Hhi.
    rewrite Qcmult_plus_distr_l, Qcdiv_mult_cancel, Qcmult_1_l in Hhi
      by exact Hs.
    fold quantized in Hhi.
    apply (Qcplus_lt_mono_r _ _ value).
    replace (quantized - value + value)%Qc with quantized by ring.
    rewrite Qcplus_comm. exact Hhi.
  - intros Hfloat.
    assert (H : (round_float (- quantized) ≤ - value)%Qc).
    { apply round_sig_le_fixed.
      - lia.
      - apply Qcopp_le_compat in Hq0. exact Hq0.
      - apply Qcopp_le_compat. exact Hle.
      - rewrite round_sig_opp. f_equal. exact Hfloat. }
    unfold round_float in H |- *. rewrite round_sig_opp in H.
    apply Qcopp_le_compat in H. rewrite !Qcopp_involutive in H. exact H.
Qed.

(** X11, witness: -2.45 against the lot step 0.1 gives -2.4, not -2.5. *)
Lemma adjust_precision_negative_witness :
  let value := round_float (qc (-245) 100) in
  _adjust_precision bot_tenth "BTCUSDT" value "LOT_SIZE"
    = Return (round_float (qc (-24) 10))
  ∧ (value ≤ qc (-24) 10)%Qc.
Proof.
  cbv zeta.
  assert (Hk : Qc_trunc (round_float (qc (-245) 100) / qc 1 10) = -24)
    by by_compute.
  assert (Hq : (of_Z (-24) * qc 1 10)%Qc = qc (-24) 10) by by_compute.
  destruct (adjust_precision_negative_toward_zero bot_tenth "BTCUSDT"
              (round_float (qc (-245) 100)) "LOT_SIZE" lot_tenth (qc 1 10))
    as (H1 & H2 & _).
  - by_compute.
  - reflexivity.
  - by_compute.
  - by_compute.
  - rewrite Hk. by_compute.
  - rewrite Hk, Hq. by_compute.
  - rewrite Hk, Hq in H1, H2. split; assumption.
Defined.

(** ** More on [place_order] *)

(** X12.  Prices that the order type does not use are ignored without a
    word: a MARKET order behaves the same whatever price and stop price come
    with it, and a LIMIT order the same whatever stop price comes with
    it. *)
Theorem place_order_ignores_unused_prices self symbol side quantity price
    stop_price :
  place_order self symbol side "MARKET" quantity price stop_price
  = place_order self symbol side "MARKET" quantity None None
  ∧ place_order self symbol side "LIMIT" quantity price stop_price
    = place_order self symbol side "LIMIT" quantity price None.
Proof. split; reflexivity. Qed.

(** X13.  [place_order] of [bot.py] checks nothing but the price of a LIMIT
    order.  Every other call sends exactly one request: its type is the
    upper-cased order type, whatever that is; it carries the quantity as it
    was given (nothing is normalised), the price as it was given and the
    time in force "GTC" for a LIMIT order, neither of them otherwise, and
    never a stop price. *)
Theorem basic_place_order_sends_values_as_given basic symbol side order_type
    quantity price w :
  ¬ (upper order_type = "LIMIT" ∧ price = None) →
  let limit := bool_decide (upper order_type = "LIMIT") in
  let p := {| req_symbol := upper symbol; req_side := upper side;
              req_type := upper order_type; req_quantity := quantity;
              req_price := if limit then price else None;
              req_stopPrice := None;
              req_timeInForce := if limit then Some "GTC" else None |} in
  ∃ out t,
    Basic.place_order basic symbol side order_type quantity price w
    = (out, w ++ t)
    ∧ orders_of t = [p].
Proof.
  intros Hcase limit p. rewrite basic_place_order_eq.
  unfold basic_order_request, p, limit.
  destruct (decide (upper order_type = "LIMIT")) as [Hl|Hl].
  - rewrite (bool_decide_eq_true_2 _ Hl).
    destruct price as [price|];
      [|destruct Hcase; split; [exact Hl | reflexivity]].
    unfold submit. destruct (Basic.client basic _ _) as [r|e];
      eexists _, _; split; reflexivity.
  - rewrite (bool_decide_eq_false_2 _ Hl).
    unfold submit. destruct (Basic.client basic _ _) as [r|e];
      eexists _, _; split; reflexivity.
Qed.

(** X13, witness: a stop-limit order is handed to the exchange as it is,
    without its price. *)
Lemma basic_place_order_witness :
  ∃ out t,
    Basic.place_order basic_bot_ok "btcusdt" "buy" "stop_limit"
      (round_float (qc 12345 10000)) (Some (of_Z 100)) [] = (out, t)
    ∧ orders_of t
      = [ {| req_symbol := "BTCUSDT"; req_side := "BUY";
             req_type := "STOP_LIMIT";
             req_quantity := round_float (qc 12345 10000);
             req_price := None; req_stopPrice := None;
             req_timeInForce := None |} ].
Proof.
  apply (basic_place_order_sends_values_as_given basic_bot_ok "btcusdt"
           "buy" "stop_limit" (round_float (qc 12345 10000))
           (Some (of_Z 100)) []).
  intros [H _]. discriminate H.
Defined.

(** ** The log *)

Lemma announced_app (t1 t2 : list event) :
  announced (t1 ++ t2) = announced t1 ++ announced t2.
Proof.
  induction t1 as [|e t1 IH]; [reflexivity|].
  destruct e as [[]| | |]; simpl; rewrite IH; reflexivity.
Qed.

Lemma reported_app (t1 t2 : list event) :
  reported (t1 ++ t2) = (reported t1 + reported t2)%nat.
Proof.
  induction t1 as [|e t1 IH]; [reflexivity|].
  destruct e as [[]| | |]; simpl; rewrite IH; reflexivity.
Qed.

Lemma keeps_log_silent {A} (m : M A) :
  (∀ w, ∃ out, m w = (out, w)) → keeps_log m.
Proof.
  intros H w. destruct (H w) as [out Hrun]. exists out, [].
  rewrite app_nil_r. split; [exact Hrun|]. split; reflexivity.
Qed.

Lemma keeps_log_ret {A} (a : A) : keeps_log (mret a).
Proof. apply keeps_log_silent. intros w. eexists. reflexivity. Qed.

Lemma keeps_log_lift {A} (o : outcome A) : keeps_log (lift o).
Proof. apply keeps_log_silent. intros w. eexists. reflexivity. Qed.

Lemma keeps_log_raise {A} (e : exn) : keeps_log (raise e : M A).
Proof. apply keeps_log_silent. intros w. eexists. reflexivity. Qed.

Lemma keeps_log_sleep (d : float) : keeps_log (sleep d).
Proof.
  intros w. unfold sleep.
  destruct (decide (- 2 ^ 63 ≤ sleep_ns d < 2 ^ 63)) as [_|_];
    [destruct (decide (d < 0)%Qc) as [_|_]|].
  - exists (Raise (ValueError "sleep length must be non-negative")), [].
    rewrite app_nil_r. split; [reflexivity|]. split; reflexivity.
  - exists (Return tt), [EvSleep d]. split; [reflexivity|]. split; reflexivity.
  - exists (Raise OverflowError), [].
    rewrite app_nil_r. split; [reflexivity|]. split; reflexivity.
Qed.

Lemma keeps_log_bind {A B} (m : M A) (k : A → M B) :
  keeps_log m → (∀ a, keeps_log (k a)) → keeps_log (m ≫= k).
Proof.
  intros Hm Hk w. rewrite bind_eq.
  destruct (Hm w) as (out1 & t1 & Hrun1 & Ha1 & Hr1). rewrite Hrun1.
  destruct out1 as [a|e1].
  - destruct (Hk a (w ++ t1)) as (out2 & t2 & Hrun2 & Ha2 & Hr2).
    exists out2, (t1 ++ t2). rewrite Hrun2, app_assoc.
    split; [reflexivity|].
    rewrite announced_app, reported_app, orders_of_app, length_app.
    split; [rewrite Ha1, Ha2; reflexivity | lia].
  - exists (Raise e1), t1. split; [reflexivity|]. split; assumption.
Qed.

Lemma keeps_log_for_each {A S} (xs : list A) (body : A → S → M S) (s : S) :
  (∀ x s', keeps_log (body x s')) → keeps_log (for_each xs body s).
Proof.
  intros Hbody. revert s.
  induction xs as [|x xs IH]; intros s; simpl.
  - apply keeps_log_ret.
  - apply keeps_log_bind; [apply Hbody | exact IH].
Qed.

Lemma keeps_log_submit (c : Client) (order_type : string) (p : params) :
  keeps_log (submit c order_type p).
Proof.
  intros w. unfold submit.
  destruct (c (length (orders_of w)) p) as [r|e];
    eexists _, _; (split; [reflexivity|]); split; reflexivity.
Qed.

Lemma keeps_log_place_order self symbol side order_type quantity price
    stop_price :
  keeps_log (place_order self symbol side order_type quantity price
               stop_price).
Proof.
  intros w. rewrite place_order_eq.
  destruct (order_request self symbol side order_type quantity price
              stop_price) as [p|e].
  - apply keeps_log_submit.
  - exists (Raise e), []. rewrite app_nil_r. split; [reflexivity|].
    split; reflexivity.
Qed.

Lemma keeps_log_start (r : log_record) :
  (∀ order_type p, r ≠ PlacingOrder order_type p) →
  (∀ a, r ≠ OrderResponse a) →
  keeps_log (logger_info r).
Proof.
  intros Hp Ha w. exists (Return tt), [EvInfo r]. split; [reflexivity|].
  destruct r; try (split; reflexivity).
  - destruct (Hp _ _ eq_refl).
  - destruct (Ha _ eq_refl).
Qed.

(** X14.  The log is a complete record of the orders.  In every run of
    [place_order], of [execute_twap], of [execute_grid] and of [bot.py]'s
    [place_order], whether it returns or raises, the requests announced in
    the log are exactly the requests sent, in the same order, and the log
    reports the end (an answer or an error) of each request sent. *)
Theorem log_records_every_order self basic symbol side :
  (∀ order_type quantity price stop_price,
     keeps_log (place_order self symbol side order_type quantity price
                  stop_price))
  ∧ (∀ total_qty duration intervals,
       keeps_log (execute_twap self symbol side total_qty duration intervals))
  ∧ (∀ total_qty lower_price upper_price grids,
       keeps_log (execute_grid self symbol side total_qty lower_price
                    upper_price grids))
  ∧ (∀ order_type quantity price,
       keeps_log (Basic.place_order basic symbol side order_type quantity
                    price)).
Proof.
  split; [|split; [|split]].
  - intros. apply keeps_log_place_order.
  - intros total_qty duration intervals. unfold execute_twap.
    apply keeps_log_bind; [apply keeps_log_lift | intros slice_qty].
    apply keeps_log_bind; [apply keeps_log_lift | intros delay].
    apply keeps_log_bind; [apply keeps_log_start; discriminate | intros _].
    apply keeps_log_bind; [|intros results; apply keeps_log_ret].
    apply keeps_log_for_each. intros i results.
    apply keeps_log_bind; [apply keeps_log_place_order | intros res].
    apply keeps_log_bind; [|intros _; apply keeps_log_ret].
    case_decide; [apply keeps_log_sleep | apply keeps_log_ret].
  - intros total_qty lower_price upper_price grids. unfold execute_grid.
    apply keeps_log_bind; [apply keeps_log_lift | intros prices].
    apply keeps_log_bind; [apply keeps_log_lift | intros qty_per_order].
    apply keeps_log_bind; [apply keeps_log_start; discriminate | intros _].
    apply keeps_log_bind; [|intros results; apply keeps_log_ret].
    apply keeps_log_for_each. intros price results.
    apply keeps_log_bind; [apply keeps_log_place_order | intros res].
    apply keeps_log_ret.
  - intros order_type quantity price w. rewrite basic_place_order_eq.
    destruct (basic_order_request symbol side order_type quantity price)
      as [p|e].
    + apply keeps_log_submit.
    + exists (Raise e), []. rewrite app_nil_r. split; [reflexivity|].
      split; reflexivity.
Qed.

(** ** Construction of the bot *)

Lemma filters_of_snoc (symbols : list symbol_info) (f : symbol_info) :
  filters_of (symbols ++ [f])
  = <[info_symbol f := info_filters f]> (filters_of symbols).
Proof. unfold filters_of. rewrite foldl_app. reflexivity. Qed.

(** The dictionary of [__init__] holds, for each name, the filters of the
    last entry of that name. *)
Lemma filters_of_lookup (symbols : list symbol_info) (name : string) :
  filters_of symbols !! name
  = info_filters <$> last (filter (λ f, info_symbol f = name) symbols).
Proof.
  induction symbols as [|f symbols IH] using rev_ind; [reflexivity|].
  rewrite filters_of_snoc, filter_app.
  destruct (decide (info_symbol f = name)) as [Hf|Hf].
  - rewrite Hf, lookup_insert_eq.
    rewrite (filter_cons_True _ f []) by exact Hf.
    rewrite filter_nil, last_snoc. reflexivity.
  - rewrite lookup_insert_ne by exact Hf.
    rewrite (filter_cons_False _ f []) by exact Hf.
    rewrite filter_nil, app_nil_r. exact IH.
Qed.

Lemma bot_events_app (o1 o2 : list output) :
  bot_events (o1 ++ o2) = bot_events o1 ++ bot_events o2.
Proof.
  induction o1 as [|o o1 IH]; [reflexivity|].
  destruct o; simpl; rewrite IH; reflexivity.
Qed.

Lemma bot_events_bot (w : list event) : bot_events (OutBot <$> w) = w.
Proof.
  induction w as [|e w IH]; [reflexivity|].
  cbn [fmap list_fmap bot_events]. f_equal. exact IH.
Qed.

Lemma elem_of_bot_outputs (o : output) (w : list event) :
  o ∈ OutBot <$> w → ∃ e, o = OutBot e.
Proof.
  intros H. apply list_elem_of_fmap in H as (e & -> & _). exists e. reflexivity.
Qed.

(** The two ways in which [__init__] ends: with an exception, having shown
    and logged nothing, or with a bot after its three steps. *)
Lemma init_cases (binance : Binance) (api_key api_secret : string)
    (testnet : bool) :
  (∃ e out,
     __init__ binance api_key api_secret testnet = (Raise e, out)
     ∧ Forall (λ o, o = OutClient api_key api_secret testnet
                    ∨ o = OutExchangeInfo) out)
  ∨ (∃ session symbols,
       binance api_key api_secret testnet = Return session
       ∧ futures_exchange_info session = Return symbols
       ∧ __init__ binance api_key api_secret testnet
         = (Return {| client := session_orders session;
                      filters := filters_of symbols |},
            [OutClient api_key api_secret testnet; OutExchangeInfo;
             OutInitialized])).
Proof.
  unfold __init__.
  destruct (binance api_key api_secret testnet) as [session|e] eqn:Hb.
  - destruct (futures_exchange_info session) as [symbols|e] eqn:Hi.
    + right. exists session, symbols.
      split; [reflexivity | split; [exact Hi | reflexivity]].
    + left. exists e, [OutClient api_key api_secret testnet; OutExchangeInfo].
      split; [reflexivity|].
      repeat first [apply Forall_nil_2 | apply Forall_cons_2]; auto.
  - left. exists e, [OutClient api_key api_secret testnet].
    split; [reflexivity|].
      repeat first [apply Forall_nil_2 | apply Forall_cons_2]; auto.
Qed.

(** X15.  The rules of a constructed bot.  When the client connects and the
    exchange info arrives, [__init__] returns a bot that sends its orders
    to that client and whose [_adjust_precision] applies, for a symbol, the
    filters of the last entry of the exchange info whose name is the
    upper-cased symbol, letter for letter; a symbol without such an entry is
    passed through. *)
Theorem init_rules_by_upper_case_name binance api_key api_secret testnet
    session symbols :
  binance api_key api_secret testnet = Return session →
  futures_exchange_info session = Return symbols →
  ∃ bot,
    (__init__ binance api_key api_secret testnet).1 = Return bot
    ∧ client bot = session_orders session
    ∧ ∀ symbol value filter_type,
        let entries := filter (λ f, info_symbol f = upper symbol) symbols in
        _adjust_precision bot symbol value filter_type
        = adjust_loop (default [] (info_filters <$> last entries)) value
            filter_type
        ∧ (entries = [] →
           _adjust_precision bot symbol value filter_type = Return value).
Proof.
  intros Hb Hi. unfold __init__. rewrite Hb, Hi.
  eexists. split; [reflexivity|]. split; [reflexivity|].
  intros symbol value filter_type.
  set (entries := filter (λ f, info_symbol f = upper symbol) symbols).
  assert (H : _adjust_precision
                {| client := session_orders session;
                   filters := filters_of symbols |} symbol value filter_type
              = adjust_loop (default [] (info_filters <$> last entries)) value
                  filter_type).
  { unfold _adjust_precision. cbn [filters].
    rewrite filters_of_lookup. reflexivity. }
  split; [exact H|].
  intros Hnil. rewrite H, Hnil. reflexivity.
Qed.

(** X15, witness: of the two entries named "BTCUSDT" the last one gives the
    lot step 0.001, and the rules stored as "ethusdt" are never found. *)
Lemma init_rules_witness :
  ∃ bot,
    (__init__ (connecting accepting) "key" "secret" true).1 = Return bot
    ∧ _adjust_precision bot "btcusdt" (round_float (qc 12345 10000)) "LOT_SIZE"
      = Return (round_float (qc 1234 1000))
    ∧ _adjust_precision bot "ethusdt" (round_float (qc 12345 10000)) "LOT_SIZE"
      = Return (round_float (qc 12345 10000)).
Proof.
  destruct (init_rules_by_upper_case_name (connecting accepting) "key"
              "secret" true
              {| futures_exchange_info := Return example_symbols;
                 session_orders := accepting |} example_symbols
              eq_refl eq_refl)
    as (bot & Hbot & _ & Hrules).
  exists bot. split; [exact Hbot|]. split.
  - rewrite (proj1 (Hrules "btcusdt" _ "LOT_SIZE")). by_compute.
  - apply (proj2 (Hrules "ethusdt" _ "LOT_SIZE")). reflexivity.
Defined.

(** ** The script of [trading_bot.py] *)

(** X16.  How the script of [trading_bot.py] ends.  It finishes normally
    exactly when it prints a result.  An exception leaves it only from the
    construction of the bot, which is outside the [try] block: then no
    method of the bot ran and nothing was printed.  Every other way out is
    [sys.exit(1)] right after a printed message; the exit status is 0 or
    1. *)
Theorem main_exit_status binance args :
  let run := Main.main binance args in
  (run.1 = Finished ↔ ∃ result, OutPrintResult result ∈ run.2)
  ∧ (∀ e, run.1 = Unhandled e →
       (__init__ binance (default "" (Main.api_key args))
          (default "" (Main.api_secret args)) (Main.testnet args)).1 = Raise e
       ∧ bot_events run.2 = []
       ∧ ∀ t, OutPrint t ∉ run.2)
  ∧ (∀ code, run.1 = SysExit code →
       code = 1 ∧ ∃ t, last run.2 = Some (OutPrint t))
  ∧ (exit_code run.1 = 0 ↔ run.1 = Finished)
  ∧ (exit_code run.1 = 0 ∨ exit_code run.1 = 1).
Proof.
  unfold Main.main.
  destruct (not_ (Main.api_key args) || not_ (Main.api_secret args)).
  { cbn. split; [|split; [|split; [|split]]].
    - split; [discriminate|]. intros [result H]. not_listed H.
    - discriminate.
    - intros code [= <-]. split; [reflexivity | eexists; reflexivity].
    - split; discriminate.
    - right. reflexivity. }
  destruct (init_cases binance (default "" (Main.api_key args))
              (default "" (Main.api_secret args)) (Main.testnet args))
    as [(e & out & -> & Hout)|(session & symbols & _ & _ & ->)].
  { cbn. split; [|split; [|split; [|split]]].
    - split; [discriminate|]. intros [result H].
      rewrite Forall_forall in Hout. destruct (Hout _ H); discriminate.
    - intros e' [= <-]. split; [reflexivity|]. split.
      + induction Hout as [|o out [-> | ->] _ IH]; simpl; auto.
      + intros t H. rewrite Forall_forall in Hout.
        destruct (Hout _ H); discriminate.
    - discriminate.
    - split; discriminate.
    - right. reflexivity. }
  set (bot := {| client := session_orders session;
                 filters := filters_of symbols |}).
  destruct (Main.order bot args []) as [[[result|]|e] w];
    cbn [fst snd exit_code];
    (split; [|split; [discriminate | split; [|split]]]).
  - split; [|reflexivity]. intros _. exists result.
    rewrite !elem_of_app. right. right.
    apply elem_of_cons. right. apply list_elem_of_singleton. reflexivity.
  - discriminate.
  - split; reflexivity.
  - left. reflexivity.
  - split; [discriminate|]. intros [result H].
    rewrite !elem_of_app in H. destruct H as [H|[H|H]].
    + not_listed H.
    + apply elem_of_bot_outputs in H as [e ?]. discriminate.
    + not_listed H.
  - intros code [= <-]. split; [reflexivity|].
    eexists. rewrite !last_app. reflexivity.
  - split; discriminate.
  - right. reflexivity.
  - split; [discriminate|]. intros [result H].
    rewrite !elem_of_app in H. destruct H as [H|[H|H]].
    + not_listed H.
    + apply elem_of_bot_outputs in H as [e' ?]. discriminate.
    + not_listed H.
  - intros code [= <-]. split; [reflexivity|].
    eexists. rewrite !last_app. reflexivity.
  - split; discriminate.
  - right. reflexivity.
Qed.

Lemma fail_fast_raise (c : Client) {A} (e : exn) : fail_fast c (raise e : M A).
Proof.
  apply fail_fast_quiet. intros w. exists (Raise e), [].
  rewrite app_nil_r. split; reflexivity.
Qed.

Lemma fail_fast_main_order bot args :
  fail_fast (client bot) (Main.order bot args).
Proof.
  unfold Main.order. repeat case_decide.
  - apply fail_fast_bind; [apply fail_fast_place_order|].
    intros result. apply fail_fast_ret.
  - destruct (Main.duration args) as [duration|];
      [|apply fail_fast_raise].
    destruct (Main.intervals args) as [intervals|];
      [|apply fail_fast_raise].
    apply fail_fast_bind; [apply fail_fast_execute_twap|].
    intros result. apply fail_fast_ret.
  - destruct (Main.lower_price args) as [lower_price|];
      [|apply fail_fast_raise].
    destruct (Main.upper_price args) as [upper_price|];
      [|apply fail_fast_raise].
    destruct (Main.grids args) as [grids|]; [|apply fail_fast_raise].
    apply fail_fast_bind; [apply fail_fast_execute_grid|].
    intros result. apply fail_fast_ret.
  - apply fail_fast_ret.
Qed.

(** X17.  A refused order ends the script of [trading_bot.py].  When the
    exchange answers a request of the script with an exception, that
    request is the last one, the last thing printed is the failure with
    that exception, the script exits with status 1, and no result is
    printed: the answers to the orders accepted before are not shown. *)
Theorem main_reports_refused_order binance args session (j : nat) p e :
  binance (default "" (Main.api_key args)) (default "" (Main.api_secret args))
    (Main.testnet args) = Return session →
  let run := Main.main binance args in
  orders_of (bot_events run.2) !! j = Some p →
  session_orders session j p = Raise e →
  run.1 = SysExit 1
  ∧ last run.2 = Some (OutPrint (TextExn "Failed to place order: " e))
  ∧ length (orders_of (bot_events run.2)) = S j
  ∧ ∀ result, OutPrintResult result ∉ run.2.
Proof.
  intros Hb run Hj He.
  revert Hj. unfold run, Main.main.
  destruct (not_ (Main.api_key args) || not_ (Main.api_secret args)).
  { cbn. discriminate. }
  unfold __init__. rewrite Hb.
  destruct (futures_exchange_info session) as [symbols|e0].
  2:{ cbn. discriminate. }
  set (bot := {| client := session_orders session;
                 filters := filters_of symbols |}).
  destruct (fail_fast_main_order bot args []) as (out & t & Hrun & Hff).
  change ([] ++ t) with t in Hrun. cbn [app orders_of length] in Hff.
  rewrite Hrun.
  assert (Hev : ∀ tail : list output,
            bot_events tail = [] →
            orders_of (bot_events
                         ([OutClient (default "" (Main.api_key args))
                             (default "" (Main.api_secret args))
                             (Main.testnet args);
                           OutExchangeInfo; OutInitialized]
                          ++ (OutBot <$> t) ++ tail))
            = orders_of t).
  { intros tail Htail.
    rewrite !bot_events_app, bot_events_bot, Htail, app_nil_r.
    reflexivity. }
  destruct out as [[result|]|e1]; cbn [fst snd]; rewrite Hev by reflexivity;
    intros Hj; destruct (Hff j p e Hj He) as [Hout Hlen];
    try discriminate Hout.
  injection Hout as ->.
  split; [reflexivity|]. split; [rewrite !last_app; reflexivity|].
  split; [exact Hlen|].
  intros result H. rewrite !elem_of_app in H. destruct H as [H|[H|H]].
  - not_listed H.
  - apply elem_of_bot_outputs in H as [e' ?]. discriminate.
  - not_listed H.
Qed.

(** X17, witness: the TWAP of five slices against the exchange that refuses
    its third request. *)
Lemma main_refused_witness :
  let run := Main.main (connecting failing_third) twap_args in
  run.1 = SysExit 1
  ∧ last run.2
    = Some (OutPrint (TextExn "Failed to place order: " insufficient_margin))
  ∧ length (orders_of (bot_events run.2)) = 3%nat.
Proof.
  cbv zeta.
  destruct (main_reports_refused_order (connecting failing_third) twap_args
              {| futures_exchange_info := Return example_symbols;
                 session_orders := failing_third |} 2
              {| req_symbol := "BTCUSDT"; req_side := "BUY";
                 req_type := "MARKET"; req_quantity := round_float (qc 1 5);
                 req_price := None; req_stopPrice := None;
                 req_timeInForce := None |}
              insufficient_margin eq_refl)
    as (Hexit & Hlast & Hlen & _).
  - by_compute.
  - reflexivity.
  - split; [exact Hexit|]. split; [exact Hlast | exact Hlen].
Defined.

(** X18.  A strategy without its parameters.  When [--type TWAP] comes
    without [--duration] or [--intervals], or [--type GRID] without one of
    its three options, the script sends no order and its exit status is 1.
    The check comes after the construction of the bot: with credentials and
    a bot constructed, the script prints the failure with that [ValueError]
    and exits. *)
Theorem main_strategy_without_parameters binance args :
  (Main.order_type args = "TWAP"
   ∧ (Main.duration args = None ∨ Main.intervals args = None))
  ∨ (Main.order_type args = "GRID"
     ∧ (Main.lower_price args = None ∨ Main.upper_price args = None
        ∨ Main.grids args = None)) →
  let run := Main.main binance args in
  let message :=
    if decide (Main.order_type args = "TWAP")
    then "TWAP requires --duration and --intervals"
    else "GRID requires --lower-price, --upper-price, and --grids" in
  orders_of (bot_events run.2) = []
  ∧ exit_code run.1 = 1
  ∧ (not_ (Main.api_key args) || not_ (Main.api_secret args) = false →
     ∀ bot out,
       __init__ binance (default "" (Main.api_key args))
         (default "" (Main.api_secret args)) (Main.testnet args)
       = (Return bot, out) →
       run = (SysExit 1,
              out ++ [OutPrint (TextExn "Failed to place order: "
                                  (ValueError message))])).
Proof.
  intros Hcase run message.
  assert (Horder : ∀ bot,
            Main.order bot args [] = (Raise (ValueError message), [])).
  { intros bot. unfold Main.order, message.
    destruct Hcase as [[Hty Hnone]|[Hty Hnone]]; rewrite Hty.
    - rewrite decide_False by (intros H; not_listed H).
      rewrite !decide_True by reflexivity.
      destruct Hnone as [-> | ->]; [reflexivity|].
      destruct (Main.duration args); reflexivity.
    - rewrite decide_False by (intros H; not_listed H).
      rewrite (decide_False (P := "GRID" = "TWAP")) by discriminate.
      rewrite decide_True by reflexivity.
      destruct Hnone as [-> | [-> | ->]].
      + reflexivity.
      + destruct (Main.lower_price args); reflexivity.
      + destruct (Main.lower_price args); [|reflexivity].
        destruct (Main.upper_price args); reflexivity. }
  unfold run, Main.main.
  destruct (not_ (Main.api_key args) || not_ (Main.api_secret args)).
  { cbn. split; [reflexivity|]. split; [reflexivity|]. discriminate. }
  destruct (init_cases binance (default "" (Main.api_key args))
              (default "" (Main.api_secret args)) (Main.testnet args))
    as [(e & out & -> & Hout)|(session & symbols & _ & _ & ->)].
  { cbn [fst snd exit_code].
    split; [|split; [reflexivity|intros _ bot out' [=]]].
    induction Hout as [|o out [-> | ->] _ IH]; simpl; auto. }
  rewrite Horder. cbn [fst snd exit_code].
  split; [reflexivity|]. split; [reflexivity|].
  intros _ bot out [= <- <-]. reflexivity.
Qed.

(** X18, witness: a TWAP without [--intervals]. *)
Lemma main_strategy_without_parameters_witness :
  Main.main (connecting accepting) twap_args_incomplete
  = (SysExit 1,
     [OutClient "key" "secret" true; OutExchangeInfo; OutInitialized;
      OutPrint (TextExn "Failed to place order: "
                  (ValueError "TWAP requires --duration and --intervals"))]).
Proof.
  destruct (main_strategy_without_parameters (connecting accepting)
              twap_args_incomplete) as (_ & _ & Hrun).
  - left. split; [reflexivity | right; reflexivity].
  - apply (Hrun eq_refl _ _ eq_refl).
Defined.

(** ** The script of [bot.py] *)

(** X19.  The script of [bot.py].  Whatever [--testnet] says, the client is
    connected to the testnet; at most one order is sent; the script
    finishes normally exactly when its last output is the printed answer of
    the exchange, and its exit status is 0 or 1. *)
Theorem basic_main_testnet_single_order binance args :
  let run := BasicMain.main binance args in
  (∀ api_key api_secret testnet,
     OutClient api_key api_secret testnet ∈ run.2 → testnet = true)
  ∧ (length (orders_of (bot_events run.2)) ≤ 1)%nat
  ∧ (run.1 = Finished
     ↔ ∃ order, last run.2 = Some (OutPrintResult (OneOrder order)))
  ∧ (exit_code run.1 = 0 ∨ exit_code run.1 = 1).
Proof.
  cbv zeta. unfold BasicMain.main.
  destruct (not_ (BasicMain.api_key args) || not_ (BasicMain.api_secret args)).
  { cbn. split; [|split; [lia | split; [|right; reflexivity]]].
    - intros k s t H. not_listed H.
    - split; [discriminate | intros [order [=]]]. }
  unfold BasicMain.__init__.
  destruct (binance _ _ true) as [session|e].
  2:{ cbn. split; [|split; [lia | split; [|right; reflexivity]]].
      - intros k s t H. apply list_elem_of_singleton in H.
        injection H as _ _ ->. reflexivity.
      - split; [discriminate | intros [order [=]]]. }
  cbv beta iota. rewrite basic_place_order_eq.
  set (init := [OutClient _ _ true; OutInitialized]).
  assert (Hinit : ∀ k s t (w : list event) (tail : list output),
            (∀ k s t, OutClient k s t ∉ tail) →
            OutClient k s t ∈ init ++ (OutBot <$> w) ++ tail → t = true).
  { intros k s t w tail Htail H.
    rewrite !elem_of_app in H. destruct H as [H|[H|H]].
    - unfold init in H. apply elem_of_cons in H as [H|H].
      + injection H as _ _ ->. reflexivity.
      + not_listed H.
    - apply elem_of_bot_outputs in H as [e ?]. discriminate.
    - destruct (Htail _ _ _ H). }
  assert (Hev : ∀ (w : list event) (tail : list output),
            bot_events tail = [] →
            bot_events (init ++ (OutBot <$> w) ++ tail) = w).
  { intros w tail Htail.
    rewrite !bot_events_app, bot_events_bot, Htail, app_nil_r. reflexivity. }
  destruct (basic_order_request _ _ _ _ _) as [p|e];
    [unfold submit; cbn [Basic.client orders_of length];
     destruct (session_orders session 0%nat p) as [r|e]|];
    cbn [fst snd exit_code]; rewrite Hev by reflexivity.
  - split; [|split; [simpl; lia | split; [|left; reflexivity]]].
    + intros k s t. apply Hinit. intros k' s' t' H. not_listed H.
    + split; [|reflexivity]. intros _. exists r.
      rewrite !last_app. reflexivity.
  - split; [|split; [simpl; lia | split; [|right; reflexivity]]].
    + intros k s t. apply Hinit. intros k' s' t' H. not_listed H.
    + split; [discriminate|]. intros [order H].
      rewrite !last_app in H. discriminate.
  - split; [|split; [simpl; lia | split; [|right; reflexivity]]].
    + intros k s t. apply Hinit. intros k' s' t' H. not_listed H.
    + split; [discriminate|]. intros [order H].
      rewrite !last_app in H. discriminate.
Qed.

(** ** The page of [app.py] *)

(** The [if] chain of the page never takes a branch that stops the run:
    the strategy parameters are there whenever the order type asks for
    them. *)
Lemma app_order_never_stops bot form w message w' :
  App.order bot form w ≠ (Return (App.StopAfter message), w').
Proof.
  unfold App.order, App.duration, App.intervals, App.lower_price,
    App.upper_price, App.grids.
  destruct (decide (App.order_type form ∈ ["MARKET"; "LIMIT"; "STOP_LIMIT"]))
    as [Hin|Hin].
  { rewrite bind_eq. destruct (place_order _ _ _ _ _ _ _ w) as [[r|e] w1];
      discriminate. }
  destruct (decide (App.order_type form = "TWAP")) as [Ht|Ht].
  { rewrite bind_eq. destruct (execute_twap _ _ _ _ _ _ w) as [[r|e] w1];
      discriminate. }
  destruct (decide (App.order_type form = "GRID")) as [Hg|Hg].
  { rewrite bind_eq. destruct (execute_grid _ _ _ _ _ _ _ w) as [[r|e] w1];
      discriminate. }
  discriminate.
Qed.

(** X20.  A run of the page always reaches its end: the two branches that
    call [st.stop()] cannot be taken.  Unlike in the scripts, the
    construction of the bot is inside the [try] block here: an exception of
    the construction is shown as the last thing on the page, and no method
    of the bot ran. *)
Theorem app_script_always_finishes binance form :
  let run := App.script binance form in
  run.1 = App.Completed
  ∧ ∀ e,
      App.execute form = true → App.api_key form ≠ "" →
      App.api_secret form ≠ "" → App.symbol form ≠ "" →
      (__init__ binance (App.api_key form) (App.api_secret form)
         (App.testnet form)).1 = Raise e →
      last run.2 = Some (OutStError (TextExn "Error executing order: " e))
      ∧ bot_events run.2 = [].
Proof.
  cbv zeta. unfold App.script. split.
  - destruct (App.execute form); [|reflexivity].
    destruct (_ || _); [reflexivity|].
    destruct (bool_decide _); [reflexivity|].
    destruct (__init__ _ _ _ _) as [[bot|e] out]; [|reflexivity].
    destruct (App.order bot form []) as [[[result| |message]|e] w] eqn:Horder;
      try reflexivity.
    destruct (app_order_never_stops _ _ _ _ _ Horder).
  - intros e -> Hkey Hsecret Hsymbol Hinit.
    rewrite !bool_decide_eq_false_2 by assumption. cbn [orb].
    destruct (init_cases binance (App.api_key form) (App.api_secret form)
                (App.testnet form))
      as [(e' & out & Hrun & Hout)|(session & symbols & _ & _ & Hrun)];
      rewrite Hrun in Hinit |- *; [|discriminate].
    injection Hinit as ->. cbn [fst snd].
    split; [apply last_snoc|].
    rewrite bot_events_app, app_nil_r. clear Hrun.
    induction Hout as [|o out [-> | ->] _ IH]; simpl; auto.
Qed.

(** X20, witness: a refused connection is shown on the page. *)
Lemma app_refused_connection_witness :
  let run := App.script refusing twap_form in
  run.1 = App.Completed
  ∧ last run.2
    = Some (OutStError (TextExn "Error executing order: " invalid_key)).
Proof.
  destruct (app_script_always_finishes refusing twap_form) as [Hfin Herr].
  split; [exact Hfin|].
  apply (Herr invalid_key);
    [reflexivity | discriminate | discriminate | discriminate | reflexivity].
Defined.

(** X21.  The form always passes the checks of [place_order].  For the
    three order types that the page hands to [place_order], the price and
    the stop price are there whenever the order type needs them: the call
    sends its request unless the normalisation of the quantity, of the
    price or of the stop price raised, and then it raises that exception
    having sent nothing. *)
Theorem app_form_passes_place_order_checks bot form w :
  App.order_type form ∈ ["MARKET"; "LIMIT"; "STOP_LIMIT"] →
  ∃ out t,
    place_order bot (App.symbol form) (App.side form) (App.order_type form)
      (App.quantity form) (App.price form) (App.stop_price form) w
    = (out, w ++ t)
    ∧ (length (orders_of t) = 1%nat
       ∨ ∃ e,
           out = Raise e ∧ t = []
           ∧ (_adjust_precision bot (upper (App.symbol form))
                (App.quantity form) "LOT_SIZE" = Raise e
              ∨ _adjust_precision bot (upper (App.symbol form))
                  (App.price_input form) "PRICE_FILTER" = Raise e
              ∨ _adjust_precision bot (upper (App.symbol form))
                  (App.stop_price_input form) "PRICE_FILTER" = Raise e)).
Proof.
  intros Hty.
  rewrite place_order_eq.
  assert (Hreq :
    (∃ p, order_request bot (App.symbol form) (App.side form)
            (App.order_type form) (App.quantity form) (App.price form)
            (App.stop_price form) = Return p)
    ∨ ∃ e,
        order_request bot (App.symbol form) (App.side form)
          (App.order_type form) (App.quantity form) (App.price form)
          (App.stop_price form) = Raise e
        ∧ (_adjust_precision bot (upper (App.symbol form))
             (App.quantity form) "LOT_SIZE" = Raise e
           ∨ _adjust_precision bot (upper (App.symbol form))
               (App.price_input form) "PRICE_FILTER" = Raise e
           ∨ _adjust_precision bot (upper (App.symbol form))
               (App.stop_price_input form) "PRICE_FILTER" = Raise e)).
  { unfold order_request, App.price, App.stop_price.
    destruct (_adjust_precision bot (upper (App.symbol form))
                (App.quantity form) "LOT_SIZE") as [qty|e] eqn:Hqty.
    2:{ right. exists e. split; [reflexivity | left; reflexivity]. }
    cbn [mbind outcome_bind obind].
    repeat (apply elem_of_cons in Hty as [Hty|Hty]);
      [..|apply elem_of_nil in Hty; contradiction]; rewrite Hty.
    - left. eexists. reflexivity.
    - rewrite decide_False by discriminate.
      rewrite decide_True by reflexivity.
      rewrite decide_True
        by (apply elem_of_cons; left; reflexivity).
      destruct (_adjust_precision bot (upper (App.symbol form))
                  (App.price_input form) "PRICE_FILTER") as [pr|e] eqn:Hpr.
      + left. eexists. reflexivity.
      + right. exists e. split; [reflexivity | right; left; reflexivity].
    - rewrite !(decide_False (P := "STOP_LIMIT" = _)) by discriminate.
      rewrite !decide_True
        by (reflexivity || (apply elem_of_cons; right;
                            apply elem_of_cons; left; reflexivity)).
      destruct (_adjust_precision bot (upper (App.symbol form))
                  (App.price_input form) "PRICE_FILTER") as [pr|e] eqn:Hpr.
      2:{ right. exists e. split; [reflexivity | right; left; reflexivity]. }
      destruct (_adjust_precision bot (upper (App.symbol form))
                  (App.stop_price_input form) "PRICE_FILTER")
        as [sp|e] eqn:Hsp.
      + left. eexists. reflexivity.
      + right. exists e. split; [reflexivity | right; right; reflexivity]. }
  destruct Hreq as [[p ->]|(e & -> & Hraise)].
  - unfold submit. destruct (client bot _ p) as [r|e];
      eexists _, _; (split; [reflexivity|]); left; reflexivity.
  - exists (Raise e), []. rewrite app_nil_r. split; [reflexivity|].
    right. exists e. auto.
Qed.

(** X21, witness: a LIMIT order from the form is sent, at the price 0 that
    the number input starts with. *)
Lemma app_form_limit_witness :
  ∃ out t,
    place_order bot_ok "btcusdt" "BUY" "LIMIT" (of_Z 1) (Some 0%Qc) None []
    = (out, t)
    ∧ length (orders_of t) = 1%nat.
Proof.
  destruct (app_form_passes_place_order_checks bot_ok limit_form [])
    as (out & t & Hrun & [Hsent|(e & _ & _ & Hraise)]).
  - by_compute.
  - exists out, t. split; [exact Hrun | exact Hsent].
  - exfalso. destruct Hraise as [H|[H|H]]; vm_compute in H; discriminate H.
Defined.




(** ** The choices of the order type *)

(** X23.  The choices cover the branches.  With an order type among the
    choices of [--type], the script of [trading_bot.py] always binds
    [result] before it prints it; so does the page of [app.py] with an order
    type of its select box. *)
Theorem order_type_choices_bind_result bot args form w :
  (Main.parsed args → ∀ w', Main.order bot args w ≠ (Return None, w'))
  ∧ (App.in_range form →
     ∀ w', App.order bot form w ≠ (Return App.Unbound, w')).
Proof.
  split.
  - intros (_ & Hty & _) w'. unfold Main.order.
    destruct (decide (Main.order_type args ∈ ["MARKET"; "LIMIT"; "STOP_LIMIT"]))
      as [Hin|Hin].
    { rewrite bind_eq. destruct (place_order _ _ _ _ _ _ _ w) as [[r|e] w1];
        discriminate. }
    destruct (decide (Main.order_type args = "TWAP")) as [Ht|Ht].
    { destruct (Main.duration args); [|discriminate].
      destruct (Main.intervals args); [|discriminate].
      rewrite bind_eq. destruct (execute_twap _ _ _ _ _ _ w) as [[r|e] w1];
        discriminate. }
    destruct (decide (Main.order_type args = "GRID")) as [Hg|Hg].
    { destruct (Main.lower_price args); [|discriminate].
      destruct (Main.upper_price args); [|discriminate].
      destruct (Main.grids args); [|discriminate].
      rewrite bind_eq. destruct (execute_grid _ _ _ _ _ _ _ w) as [[r|e] w1];
        discriminate. }
    exfalso.
    repeat (apply elem_of_cons in Hty as [Hty|Hty]);
      [..|apply elem_of_nil in Hty; contradiction];
      try contradiction; apply Hin; rewrite Hty.
    + apply elem_of_cons. left. reflexivity.
    + apply elem_of_cons. right. apply elem_of_cons. left. reflexivity.
    + do 2 (apply elem_of_cons; right). apply elem_of_cons. left. reflexivity.
  - intros (_ & Hty & _) w'. unfold App.order.
    destruct (decide (App.order_type form ∈ ["MARKET"; "LIMIT"; "STOP_LIMIT"]))
      as [Hin|Hin].
    { rewrite bind_eq. destruct (place_order _ _ _ _ _ _ _ w) as [[r|e] w1];
        discriminate. }
    destruct (decide (App.order_type form = "TWAP")) as [Ht|Ht].
    { destruct (App.duration form); [|discriminate].
      destruct (App.intervals form); [|discriminate].
      rewrite bind_eq. destruct (execute_twap _ _ _ _ _ _ w) as [[r|e] w1];
        discriminate. }
    destruct (decide (App.order_type form = "GRID")) as [Hg|Hg].
    { destruct (App.lower_price form); [|discriminate].
      destruct (App.upper_price form); [|discriminate].
      destruct (App.grids form); [|discriminate].
      rewrite bind_eq. destruct (execute_grid _ _ _ _ _ _ _ w) as [[r|e] w1];
        discriminate. }
    exfalso.
    repeat (apply elem_of_cons in Hty as [Hty|Hty]);
      [..|apply elem_of_nil in Hty; contradiction];
      try contradiction; apply Hin; rewrite Hty.
    + apply elem_of_cons. left. reflexivity.
    + apply elem_of_cons. right. apply elem_of_cons. left. reflexivity.
    + do 2 (apply elem_of_cons; right). apply elem_of_cons. left. reflexivity.
Qed.

(** ** The handlers of the logger *)

Lemma handlers_after (n : nat) (destination : handler) :
  destination = FileHandler "bot.log" ∨ destination = StreamHandler →
  filter (λ h, h = destination) (Nat.iter n add_handlers [])
  = replicate n destination.
Proof.
  intros Hd. induction n as [|n IH]; [reflexivity|].
  rewrite Nat.iter_succ. unfold add_handlers at 1. rewrite filter_app, IH.
  rewrite replicate_S_end. f_equal.
  destruct Hd as [-> | ->]; reflexivity.
Qed.

Lemma bind_replicate {A B} (n : nat) (x : A) (y : B) :
  (replicate n x ≫= λ _, [y]) = replicate n y.
Proof.
  induction n as [|n IH]; [reflexivity|].
  cbn [replicate]. rewrite bind_cons, IH. reflexivity.
Qed.

(** X24.  Every construction of a bot adds handlers to the one logger of the
    process, so the log repeats itself: in a process that has constructed
    [n] bots, every record that a method of a bot logs is written [n] times
    to [bot.log] and [n] times to the console. *)
Theorem handlers_multiply_the_log (n : nat) (t : list event) :
  let logger := Nat.iter n add_handlers [] in
  written logger (FileHandler "bot.log") t
  = (log_records t ≫= replicate n)
  ∧ written logger StreamHandler t = (log_records t ≫= replicate n).
Proof.
  cbv zeta. unfold written.
  rewrite !handlers_after by auto.
  split; induction (log_records t) as [|r rs IH]; try reflexivity;
    rewrite !bind_cons, IH, bind_replicate; reflexivity.
Qed.

(** ** Which exchange the scripts reach *)

(** The only connection among the outputs of a construction is the one that
    the construction asks for. *)
Lemma init_connection binance api_key api_secret testnet k s t :
  OutClient k s t ∈ (__init__ binance api_key api_secret testnet).2 →
  k = api_key ∧ s = api_secret ∧ t = testnet.
Proof.
  intros H.
  destruct (init_cases binance api_key api_secret testnet)
    as [(e & out & Hrun & Hout)|(session & symbols & _ & _ & Hrun)];
    rewrite Hrun in H; cbn [snd] in H.
  - rewrite Forall_forall in Hout.
    destruct (Hout _ H) as [[= -> -> ->]|[=]]. auto.
  - apply elem_of_cons in H as [[= -> -> ->]|H]; [auto|]. not_listed H.
Qed.

(** X25.  Which exchange the scripts reach.  The script of [trading_bot.py]
    connects to the testnet only: [--testnet] cannot switch it off.  The
    page of [app.py] connects with the credentials of its side bar and to
    the network that its check box says, so the page alone can reach the
    live exchange. *)
Theorem scripts_network binance args form :
  (Main.parsed args →
   ∀ k s t, OutClient k s t ∈ (Main.main binance args).2 → t = true)
  ∧ (∀ k s t,
       OutClient k s t ∈ (App.script binance form).2 →
       k = App.api_key form ∧ s = App.api_secret form
       ∧ t = App.testnet form).
Proof.
  split.
  - intros (_ & _ & Htest) k s t. unfold Main.main.
    destruct (_ || _); [intros H; not_listed H|].
    destruct (__init__ _ _ _ _) as [[bot|e] out] eqn:Hinit.
    + assert (Hout : OutClient k s t ∈ out → t = true).
      { intros H. rewrite <- Htest.
        eapply init_connection. rewrite Hinit. exact H. }
      destruct (Main.order bot args []) as [[[result|]|e] w]; cbn [snd];
        rewrite !elem_of_app; intros [H|[H|H]]; auto;
        try (apply elem_of_bot_outputs in H as [e' ?]; discriminate);
        not_listed H.
    + cbn [snd]. intros H. rewrite <- Htest.
      eapply init_connection. rewrite Hinit. exact H.
  - intros k s t. unfold App.script.
    destruct (App.execute form); [|intros H; not_listed H].
    destruct (_ || _); [intros H; not_listed H|].
    destruct (bool_decide _); [intros H; not_listed H|].
    destruct (__init__ _ _ _ _) as [[bot|e] out] eqn:Hinit.
    + assert (Hout : OutClient k s t ∈ out →
                     k = App.api_key form ∧ s = App.api_secret form
                     ∧ t = App.testnet form).
      { intros H. eapply init_connection. rewrite Hinit. exact H. }
      destruct (App.order bot form []) as [[[result| |message]|e] w];
        cbn [snd]; rewrite !elem_of_app; intros [H|[H|H]]; auto;
        try (apply elem_of_bot_outputs in H as [e' ?]; discriminate);
        not_listed H.
    + cbn [snd]. rewrite elem_of_app. intros [H|H]; [|not_listed H].
      eapply init_connection. rewrite Hinit. exact H.
Qed.
